(** * Offline-first synchronisation engine: scheduler and sync policy

    A shallow embedding of the two TypeScript classes that make up the
    synchronisation core of the application:

    - [CronService] (cron.service.ts): the named-job scheduler built on
      [setInterval] / [setTimeout];
    - [AppComponent] (app.component.ts): [checkSyncLog], the tick that pushes
      unsynced exception logs to the remote API, and its helpers
      [getErrorType], [getErrorCode], [getErrorMessage].

    JavaScript runs these on one cooperative thread: code between two
    [await]s is atomic, and everything after an [await] is a continuation
    that the event loop runs later.  Both embeddings are therefore written
    as a state plus a total [step] function over the events the event loop
    can deliver (a timer fires, a promise settles, the API is called). *)

From stdpp Require Import gmap strings list fin_maps pretty.
From Stdlib Require Import ZArith Lia Ascii String.

Local Open Scope string_scope.
Local Open Scope Z_scope.

(** ** Error classification (app.component.ts, [getErrorType] and friends) *)

Module Classify.

(** [String.prototype.toLowerCase], on the ASCII range. *)
Definition toLowerChar (c : ascii) : ascii :=
  let n := N_of_ascii c in
  if ((65 <=? n) && (n <=? 90))%N then ascii_of_N (n + 32) else c.

Fixpoint toLowerCase (s : string) : string :=
  match s with
  | EmptyString => EmptyString
  | String c s' => String (toLowerChar c) (toLowerCase s')
  end.

(** [String.prototype.includes]: [sub] occurs somewhere in [s]. *)
Fixpoint includes (s sub : string) : bool :=
  String.prefix sub s ||
  match s with
  | EmptyString => false
  | String _ s' => includes s' sub
  end.

(** The [error: any] caught by [catchError]; only [error?.message] is read. *)
Record JsError := { err_message : option string }.

(** [error?.message?.toLowerCase() || ''] *)
Definition lowerMessage (error : JsError) : string :=
  match err_message error with
  | Some m => toLowerCase m
  | None => ""
  end.

(** [getErrorType(error)]; [onLine] is [navigator.onLine] at the call. *)
Definition getErrorType (onLine : bool) (error : JsError) : string :=
  let errorMessage := lowerMessage error in
  if negb onLine
     || includes errorMessage "network"
     || includes errorMessage "failed to fetch"
  then "NetworkOfflineError"
  else if includes errorMessage "timeout" then "TimeoutError"
  else if includes errorMessage "400" || includes errorMessage "bad request"
  then "BadRequestError"
  else if includes errorMessage "401" || includes errorMessage "unauthorized"
  then "UnauthorizedError"
  else if includes errorMessage "403" || includes errorMessage "forbidden"
  then "ForbiddenError"
  else if includes errorMessage "404" || includes errorMessage "not found"
  then "NotFoundError"
  else if includes errorMessage "500" || includes errorMessage "internal server"
  then "ServerError"
  else "SyncError".

(** The object literal [errorCodes] of [getErrorCode]. *)
Definition errorCodes : list (string * string) :=
  [ ("NetworkOfflineError", "SYNC_NET_001");
    ("TimeoutError", "SYNC_TMO_001");
    ("BadRequestError", "SYNC_REQ_400");
    ("UnauthorizedError", "SYNC_AUT_401");
    ("ForbiddenError", "SYNC_FOR_403");
    ("NotFoundError", "SYNC_NTF_404");
    ("ServerError", "SYNC_SRV_500");
    ("SyncError", "SYNC_ERR_001") ].

Fixpoint property (table : list (string * string)) (key : string) : option string :=
  match table with
  | [] => None
  | (k, v) :: rest => if String.eqb k key then Some v else property rest key
  end.

(** [errorCodes[errorType] || 'SYNC_UNK_999'] *)
Definition getErrorCode (errorType : string) : string :=
  match property errorCodes errorType with
  | Some c => if String.eqb c "" then "SYNC_UNK_999" else c
  | None => "SYNC_UNK_999"
  end.

(** [getErrorMessage(error, errorType)]: the user-facing text; only the
    [SyncError] text depends on the error. *)
Definition messages (error : JsError) : list (string * string) :=
  let detail := match err_message error with
                | Some m => if String.eqb m "" then "Unknown error" else m
                | None => "Unknown error"
                end in
  [ ("NetworkOfflineError",
     "ไม่สามารถเชื่อมต่อเครือข่าย กรุณาตรวจสอบการเชื่อมต่ออินเทอร์เน็ต");
    ("TimeoutError", "การเชื่อมต่อหมดเวลา กรุณาลองใหม่อีกครั้ง");
    ("BadRequestError", "ข้อมูลที่ส่งไม่ถูกต้อง กรุณาตรวจสอบข้อมูล");
    ("UnauthorizedError", "ไม่มีสิทธิ์เข้าถึง กรุณาเข้าสู่ระบบใหม่");
    ("ForbiddenError", "ไม่อนุญาตให้เข้าถึง กรุณาติดต่อผู้ดูแลระบบ");
    ("NotFoundError", "ไม่พบข้อมูลที่ต้องการ");
    ("ServerError", "เซิร์ฟเวอร์เกิดข้อผิดพลาด กรุณาลองใหม่ภายหลัง");
    ("SyncError", "การซิงค์ล้มเหลว: " ++ detail) ].

(** [messages[errorType] || messages['SyncError']] *)
Definition getErrorMessage (error : JsError) (errorType : string) : string :=
  match property (messages error) errorType with
  | Some m => m
  | None => default "" (property (messages error) "SyncError")
  end.

(** *** The taxonomy of the specification (section 7), for comparison *)

Inductive ErrorKind :=
  | NetworkOfflineError | TimeoutError | BadRequestError | UnauthorizedError
  | ForbiddenError | NotFoundError | ServerError | SyncError.

Definition kindName (k : ErrorKind) : string :=
  match k with
  | NetworkOfflineError => "NetworkOfflineError"
  | TimeoutError => "TimeoutError"
  | BadRequestError => "BadRequestError"
  | UnauthorizedError => "UnauthorizedError"
  | ForbiddenError => "ForbiddenError"
  | NotFoundError => "NotFoundError"
  | ServerError => "ServerError"
  | SyncError => "SyncError"
  end.

(** The fixed code table of section 7. *)
Definition kindCode (k : ErrorKind) : string :=
  match k with
  | NetworkOfflineError => "SYNC_NET_001"
  | TimeoutError => "SYNC_TMO_001"
  | BadRequestError => "SYNC_REQ_400"
  | UnauthorizedError => "SYNC_AUT_401"
  | ForbiddenError => "SYNC_FOR_403"
  | NotFoundError => "SYNC_NTF_404"
  | ServerError => "SYNC_SRV_500"
  | SyncError => "SYNC_ERR_001"
  end.

(** The message signatures that indicate each kind. *)
Definition signatures (k : ErrorKind) : list string :=
  match k with
  | NetworkOfflineError => ["network"; "failed to fetch"]
  | TimeoutError => ["timeout"]
  | BadRequestError => ["400"; "bad request"]
  | UnauthorizedError => ["401"; "unauthorized"]
  | ForbiddenError => ["403"; "forbidden"]
  | NotFoundError => ["404"; "not found"]
  | ServerError => ["500"; "internal server"]
  | SyncError => []
  end.

(** A kind is triggered by one of its signatures in the lower-cased
    message; the network kind also by the offline state. *)
Definition triggered (onLine : bool) (error : JsError) (k : ErrorKind) : bool :=
  match k with
  | NetworkOfflineError => negb onLine
  | _ => false
  end
  || existsb (includes (lowerMessage error)) (signatures k).

(** The order in which the kinds are tried. *)
Definition priority : list ErrorKind :=
  [ NetworkOfflineError; TimeoutError; BadRequestError; UnauthorizedError;
    ForbiddenError; NotFoundError; ServerError ].

(** First triggered kind in priority order, [SyncError] when none is. *)
Definition classify (onLine : bool) (error : JsError) : ErrorKind :=
  match List.find (triggered onLine error) priority with
  | Some k => k
  | None => SyncError
  end.

End Classify.

(** ** The scheduler (cron.service.ts, [CronService]) *)

Module Cron.

(** *** Dates

    A [Date] is its time value in milliseconds, read on the local clock
    face: local midnight falls on the multiples of a day, and a calendar
    day is 24 hours long (a zone without daylight-saving shifts). *)

Definition MS_PER_MINUTE : Z := 60 * 1000.
Definition MS_PER_HOUR : Z := 60 * 60 * 1000.
Definition MS_PER_DAY : Z := 24 * 60 * 60 * 1000.

(** The calendar day of a date, and the time elapsed since its midnight. *)
Definition dayOf (t : Z) : Z := t / MS_PER_DAY.
Definition timeOfDay (t : Z) : Z := t mod MS_PER_DAY.

(** [new Date(y, m, d, hour, minute, 0, 0)] for the calendar day [day];
    out-of-range fields carry over into the next units, as in JS. *)
Definition dateAt (day hour minute : Z) : Z :=
  day * MS_PER_DAY + hour * MS_PER_HOUR + minute * MS_PER_MINUTE.

(** [getNextRun] of [addDailyJob]. *)
Definition getNextRun (now hour minute : Z) : Z :=
  let scheduled := dateAt (dayOf now) hour minute in
  if scheduled <=? now
  then (* scheduled.setDate(scheduled.getDate() + 1) *) scheduled + MS_PER_DAY
  else scheduled.

(** *** Data *)

Record CronJobOptions := {
  autoStart : option bool;
  runOnInit : option bool;
  maxRuns : option Z;
  onError : option nat          (* the handler, by identity *)
}.

(** [options || {}] for an omitted argument. *)
Definition noOptions : CronJobOptions :=
  {| autoStart := None; runOnInit := None; maxRuns := None; onError := None |}.

(** The function values the service creates and hands to timers.  Each
    call of [addIntervalJob] / [addDailyJob] creates fresh closures; [reg]
    identifies the call whose local variables they capture. *)
Inductive Callback :=
  | WrappedOnTick (reg : nat)   (* [wrappedOnTick] of [addIntervalJob] *)
  | ScheduleNext (reg : nat)    (* [scheduleNext] of [addDailyJob] *)
  | DailyTimeout (reg : nat).   (* the [async () => ...] given to [setTimeout] *)

Record CronJobWrapper := {
  name : string;
  intervalId : option nat;
  interval : Z;
  runCount : Z;
  lastRun : option Z;
  nextRun : option Z;
  isRunning : bool;
  onTick : Callback;
  options : CronJobOptions
}.

Record CronJobInfo := {
  info_name : string;
  info_interval : Z;
  info_isRunning : bool;
  info_runCount : Z;
  info_lastRun : option Z;
  info_nextRun : option Z
}.

(** The variables captured by the closures of one [addIntervalJob] call:
    its parameters and the local [let runCount]. *)
Record IntervalScope := {
  is_name : string;
  is_interval : Z;
  is_onTick : nat;              (* the caller's action, by identity *)
  is_options : CronJobOptions;
  is_runCount : Z
}.

(** The variables captured by the closures of one [addDailyJob] call. *)
Record DailyScope := {
  ds_name : string;
  ds_hour : Z;
  ds_minute : Z;
  ds_onTick : nat
}.

(** Browser timers: [setInterval] repeats, [setTimeout] fires once. *)
Inductive TimerKind := Repeating | OneShot.

Record Timer := {
  t_kind : TimerKind;
  t_callback : Callback;
  t_delay : Z
}.

(** An [await onTick()] that has not settled yet, and the function that
    is suspended on it. *)
Inductive Awaiting :=
  | InWrappedOnTick (reg : nat)
  | InDailyTimeout (reg : nat).

(** How the awaited action ends. *)
Inductive Outcome :=
  | Fulfilled
  | Rejected (error : Classify.JsError).

(** What the outside can observe of a run. *)
Inductive Obs :=
  | Invoked (action reg inv : nat)                  (* [onTick()] was called *)
  | Completed (reg inv : nat)                       (* the [try] body finished *)
  | Errored (reg inv : nat) (error : Classify.JsError)   (* the [catch] ran *)
  | OnErrorCalled (handler : nat) (error : Classify.JsError).

Record State := {
  jobs : gmap string CronJobWrapper;     (* [this.jobs] *)
  timers : gmap nat Timer;               (* the live browser timers *)
  nextTimer : nat;
  intervalScopes : gmap nat IntervalScope;
  dailyScopes : gmap nat DailyScope;
  nextReg : nat;
  pending : gmap nat Awaiting;
  nextInv : nat;
  now : Z;                               (* [Date.now()] *)
  trace : list Obs
}.

(** Timer ids are positive, so that [if (wrapper.intervalId)] holds for
    every id. *)
Definition init : State :=
  {| jobs := ∅; timers := ∅; nextTimer := 1;
     intervalScopes := ∅; dailyScopes := ∅; nextReg := 0;
     pending := ∅; nextInv := 0; now := 0; trace := [] |}.

Definition with_jobs (f : gmap string CronJobWrapper -> gmap string CronJobWrapper)
    (s : State) : State :=
  {| jobs := f (jobs s); timers := timers s; nextTimer := nextTimer s;
     intervalScopes := intervalScopes s; dailyScopes := dailyScopes s;
     nextReg := nextReg s; pending := pending s; nextInv := nextInv s;
     now := now s; trace := trace s |}.

Definition with_timers (f : gmap nat Timer -> gmap nat Timer) (s : State) : State :=
  {| jobs := jobs s; timers := f (timers s); nextTimer := nextTimer s;
     intervalScopes := intervalScopes s; dailyScopes := dailyScopes s;
     nextReg := nextReg s; pending := pending s; nextInv := nextInv s;
     now := now s; trace := trace s |}.

Definition with_now (t : Z) (s : State) : State :=
  {| jobs := jobs s; timers := timers s; nextTimer := nextTimer s;
     intervalScopes := intervalScopes s; dailyScopes := dailyScopes s;
     nextReg := nextReg s; pending := pending s; nextInv := nextInv s;
     now := t; trace := trace s |}.

Definition observe (o : list Obs) (s : State) : State :=
  {| jobs := jobs s; timers := timers s; nextTimer := nextTimer s;
     intervalScopes := intervalScopes s; dailyScopes := dailyScopes s;
     nextReg := nextReg s; pending := pending s; nextInv := nextInv s;
     now := now s; trace := trace s ++ o |}.

(** [setInterval(cb, delay)] / [setTimeout(cb, delay)]: a fresh id. *)
Definition setTimer (k : TimerKind) (cb : Callback) (delay : Z) (s : State)
    : nat * State :=
  (nextTimer s,
   {| jobs := jobs s;
      timers := <[nextTimer s := {| t_kind := k; t_callback := cb; t_delay := delay |}]> (timers s);
      nextTimer := S (nextTimer s);
      intervalScopes := intervalScopes s; dailyScopes := dailyScopes s;
      nextReg := nextReg s; pending := pending s; nextInv := nextInv s;
      now := now s; trace := trace s |}).

(** [clearInterval(id); clearTimeout(id)]: both act on the one id space. *)
Definition clearTimer (id : nat) (s : State) : State :=
  with_timers (delete id) s.

(** Suspend on [await onTick()]: the action has been called. *)
Definition await (a : Awaiting) (action reg : nat) (s : State) : State :=
  {| jobs := jobs s; timers := timers s; nextTimer := nextTimer s;
     intervalScopes := intervalScopes s; dailyScopes := dailyScopes s;
     nextReg := nextReg s;
     pending := <[nextInv s := a]> (pending s);
     nextInv := S (nextInv s);
     now := now s;
     trace := trace s ++ [Invoked action reg (nextInv s)] |}.

Definition resume (inv : nat) (s : State) : State :=
  {| jobs := jobs s; timers := timers s; nextTimer := nextTimer s;
     intervalScopes := intervalScopes s; dailyScopes := dailyScopes s;
     nextReg := nextReg s; pending := delete inv (pending s); nextInv := nextInv s;
     now := now s; trace := trace s |}.

Definition with_intervalScope (reg : nat) (c : IntervalScope) (s : State) : State :=
  {| jobs := jobs s; timers := timers s; nextTimer := nextTimer s;
     intervalScopes := <[reg := c]> (intervalScopes s); dailyScopes := dailyScopes s;
     nextReg := nextReg s; pending := pending s; nextInv := nextInv s;
     now := now s; trace := trace s |}.

(** A new lexical scope for a registration call. *)
Definition enterInterval (c : IntervalScope) (s : State) : nat * State :=
  (nextReg s,
   {| jobs := jobs s; timers := timers s; nextTimer := nextTimer s;
      intervalScopes := <[nextReg s := c]> (intervalScopes s);
      dailyScopes := dailyScopes s;
      nextReg := S (nextReg s); pending := pending s; nextInv := nextInv s;
      now := now s; trace := trace s |}).

Definition enterDaily (d : DailyScope) (s : State) : nat * State :=
  (nextReg s,
   {| jobs := jobs s; timers := timers s; nextTimer := nextTimer s;
      intervalScopes := intervalScopes s;
      dailyScopes := <[nextReg s := d]> (dailyScopes s);
      nextReg := S (nextReg s); pending := pending s; nextInv := nextInv s;
      now := now s; trace := trace s |}).

(** *** Job control *)

(** [stopJob(name)] *)
Definition stopJob (name : string) (s : State) : State :=
  match jobs s !! name with
  | None => s                                    (* "not found" *)
  | Some wrapper =>
      if negb (isRunning wrapper) then s         (* "is not running" *)
      else
        let '(id', s1) :=
          match intervalId wrapper with
          | Some (S i) => (None, clearTimer (S i) s)
          | other => (other, s)
          end in
        with_jobs (insert name
          {| name := Cron.name wrapper; intervalId := id';
             interval := interval wrapper; runCount := runCount wrapper;
             lastRun := lastRun wrapper; nextRun := None; isRunning := false;
             onTick := onTick wrapper; options := options wrapper |}) s1
  end.

(** [startJob(name)] *)
Definition startJob (name : string) (s : State) : State :=
  match jobs s !! name with
  | None => s                                    (* "not found" *)
  | Some wrapper =>
      if isRunning wrapper then s                (* "is already running" *)
      else
        let '(id, s1) := setTimer Repeating (onTick wrapper) (interval wrapper) s in
        with_jobs (insert name
          {| name := Cron.name wrapper; intervalId := Some id;
             interval := interval wrapper; runCount := runCount wrapper;
             lastRun := lastRun wrapper;
             nextRun := Some (now s + interval wrapper); isRunning := true;
             onTick := onTick wrapper; options := options wrapper |}) s1
  end.

(** [removeJob(name)] *)
Definition removeJob (name : string) (s : State) : State :=
  match jobs s !! name with
  | None => s                                    (* "not found" *)
  | Some _ => with_jobs (delete name) (stopJob name s)
  end.

(** [stopAll()] / [removeAll()] *)
Definition stopAll (s : State) : State :=
  foldr stopJob s (map fst (map_to_list (jobs s))).

Definition removeAll (s : State) : State :=
  foldr removeJob s (map fst (map_to_list (jobs s))).

(** *** The closures of [addIntervalJob] *)

(** [maxRuns && runCount >= maxRuns]: an absent or zero [maxRuns] is falsy. *)
Definition reachedMaxRuns (maxRuns : option Z) (runCount : Z) : bool :=
  match maxRuns with
  | Some k => negb (k =? 0) && (k <=? runCount)
  | None => false
  end.

(** [wrappedOnTick], up to its [await onTick()]. *)
Definition wrappedOnTick (reg : nat) (s : State) : State :=
  match intervalScopes s !! reg with
  | None => s
  | Some scope =>
      if reachedMaxRuns (maxRuns (is_options scope)) (is_runCount scope)
      then stopJob (is_name scope) s
      else await (InWrappedOnTick reg) (is_onTick scope) reg s
  end.

(** [wrappedOnTick], from the point where [await onTick()] settles. *)
Definition wrappedOnTick_resume (reg inv : nat) (o : Outcome) (s : State) : State :=
  match intervalScopes s !! reg with
  | None => s
  | Some scope =>
      match o with
      | Fulfilled =>
          let runCount' := is_runCount scope + 1 in        (* [runCount++] *)
          let s1 := with_intervalScope reg
                      {| is_name := is_name scope; is_interval := is_interval scope;
                         is_onTick := is_onTick scope; is_options := is_options scope;
                         is_runCount := runCount' |} s in
          let s2 :=
            match jobs s1 !! is_name scope with
            | Some job =>
                with_jobs (insert (is_name scope)
                  {| name := name job; intervalId := intervalId job;
                     interval := interval job; runCount := runCount';
                     lastRun := Some (now s1);
                     nextRun := Some (now s1 + is_interval scope);
                     isRunning := isRunning job;
                     onTick := onTick job; options := options job |}) s1
            | None => s1
            end in
          observe [Completed reg inv] s2
      | Rejected error =>
          observe (Errored reg inv error ::
                   match onError (is_options scope) with
                   | Some handler => [OnErrorCalled handler error]
                   | None => []
                   end) s
      end
  end.

(** *** The closures of [addDailyJob] *)

(** [scheduleNext] *)
Definition scheduleNext (reg : nat) (s : State) : State :=
  match dailyScopes s !! reg with
  | None => s
  | Some scope =>
      let nextRun' := getNextRun (now s) (ds_hour scope) (ds_minute scope) in
      let delay := nextRun' - now s in
      match jobs s !! ds_name scope with
      | Some wrapper =>
          let '(id, s1) := setTimer OneShot (DailyTimeout reg) delay s in
          with_jobs (insert (ds_name scope)
            {| name := name wrapper; intervalId := Some id;
               interval := interval wrapper; runCount := runCount wrapper;
               lastRun := lastRun wrapper; nextRun := Some nextRun';
               isRunning := true;
               onTick := onTick wrapper; options := options wrapper |}) s1
      | None => s
      end
  end.

(** The timeout callback, up to its [await onTick()]. *)
Definition dailyTimeout (reg : nat) (s : State) : State :=
  match dailyScopes s !! reg with
  | None => s
  | Some scope => await (InDailyTimeout reg) (ds_onTick scope) reg s
  end.

(** The timeout callback after the [await]: it has no [try]; a rejection
    ends the [async] function there and nothing is rescheduled. *)
Definition dailyTimeout_resume (reg : nat) (o : Outcome) (s : State) : State :=
  match dailyScopes s !! reg with
  | None => s
  | Some scope =>
      match o with
      | Fulfilled =>
          let s1 :=
            match jobs s !! ds_name scope with
            | Some job =>
                with_jobs (insert (ds_name scope)
                  {| name := name job; intervalId := intervalId job;
                     interval := interval job; runCount := runCount job + 1;
                     lastRun := Some (now s); nextRun := nextRun job;
                     isRunning := isRunning job;
                     onTick := onTick job; options := options job |}) s
            | None => s
            end in
          scheduleNext reg s1
      | Rejected _ => s
      end
  end.

(** *** Registration *)

(** [options?.autoStart !== false] *)
Definition autoStarts (o : CronJobOptions) : bool :=
  match autoStart o with
  | Some false => false
  | _ => true
  end.

(** [addIntervalJob(name, interval, onTick, options)] *)
Definition addIntervalJob (name : string) (interval : Z) (onTick : nat)
    (options : CronJobOptions) (s : State) : State :=
  let s1 := match jobs s !! name with
            | Some _ => removeJob name s     (* "already exists. Removing old job." *)
            | None => s
            end in
  let '(reg, s2) :=
    enterInterval {| is_name := name; is_interval := interval; is_onTick := onTick;
                     is_options := options; is_runCount := 0 |} s1 in
  let wrapper :=
    {| name := name; intervalId := None; interval := interval; runCount := 0;
       lastRun := None; nextRun := None; isRunning := false;
       onTick := WrappedOnTick reg; options := options |} in
  let s3 := with_jobs (insert name wrapper) s2 in
  let s4 := match runOnInit options with
            | Some true => wrappedOnTick reg s3
            | _ => s3
            end in
  if autoStarts options then startJob name s4 else s4.

(** [addDailyJob(name, hour, minute, onTick, options)] *)
Definition addDailyJob (name : string) (hour minute : Z) (onTick : nat)
    (options : CronJobOptions) (s : State) : State :=
  let '(reg, s1) :=
    enterDaily {| ds_name := name; ds_hour := hour; ds_minute := minute;
                  ds_onTick := onTick |} s in
  let wrapper :=
    {| name := name; intervalId := None; interval := 24 * 60 * 60 * 1000;
       runCount := 0; lastRun := None;
       nextRun := Some (getNextRun (now s1) hour minute);
       isRunning := false;
       onTick := ScheduleNext reg; options := options |} in
  let s2 := with_jobs (insert name wrapper) s1 in
  if autoStarts options then scheduleNext reg s2 else s2.

(** A JavaScript number is an IEEE-754 double.  An integer of magnitude
    below 2^53 is one; [toDouble] rounds a larger integer to the nearest
    double, that is to 53 significant bits, a tie going to the even one.
    (Magnitudes of 2^1024 and more are [Infinity] in the source and are
    not covered.) *)
Definition toDouble (z : Z) : Z :=
  let a := Z.abs z in
  if a <? 2 ^ 53 then z
  else
    let e := Z.log2 a - 52 in
    let q := Z.shiftr a e in
    let r := a - Z.shiftl q e in
    let half := Z.shiftl 1 (e - 1) in
    let q' := if (half <? r) || ((r =? half) && Z.odd q) then q + 1 else q in
    Z.sgn z * Z.shiftl q' e.

(** [a * b] on two integer-valued numbers: the exact product, rounded. *)
Definition mul (a b : Z) : Z := toDouble (a * b).

(** [addSecondsJob] / [addMinutesJob] / [addHoursJob]: [seconds * 1000],
    [minutes * 60 * 1000] and [hours * 60 * 60 * 1000], each product
    taken from the left.  The interval is recorded and handed to
    [setInterval] as computed; when a timer fires is an event of the
    schedule, so what the browser makes of a delay above 2^31 - 1 is left
    open. *)
Definition addSecondsJob (name : string) (seconds : Z) (onTick : nat)
    (options : CronJobOptions) : State -> State :=
  addIntervalJob name (mul seconds 1000) onTick options.



(** *** Introspection *)

Definition getJob (name : string) (s : State) : option CronJobInfo :=
  match jobs s !! name with
  | None => None
  | Some wrapper =>
      Some {| info_name := Cron.name wrapper; info_interval := interval wrapper;
              info_isRunning := isRunning wrapper; info_runCount := runCount wrapper;
              info_lastRun := lastRun wrapper; info_nextRun := nextRun wrapper |}
  end.

Definition getRunningJobsCount (s : State) : nat :=
  List.length (filter (fun kv => isRunning (snd kv) = true) (map_to_list (jobs s))).

(** [wrapper?.nextRun || null] *)
Definition getNextRunTime (name : string) (s : State) : option Z :=
  match jobs s !! name with
  | Some wrapper => nextRun wrapper
  | None => None
  end.

(** *** The event loop *)

(** The browser runs a timer's callback; a [setTimeout] timer is spent. *)
Definition runCallback (cb : Callback) (s : State) : State :=
  match cb with
  | WrappedOnTick reg => wrappedOnTick reg s
  | ScheduleNext reg => scheduleNext reg s
  | DailyTimeout reg => dailyTimeout reg s
  end.

Definition fire (id : nat) (s : State) : State :=
  match timers s !! id with
  | None => s                                    (* cleared: never fires *)
  | Some t =>
      runCallback (t_callback t)
        (match t_kind t with
         | OneShot => clearTimer id s
         | Repeating => s
         end)
  end.

(** The awaited action of invocation [inv] settles. *)
Definition settle (inv : nat) (o : Outcome) (s : State) : State :=
  match pending s !! inv with
  | None => s
  | Some (InWrappedOnTick reg) => wrappedOnTick_resume reg inv o (resume inv s)
  | Some (InDailyTimeout reg) => dailyTimeout_resume reg o (resume inv s)
  end.

Inductive Event :=
  | Call_addIntervalJob (name : string) (interval : Z) (onTick : nat)
      (options : CronJobOptions)
  | Call_addDailyJob (name : string) (hour minute : Z) (onTick : nat)
      (options : CronJobOptions)
  | Call_startJob (name : string)
  | Call_stopJob (name : string)
  | Call_removeJob (name : string)
  | Call_stopAll
  | Call_removeAll
  | TimerFires (id : nat)
  | Settles (inv : nat) (o : Outcome)
  | ClockShows (t : Z).

Definition step (s : State) (e : Event) : State :=
  match e with
  | Call_addIntervalJob n i a o => addIntervalJob n i a o s
  | Call_addDailyJob n h m a o => addDailyJob n h m a o s
  | Call_startJob n => startJob n s
  | Call_stopJob n => stopJob n s
  | Call_removeJob n => removeJob n s
  | Call_stopAll => stopAll s
  | Call_removeAll => removeAll s
  | TimerFires id => fire id s
  | Settles inv o => settle inv o s
  | ClockShows t => with_now t s
  end.

Definition run (events : list Event) (s : State) : State :=
  fold_left step events s.

(** *** Notions used to state the scheduler's properties *)

(** The invariant of the data model: a job that is not running has no
    next run. *)
Definition stoppedHasNoNextRun (s : State) : Prop :=
  forall name wrapper,
    jobs s !! name = Some wrapper -> isRunning wrapper = false -> nextRun wrapper = None.

(** A daily job is registered with [autoStart: false]. *)
Definition registersStoppedDaily (e : Event) : bool :=
  match e with
  | Call_addDailyJob _ _ _ _ options => negb (autoStarts options)
  | _ => false
  end.

(** An invocation of an interval job's action is fulfilled while the job
    registered under its name is not running. *)
Definition completesAfterStop (e : Event) (s : State) : bool :=
  match e with
  | Settles inv Fulfilled =>
      match pending s !! inv with
      | Some (InWrappedOnTick reg) =>
          match intervalScopes s !! reg with
          | Some scope =>
              match jobs s !! is_name scope with
              | Some job => negb (isRunning job)
              | None => false
              end
          | None => false
          end
      | _ => false
      end
  | _ => false
  end.

(** Calls of the action made by the closures of registration [reg]. *)
Definition isInvocationOf (reg : nat) (o : Obs) : bool :=
  match o with
  | Invoked _ reg' _ => Nat.eqb reg' reg
  | _ => false
  end.

Definition invocations (reg : nat) (tr : list Obs) : nat :=
  List.length (List.filter (isInvocationOf reg) tr).

(** Invocations of registration [reg] that succeeded. *)
Definition isCompletionOf (reg : nat) (o : Obs) : bool :=
  match o with
  | Completed reg' _ => Nat.eqb reg' reg
  | _ => false
  end.

Definition completions (reg : nat) (tr : list Obs) : nat :=
  List.length (List.filter (isCompletionOf reg) tr).

(** Successful invocations of [reg] other than invocation [inv0]. *)
Definition isOtherCompletionOf (reg inv0 : nat) (o : Obs) : bool :=
  match o with
  | Completed reg' inv => Nat.eqb reg' reg && negb (Nat.eqb inv inv0)
  | _ => false
  end.

Definition otherCompletions (reg inv0 : nat) (tr : list Obs) : nat :=
  List.length (List.filter (isOtherCompletionOf reg inv0) tr).

(** The invocations of [reg] whose action has not settled yet. *)
Definition inFlight (reg : nat) (s : State) : list nat :=
  omap (fun kv => match snd kv with
                  | InWrappedOnTick reg' => if Nat.eqb reg' reg then Some (fst kv) else None
                  | _ => None
                  end) (map_to_list (pending s)).

(** At most one invocation of [reg] is in flight. *)
Definition overlapFree (reg : nat) (s : State) : bool :=
  Nat.leb (List.length (inFlight reg s)) 1.

(** Along the run of [events] from [s], invocations of [reg] never
    overlap: each has settled before the next one starts. *)
Fixpoint neverOverlaps (reg : nat) (events : list Event) (s : State) : bool :=
  match events with
  | [] => true
  | e :: events' =>
      overlapFree reg (step s e) && neverOverlaps reg events' (step s e)
  end.

(** No other registration call, interval or daily, was made for [name]. *)
Definition soleRegistration (name : string) (reg : nat) (s : State) : Prop :=
  (forall reg' scope, intervalScopes s !! reg' = Some scope ->
     is_name scope = name -> reg' = reg)
  /\ (forall reg' scope, dailyScopes s !! reg' = Some scope -> ds_name scope <> name).

(** *** The closures' part of the state

    Job control ([startJob], [stopJob], [removeJob], timers, the clock)
    never touches the variables captured by closures, the suspended
    invocations or the trace.  What an event does to that part is one of
    the moves below. *)

Definition core (s : State) :=
  (intervalScopes s, dailyScopes s, nextReg s, pending s, nextInv s, trace s).

Definition handlerCall (h : option nat) (error : Classify.JsError) : list Obs :=
  match h with
  | Some handler => [OnErrorCalled handler error]
  | None => []
  end.

Definition counted (scope : IntervalScope) : IntervalScope :=
  {| is_name := is_name scope; is_interval := is_interval scope;
     is_onTick := is_onTick scope; is_options := is_options scope;
     is_runCount := is_runCount scope + 1 |}.

(** Moves that settle nothing: scopes are entered, actions are called. *)
Inductive Quiet : State -> State -> Prop :=
  | Q_same s s' :
      core s' = core s -> Quiet s s'
  | Q_enterInterval s s' scope :
      is_runCount scope = 0 ->
      core s' = (<[nextReg s := scope]> (intervalScopes s), dailyScopes s,
                 S (nextReg s), pending s, nextInv s, trace s) ->
      Quiet s s'
  | Q_enterDaily s s' scope :
      core s' = (intervalScopes s, <[nextReg s := scope]> (dailyScopes s),
                 S (nextReg s), pending s, nextInv s, trace s) ->
      Quiet s s'
  | Q_invoke s s' reg scope :
      intervalScopes s !! reg = Some scope ->
      reachedMaxRuns (maxRuns (is_options scope)) (is_runCount scope) = false ->
      core s' = (intervalScopes s, dailyScopes s, nextReg s,
                 <[nextInv s := InWrappedOnTick reg]> (pending s), S (nextInv s),
                 (trace s ++ [Invoked (is_onTick scope) reg (nextInv s)])%list) ->
      Quiet s s'
  | Q_invokeDaily s s' reg scope :
      dailyScopes s !! reg = Some scope ->
      core s' = (intervalScopes s, dailyScopes s, nextReg s,
                 <[nextInv s := InDailyTimeout reg]> (pending s), S (nextInv s),
                 (trace s ++ [Invoked (ds_onTick scope) reg (nextInv s)])%list) ->
      Quiet s s'
  | Q_trans s s1 s2 :
      Quiet s s1 -> Quiet s1 s2 -> Quiet s s2.

(** Moves in which one awaited action settles. *)
Inductive Settled : State -> State -> Prop :=
  | S_complete s s' inv reg scope :
      pending s !! inv = Some (InWrappedOnTick reg) ->
      intervalScopes s !! reg = Some scope ->
      core s' = (<[reg := counted scope]> (intervalScopes s), dailyScopes s,
                 nextReg s, delete inv (pending s), nextInv s,
                 (trace s ++ [Completed reg inv])%list) ->
      Settled s s'
  | S_fail s s' inv reg scope error :
      pending s !! inv = Some (InWrappedOnTick reg) ->
      intervalScopes s !! reg = Some scope ->
      core s' = (intervalScopes s, dailyScopes s, nextReg s,
                 delete inv (pending s), nextInv s,
                 (trace s ++ Errored reg inv error ::
                    handlerCall (onError (is_options scope)) error)%list) ->
      Settled s s'
  | S_drop s s' inv :
      core s' = (intervalScopes s, dailyScopes s, nextReg s,
                 delete inv (pending s), nextInv s, trace s) ->
      Settled s s'.

(** Registration numbers in use are below the next one. *)
Definition scopesBelow (s : State) : Prop :=
  (forall reg scope, intervalScopes s !! reg = Some scope -> (reg < nextReg s)%nat)
  /\ (forall reg scope, dailyScopes s !! reg = Some scope -> (reg < nextReg s)%nat).

(** The [runCount] variable of registration [reg]. *)
Definition countOf (reg : nat) (s : State) : Z :=
  match intervalScopes s !! reg with
  | Some scope => is_runCount scope
  | None => 0
  end.

(** That variable counts the successful invocations. *)
Definition countsCompletions (reg : nat) (s : State) : Prop :=
  Z.of_nat (completions reg (trace s)) = countOf reg s.

(** With [maxRuns = k]: the count is at most [k], and below [k] while an
    invocation is in flight. *)
Definition belowCeiling (reg : nat) (k : Z) (s : State) : Prop :=
  forall scope,
    intervalScopes s !! reg = Some scope ->
    maxRuns (is_options scope) = Some k ->
    is_runCount scope <= k
    /\ ((exists inv, pending s !! inv = Some (InWrappedOnTick reg)) ->
        is_runCount scope < k).

Definition ceilingInvariant (reg : nat) (k : Z) (s : State) : Prop :=
  scopesBelow s /\ countsCompletions reg s /\ belowCeiling reg k s.

Definition uniqueInFlight (reg : nat) (s : State) : Prop :=
  forall i j,
    pending s !! i = Some (InWrappedOnTick reg) ->
    pending s !! j = Some (InWrappedOnTick reg) -> i = j.

(** Every job of [s'] was a job of [s], with the same [runCount]. *)
Definition runCountsKept (s s' : State) : Prop :=
  forall name w',
    jobs s' !! name = Some w' ->
    exists w, jobs s !! name = Some w /\ runCount w' = runCount w.

(** The job registered under [name] reports at most the count of [reg]. *)
Definition reportsAtMost (name : string) (reg : nat) (s : State) : Prop :=
  forall w, jobs s !! name = Some w -> runCount w <= countOf reg s.

End Cron.

(** ** The sync tick (app.component.ts, [checkSyncLog]) *)

Module Sync.
Import Classify.

(** storage/models: [ExceptionLog].  A [Date] is its time value; an
    invalid or missing date is [None]. *)
Record ExceptionLog := {
  id : string;
  message : string;
  serviceName : string;
  errorType : string;
  code : string;
  timestamp : option Z;
  parkingDoorNumber : string;
  isSynced : bool
}.

(** api-models: [ExceptionLogRequest]; the ISO string is kept as the
    instant it denotes. *)
Record ExceptionLogRequest := {
  req_id : string;
  req_message : string;
  req_serviceName : string;
  req_errorType : string;
  req_code : string;
  req_timestamp : Z;
  req_parkingDoorNumber : string;
  req_isSynced : bool
}.

(** [s || fallback] on strings: the empty string is falsy. *)
Definition orElse (s fallback : string) : string :=
  if String.eqb s "" then fallback else s.

(** The local helper [toISOString]: the current time replaces a missing
    or invalid timestamp. *)
Definition toISOString (timestamp : option Z) (now : Z) : Z :=
  match timestamp with
  | Some t => t
  | None => now
  end.

(** The [logRequest] literal of the loop body. *)
Definition logRequest (now : Z) (log : ExceptionLog) : ExceptionLogRequest :=
  {| req_id := id log;
     req_message := orElse (message log) "Unknown error";
     req_serviceName := orElse (serviceName log) "UnknownService";
     req_errorType := orElse (errorType log) "Error";
     req_code := orElse (code log) "UNKNOWN";
     req_timestamp := toISOString (timestamp log) now;
     req_parkingDoorNumber := orElse (parkingDoorNumber log) "N/A";
     req_isSynced := false |}.

(** *** The record store (RxDbExceptionLogRepository)

    The collection is the list of its documents; [id] is the primary key. *)

Definition hasId (i : string) (log : ExceptionLog) : bool := String.eqb (id log) i.

(** [findUnsynced]: selector [payload.is_sync = false]. *)
Definition findUnsynced (store : list ExceptionLog) : list ExceptionLog :=
  List.filter (fun log => negb (isSynced log)) store.

(** [findOne({ selector: { id } })] *)
Definition findOne (i : string) (store : list ExceptionLog) : option ExceptionLog :=
  List.find (hasId i) store.

(** [insert]: a document whose primary key is taken is refused. *)
Definition insert (doc : ExceptionLog) (store : list ExceptionLog)
    : option (list ExceptionLog) :=
  match findOne (id doc) store with
  | Some _ => None
  | None => Some (store ++ [doc])%list
  end.

(** [doc.remove()] *)
Definition remove (i : string) (store : list ExceptionLog) : list ExceptionLog :=
  List.filter (fun log => negb (hasId i log)) store.

(** *** The tick and its continuations *)

(** The predicate of [hasSimilarError], on the logs it has just read. *)
Definition similar (errorType code serviceName : string) (log : ExceptionLog) : bool :=
  String.eqb (Sync.errorType log) errorType
  && String.eqb (Sync.code log) code
  && String.eqb (Sync.serviceName log) serviceName.

Definition hasSimilarError (allLogs : list ExceptionLog)
    (errorType code serviceName : string) : bool :=
  existsb (similar errorType code serviceName) allLogs.

(** [`sync-error-${errorType.toLowerCase()}-${Date.now()}`] *)
Definition syncErrorId (errorType : string) (now : Z) : string :=
  ("sync-error-" ++ toLowerCase errorType ++ "-" ++ pretty now)%string.

(** The log that the [catchError] handler creates. *)
Definition syncErrorLog (log : ExceptionLog) (errorType errorCode errorMessage : string)
    (now : Z) : ExceptionLog :=
  {| id := syncErrorId errorType now;
     message := errorMessage;
     timestamp := Some now;
     isSynced := false;
     serviceName := "AppComponent";
     errorType := errorType;
     code := errorCode;
     parkingDoorNumber := orElse (parkingDoorNumber log) "N/A" |}.

(** Where the work started for one log of the loop stands.  Nothing in
    the loop is awaited, so the works of one tick, and of overlapping
    ticks, advance independently. *)
Inductive Task :=
  | Requested (log : ExceptionLog)
      (* [createExceptionLog(logRequest)] subscribed, no answer yet *)
  | Deleting (i : string)
      (* [tap]: [deleteExceptionLog(log.id)] awaits [findOne] *)
  | Removing (i : string)
      (* [delete]: the document was found, [doc.remove()] awaited *)
  | CheckingSimilar (log : ExceptionLog) (errorType errorCode errorMessage : string)
      (* [catchError]: [await hasSimilarError(...)] *)
  | Creating (doc : ExceptionLog)
      (* [catchError]: [await this.storageFacade.createExceptionLog(...)] *)
  | Finished.

Inductive Write :=
  | Inserted (doc : ExceptionLog)
  | Removed (i : string).

Record World := {
  store : list ExceptionLog;
  onLine : bool;                          (* [navigator.onLine] *)
  tasks : list Task;
  requests : list ExceptionLogRequest;    (* calls made to the remote API *)
  writes : list Write                     (* mutations made to the store *)
}.

Definition with_task (i : nat) (t : Task) (w : World) : World :=
  {| store := store w; onLine := onLine w; tasks := <[i := t]> (tasks w);
     requests := requests w; writes := writes w |}.

Definition with_store (st : list ExceptionLog) (wr : Write) (w : World) : World :=
  {| store := st; onLine := onLine w; tasks := tasks w;
     requests := requests w; writes := writes w ++ [wr] |}.

(** [checkSyncLog()], with the logs read at its first [await]; one
    request is sent, and one work started, per log read. *)
Definition checkSyncLog (now : Z) (w : World) : World :=
  let logUnSynced := findUnsynced (store w) in
  match logUnSynced with
  | [] => w                               (* [if (logUnSynced.length === 0) return] *)
  | _ =>
      {| store := store w; onLine := onLine w;
         tasks := tasks w ++ map Requested logUnSynced;
         requests := requests w ++ map (logRequest now) logUnSynced;
         writes := writes w |}
  end.

(** The job registered by [ngOnInit]: it calls [checkSyncLog()] without
    awaiting or returning its promise, so the job's action returns. *)
Definition checkSyncLogJob (now : Z) (w : World) : Cron.Outcome * World :=
  (Cron.Fulfilled, checkSyncLog now w).

Definition ngOnInit (checkSyncLogAction : nat) : Cron.State -> Cron.State :=
  Cron.addSecondsJob "checkSyncLog" 30 checkSyncLogAction Cron.noOptions.

(** How the remote API answers a request. *)
Inductive Response :=
  | Accepted
  | Failed (error : JsError).

(** The observable of task [i] emits or errors: [tap] or [catchError]
    runs up to its first [await]. *)
Definition respond (i : nat) (r : Response) (w : World) : World :=
  match tasks w !! i with
  | Some (Requested log) =>
      match r with
      | Accepted => with_task i (Deleting (id log)) w
      | Failed error =>
          let errorType := getErrorType (onLine w) error in
          let errorCode := getErrorCode errorType in
          let errorMessage := getErrorMessage error errorType in
          with_task i (CheckingSimilar log errorType errorCode errorMessage) w
      end
  | _ => w
  end.

(** The promise task [i] awaits resolves; the task runs to its next
    [await] or to its end.  [now] is the clock at that moment. *)
Definition resume (i : nat) (now : Z) (w : World) : World :=
  match tasks w !! i with
  | Some (Deleting i') =>
      match findOne i' (store w) with
      | Some _ => with_task i (Removing i') w
      | None => with_task i Finished w                       (* [return false] *)
      end
  | Some (Removing i') =>
      with_task i Finished (with_store (remove i' (store w)) (Removed i') w)
  | Some (CheckingSimilar log errorType errorCode errorMessage) =>
      if hasSimilarError (findUnsynced (store w)) errorType errorCode "AppComponent"
      then with_task i Finished w                            (* [return of(null)] *)
      else with_task i (Creating (syncErrorLog log errorType errorCode errorMessage now)) w
  | Some (Creating doc) =>
      match insert doc (store w) with
      | Some store' => with_task i Finished (with_store store' (Inserted doc) w)
      | None => with_task i Finished w                       (* the insert rejects *)
      end
  | _ => w
  end.

Inductive Event :=
  | Tick (now : Z)                        (* the job calls [checkSyncLog()] *)
  | Responds (i : nat) (r : Response)
  | Resumes (i : nat) (now : Z)
  | Connectivity (b : bool).              (* the window's online / offline event *)

Definition step (w : World) (e : Event) : World :=
  match e with
  | Tick now => checkSyncLog now w
  | Responds i r => respond i r w
  | Resumes i now => resume i now w
  | Connectivity b =>
      {| store := store w; onLine := b; tasks := tasks w;
         requests := requests w; writes := writes w |}
  end.

Definition run (events : list Event) (w : World) : World :=
  fold_left step events w.

(** Every work started so far has run to its end. *)
Definition idle (w : World) : bool :=
  forallb (fun t => match t with Finished => true | _ => false end) (tasks w).

(** The number of stored logs carrying a given dedup triple. *)
Definition countSimilar (errorType code serviceName : string)
    (store : list ExceptionLog) : nat :=
  List.length (List.filter (similar errorType code serviceName) store).

(** [String.prototype.endsWith] *)
Fixpoint endsWith (s suffix : string) : bool :=
  String.eqb s suffix ||
  match s with
  | EmptyString => false
  | String _ s' => endsWith s' suffix
  end.

(** [i] is an id that the failure handler can generate at clock [now]. *)
Definition generatedAt (now : Z) (i : string) : bool :=
  String.prefix "sync-error-" i && endsWith i ("-" ++ pretty now).

(** The clock values read by the continuations of a schedule. *)
Definition clockReadings (events : list Event) : list Z :=
  omap (fun e => match e with Resumes _ now => Some now | _ => None end) events.

(** No continuation of the schedule can generate the id [i]. *)
Definition neverGenerated (i : string) (events : list Event) : bool :=
  forallb (fun now => negb (generatedAt now i)) (clockReadings events).

(** A task that is not about to insert a log with id [i]. *)
Definition harmless (i : string) (t : Task) : bool :=
  match t with
  | Creating doc => negb (hasId i doc)
  | _ => true
  end.

(** No pending work is about to insert a log with id [i]. *)
Definition notBeingCreated (i : string) (w : World) : bool :=
  forallb (harmless i) (tasks w).

(** A task that is deleting the log with id [i]. *)
Definition deletes (i : string) (t : Task) : Prop :=
  t = Deleting i \/ t = Removing i.

(** The invariants behind the deletion of a synced log [i]: no work is
    about to create [i], and while [i] is stored some work is deleting it. *)
Definition beingDeleted (i : string) (w : World) : Prop :=
  notBeingCreated i w = true
  /\ (findOne i (store w) <> None ->
      exists j, tasks w !! j = Some (Deleting i) \/ tasks w !! j = Some (Removing i)).

Definition gone (i : string) (w : World) : Prop :=
  notBeingCreated i w = true /\ findOne i (store w) = None.

(** A log that was stored is still stored, or its removal was written. *)
Definition storedOrRemoved (i : string) (w : World) : Prop :=
  findOne i (store w) <> None \/ In (Removed i) (writes w).

(** Nothing is left to sync and nothing is in progress. *)
Definition quiescent (w : World) : Prop :=
  idle w = true /\ findUnsynced (store w) = [].

End Sync.

(** ** Concrete inputs used in examples *)

Module Examples.
Import Classify Cron.

Definition everyMinute : CronJobOptions :=
  {| autoStart := Some true; runOnInit := None; maxRuns := None; onError := None |}.

(** [{ onError: handler }], the handler being function number 5. *)
Definition reportingErrors : CronJobOptions :=
  {| autoStart := None; runOnInit := None; maxRuns := None; onError := Some 5%nat |}.

Definition timedOut : JsError := {| err_message := Some "Request timeout" |}.

Definition failedToFetch : JsError := {| err_message := Some "Failed to fetch" |}.

(** [{ maxRuns: k }] *)
Definition atMost (k : Z) : CronJobOptions :=
  {| autoStart := None; runOnInit := None; maxRuns := Some k; onError := None |}.

(** [{ runOnInit: true, maxRuns: k }] *)
Definition atOnceAtMost (k : Z) : CronJobOptions :=
  {| autoStart := None; runOnInit := Some true; maxRuns := Some k; onError := None |}.

(** Scenario C of the specification: three ticks, each action fulfilled
    before the next tick.  The action is function number 7. *)
Definition heartbeat : list Event :=
  [ Call_addIntervalJob "heartbeat" 1000 7%nat (atMost 3);
    ClockShows 1000; TimerFires 1; Settles 0 Fulfilled;
    ClockShows 2000; TimerFires 1; Settles 1 Fulfilled;
    ClockShows 3000; TimerFires 1; Settles 2 Fulfilled ].

(** A job limited to one run whose action fails at the first tick and
    succeeds at the second; the third tick finds the ceiling reached. *)
Definition failingOnce : list Event :=
  [ Call_addIntervalJob "job" 1000 7%nat (atMost 1);
    ClockShows 1000; TimerFires 1; Settles 0 (Rejected timedOut);
    ClockShows 2000; TimerFires 1; Settles 1 Fulfilled;
    ClockShows 3000; TimerFires 1 ].

(** A job limited to one run and run at once, whose first action takes
    longer than the period: the first periodic tick comes while the
    initial invocation is in flight, both invocations succeed, and the
    second periodic tick finds the ceiling passed. *)
Definition slowStart : list Event :=
  [ Call_addIntervalJob "job" 1000 7%nat (atOnceAtMost 1);
    ClockShows 1000; TimerFires 1;
    ClockShows 1700; Settles 0 Fulfilled;
    ClockShows 1900; Settles 1 Fulfilled;
    ClockShows 2000; TimerFires 1 ].

(** A job limited to two runs and run at once, with a fast action: the
    run at once, one periodic run, then the ceiling. *)
Definition quickStart : list Event :=
  [ Call_addIntervalJob "job" 1000 7%nat (atOnceAtMost 2);
    ClockShows 10; Settles 0 Fulfilled;
    ClockShows 1000; TimerFires 1;
    ClockShows 1010; Settles 1 Fulfilled;
    ClockShows 2000; TimerFires 1 ].

(** A job that is stopped while an invocation of its action is in
    flight; the action succeeds afterwards. *)
Definition lateCompletion : list Event :=
  [ Call_addIntervalJob "job" 1000 7%nat noOptions;
    ClockShows 1000; TimerFires 1;
    ClockShows 1200; Call_stopJob "job";
    ClockShows 1500; Settles 0 Fulfilled ].

(** An exception log written by the camera service, not yet synced. *)
Definition cameraLog (i : string) : Sync.ExceptionLog :=
  {| Sync.id := i; Sync.message := "Camera not available";
     Sync.serviceName := "CameraService"; Sync.errorType := "CameraError";
     Sync.code := "CAM_001"; Sync.timestamp := Some 500;
     Sync.parkingDoorNumber := "12"; Sync.isSynced := false |}.

Definition world (logs : list Sync.ExceptionLog) (connected : bool) : Sync.World :=
  {| Sync.store := logs; Sync.onLine := connected; Sync.tasks := [];
     Sync.requests := []; Sync.writes := [] |}.

(** One tick while offline: the request fails, the handler runs. *)
Definition outage : list Sync.Event :=
  [ Sync.Tick 1000; Sync.Responds 0 (Sync.Failed failedToFetch);
    Sync.Resumes 0 1001; Sync.Resumes 0 1002 ].

(** One tick over two logs, both requests failing: the two handlers read
    the unsynced logs before either of them inserts. *)
Definition racing : list Sync.Event :=
  [ Sync.Tick 1000;
    Sync.Responds 0 (Sync.Failed failedToFetch);
    Sync.Responds 1 (Sync.Failed failedToFetch);
    Sync.Resumes 0 1001; Sync.Resumes 1 1002;
    Sync.Resumes 0 1003; Sync.Resumes 1 1004 ].

(** The same tick with the second failure handled after the first
    handler has finished. *)
Definition oneByOne : list Sync.Event :=
  [ Sync.Tick 1000;
    Sync.Responds 0 (Sync.Failed failedToFetch);
    Sync.Resumes 0 1001; Sync.Resumes 0 1002;
    Sync.Responds 1 (Sync.Failed failedToFetch);
    Sync.Resumes 1 1003 ].

(** After the request of task 0 is accepted: its deletion runs. *)
Definition deletion : list Sync.Event :=
  [ Sync.Resumes 0 1001; Sync.Resumes 0 1002 ].

(** Two later ticks, the first with a failing request. *)
Definition laterTicks : list Sync.Event :=
  [ Sync.Tick 31000; Sync.Responds 1 (Sync.Failed timedOut);
    Sync.Resumes 1 31001; Sync.Resumes 1 31002; Sync.Tick 61000 ].

End Examples.

(** ** More of the scheduler: introspection and timer bookkeeping *)

Module CronMore.
Import Cron.

(** [getAllJobs()]: [getJob] over the keys, undefined results dropped.
    The source lists the jobs in the order of their registration, the
    model in the order of its map; only order-free facts are stated. *)
Definition getAllJobs (s : State) : list CronJobInfo :=
  omap (fun name => getJob name s) (map fst (map_to_list (jobs s))).

(** [ngOnDestroy()]: [stopAll()]; the [destroy$] subject has no
    subscriber in the service. *)
Definition ngOnDestroy (s : State) : State := stopAll s.

(** What [stopJob] leaves of a running job. *)
Definition stopped (w : CronJobWrapper) : CronJobWrapper :=
  {| name := name w;
     intervalId := match intervalId w with Some (S _) => None | other => other end;
     interval := interval w; runCount := runCount w; lastRun := lastRun w;
     nextRun := None; isRunning := false; onTick := onTick w; options := options w |}.



(** Events of a scheduler that is used for interval jobs only. *)
Definition intervalOnly (e : Event) : bool :=
  match e with
  | Call_addDailyJob _ _ _ _ _ => false
  | _ => true
  end.

(** The part of a job record that ties it to a timer. *)
Definition control (w : CronJobWrapper) : option nat * bool :=
  (intervalId w, isRunning w).

(** Timer bookkeeping: every live timer is a repeating one held by a
    running job, every running job holds a live timer, a job that is not
    running holds none, and no two jobs hold the same timer. *)
Definition bookkeeping (held : gmap string (option nat * bool))
    (live : gmap nat Timer) (next : nat) : Prop :=
  (0 < next)%nat
  /\ (forall id t, live !! id = Some t ->
        (0 < id < next)%nat /\ t_kind t = Repeating
        /\ exists n, held !! n = Some (Some id, true))
  /\ (forall n c, held !! n = Some c ->
        c = (None, false) \/ exists id, c = (Some id, true) /\ is_Some (live !! id))
  /\ (forall n1 n2 id r1 r2,
        held !! n1 = Some (Some id, r1) -> held !! n2 = Some (Some id, r2) -> n1 = n2).

Definition timerHygiene (s : State) : Prop :=
  bookkeeping (control <$> jobs s) (timers s) (nextTimer s)
  /\ dailyScopes s = ∅.

(** Events of the event loop only: no call of the service's API. *)
Definition passive (e : Event) : bool :=
  match e with
  | TimerFires _ | Settles _ _ | ClockShows _ => true
  | _ => false
  end.

(** How often timer [id] fires in a schedule. *)
Definition firesOf (id : nat) (events : list Event) : nat :=
  List.length (List.filter (fun e => match e with
                                     | TimerFires id' => Nat.eqb id' id
                                     | _ => false
                                     end) events).

(** [maxRuns] is absent or zero: the test [maxRuns && ...] never holds. *)
Definition unlimited (o : CronJobOptions) : bool :=
  match maxRuns o with
  | None => true
  | Some k => k =? 0
  end.

(** [runOnInit] is set. *)
Definition runsOnInit (o : CronJobOptions) : bool :=
  match runOnInit o with
  | Some true => true
  | _ => false
  end.

(** The only job of the scheduler is the unlimited interval job [name],
    running on timer 1 with the closures of registration 0. *)
Definition soleUnlimited (name : string) (interval : Z) (options : CronJobOptions)
    (s : State) : Prop :=
  (exists w, jobs s !! name = Some w /\ isRunning w = true)
  /\ timers s = {[ 1%nat := {| t_kind := Repeating; t_callback := WrappedOnTick 0;
                               t_delay := interval |} ]}
  /\ (exists scope, intervalScopes s = {[ 0%nat := scope ]}
                    /\ is_name scope = name /\ is_options scope = options)
  /\ dailyScopes s = ∅.

(** A daily job for 09:00 registered at 08:00, with its scope and its
    record. *)
Definition reportAt9 : State :=
  addDailyJob "report" 9 0 7%nat Examples.reportingErrors
    (with_now (dateAt 19000 8 0) init).

Definition reportScope : DailyScope :=
  {| ds_name := "report"; ds_hour := 9; ds_minute := 0; ds_onTick := 7%nat |}.

Definition reportJob : CronJobWrapper :=
  {| name := "report"; intervalId := Some 1%nat; interval := 24 * 60 * 60 * 1000;
     runCount := 0; lastRun := None; nextRun := Some (dateAt 19000 9 0);
     isRunning := true; onTick := ScheduleNext 0;
     options := Examples.reportingErrors |}.

End CronMore.

(** ** More of the sync tick: where its effects come from *)

Module SyncMore.
Import Classify Sync.

(** The log that the [catchError] handler of [checkSyncLog] builds for
    the request of [log] failing with [error], the handler being entered
    with [navigator.onLine = onLine] and reading the clock at [now]. *)
Definition diagnosticOf (log : ExceptionLog) (onLine : bool) (error : JsError)
    (now : Z) : ExceptionLog :=
  let errorType := getErrorType onLine error in
  syncErrorLog log errorType (getErrorCode errorType)
    (getErrorMessage error errorType) now.

(** No work of the world is inside a [tap] or [catchError] handler. *)
Definition noHandlers (w : World) : bool :=
  forallb (fun t => match t with Requested _ | Finished => true | _ => false end)
    (tasks w).

(** During [events], the remote API accepted the request sent for the
    log with id [i]. *)
Definition acceptedBefore (i : string) (events : list Event) (w : World) : Prop :=
  exists pre j log post,
    events = (pre ++ Responds j Accepted :: post)%list
    /\ tasks (run pre w) !! j = Some (Requested log)
    /\ id log = i.

(** During [events], the request sent for some log failed, and [P] holds
    of the log, the connectivity at the failure, the error and the events
    that followed. *)
Definition failedBefore (events : list Event) (w : World)
    (P : ExceptionLog -> bool -> JsError -> list Event -> Prop) : Prop :=
  exists pre j error log post,
    events = (pre ++ Responds j (Failed error) :: post)%list
    /\ tasks (run pre w) !! j = Some (Requested log)
    /\ P log (onLine (run pre w)) error post.

(** [doc] is the diagnostic of a request that failed during [events]. *)
Definition diagnosed (doc : ExceptionLog) (events : list Event) (w : World) : Prop :=
  failedBefore events w (fun log onLine error post =>
    exists now, In now (clockReadings post) /\ doc = diagnosticOf log onLine error now).

(** What put a work where it stands. *)
Definition causedTask (events : list Event) (w : World) (t : Task) : Prop :=
  match t with
  | Requested _ | Finished => True
  | Deleting i | Removing i => acceptedBefore i events w
  | CheckingSimilar log errorType errorCode errorMessage =>
      failedBefore events w (fun log' onLine error _ =>
        log' = log /\ errorType = getErrorType onLine error
        /\ errorCode = getErrorCode errorType
        /\ errorMessage = getErrorMessage error errorType)
  | Creating doc => diagnosed doc events w
  end.

Definition causedWrite (events : list Event) (w : World) (wr : Write) : Prop :=
  In wr (writes w)
  \/ match wr with
     | Removed i => acceptedBefore i events w
     | Inserted doc => diagnosed doc events w
     end.

(** The invariant: every work in a handler, every stored log that was
    not there at the start, every log that is missing and every write
    has its cause among the responses. *)
Definition caused (events : list Event) (w w' : World) : Prop :=
  Forall (causedTask events w) (tasks w')
  /\ Forall (fun doc => In doc (store w) \/ diagnosed doc events w) (store w')
  /\ (forall i, findOne i (store w) <> None ->
        findOne i (store w') <> None \/ acceptedBefore i events w)
  /\ Forall (causedWrite events w) (writes w').

(** A row of the error taxonomy written by the sync itself. *)
Definition taxonomyRow (doc : ExceptionLog) : Prop :=
  serviceName doc = "AppComponent" /\ isSynced doc = false
  /\ (exists k, errorType doc = kindName k /\ code doc = kindCode k)
  /\ timestamp doc <> None
  /\ (exists now, id doc = syncErrorId (errorType doc) now).

(** The request [r] was sent by a tick of [events] for a log that was
    unsynced in the store when the tick read it. *)
Definition sentAtTick (r : ExceptionLogRequest) (events : list Event) (w : World) : Prop :=
  exists pre now post log,
    events = (pre ++ Tick now :: post)%list
    /\ In log (findUnsynced (store (run pre w)))
    /\ r = logRequest now log.

(** A request with no empty text field, flagged as not synced. *)
Definition complete (r : ExceptionLogRequest) : Prop :=
  req_message r <> "" /\ req_serviceName r <> "" /\ req_errorType r <> ""
  /\ req_code r <> "" /\ req_parkingDoorNumber r <> "" /\ req_isSynced r = false.

(** A work that is about to insert an unsynced log with the dedup triple
    ([errorType], [code], [AppComponent]). *)
Definition pendingSimilar (errorType code : string) (t : Task) : bool :=
  match t with
  | Creating doc => similar errorType code "AppComponent" doc && negb (isSynced doc)
  | _ => false
  end.

(** The event lets a failure handler read the unsynced logs while
    another work is about to insert a log with the triple it looks for. *)
Definition checksDuringCreation (e : Event) (w : World) : bool :=
  match e with
  | Resumes i _ =>
      match tasks w !! i with
      | Some (CheckingSimilar _ errorType code _) =>
          existsb (pendingSimilar errorType code) (tasks w)
      | _ => false
      end
  | _ => false
  end.

(** A schedule in which no handler checks during such a creation. *)
Fixpoint raceFree (events : list Event) (w : World) : bool :=
  match events with
  | [] => true
  | e :: rest => negb (checksDuringCreation e w) && raceFree rest (step w e)
  end.

(** Unsynced logs stored with a triple, plus those about to be inserted. *)
Definition similarCount (errorType code : string) (w : World) : nat :=
  (countSimilar errorType code "AppComponent" (findUnsynced (store w))
   + List.length (List.filter (pendingSimilar errorType code) (tasks w)))%nat.

(** One tick over one camera log whose request is accepted. *)
Definition accepted : list Event :=
  [ Tick 1000; Responds 0 Accepted; Resumes 0 1001; Resumes 0 1002 ].

End SyncMore.

(** ** The HTTP client's errors (FetchHttpClientService) *)

Module Http.
Import Classify.

(** [request]: the error thrown for a response that is not [ok],
    [new Error(`HTTP ${response.status}: ${response.statusText}`)]. *)
Definition httpError (status : Z) (statusText : string) : JsError :=
  {| err_message := Some ("HTTP " ++ pretty status ++ ": " ++ statusText) |}.

(** The status code whose digits are a signature of the kind. *)
Definition statusOf (k : ErrorKind) : option Z :=
  match k with
  | BadRequestError => Some 400
  | UnauthorizedError => Some 401
  | ForbiddenError => Some 403
  | NotFoundError => Some 404
  | ServerError => Some 500
  | _ => None
  end.

(** The kinds that [getErrorType] tries before [k]. *)
Definition earlier (k : ErrorKind) : list ErrorKind :=
  match k with
  | NetworkOfflineError => []
  | TimeoutError => [NetworkOfflineError]
  | BadRequestError => [NetworkOfflineError; TimeoutError]
  | UnauthorizedError => [NetworkOfflineError; TimeoutError; BadRequestError]
  | ForbiddenError =>
      [NetworkOfflineError; TimeoutError; BadRequestError; UnauthorizedError]
  | NotFoundError =>
      [NetworkOfflineError; TimeoutError; BadRequestError; UnauthorizedError;
       ForbiddenError]
  | ServerError =>
      [NetworkOfflineError; TimeoutError; BadRequestError; UnauthorizedError;
       ForbiddenError; NotFoundError]
  | SyncError => priority
  end.

(** [sub] starts inside [t]: it occurs in [t] at one of its characters. *)
Fixpoint occursIn (t sub : string) : bool :=
  match t with
  | EmptyString => false
  | String _ t' => String.prefix sub t || occursIn t' sub
  end.

(** What is left of [sub] once [t] has been read off its front. *)
Fixpoint strip (t sub : string) : option string :=
  match t, sub with
  | EmptyString, _ => Some sub
  | String a t', String b sub' => if Ascii.eqb a b then strip t' sub' else None
  | String _ _, EmptyString => None
  end.

(** The ends of [sub] that a text following [t] would have to start
    with for [sub] to begin in [t] and end in that text. *)
Fixpoint straddles (t sub : string) : list string :=
  match t with
  | EmptyString => []
  | String _ t' =>
      match strip t sub with
      | Some r => r :: straddles t' sub
      | None => straddles t' sub
      end
  end.

End Http.

(** ** The database service (RxDbService) *)

Module Database.

(** The fields [rxdb] and [initPromise]; a database, and the promise of
    its creation, are named by the number of the [createDatabase] call
    that made them. *)
Record Service := {
  rxdb : option nat;
  initPromise : option nat
}.

(** Where a call of [createDatabase] or [destroy] stands: the [await] it
    is suspended at, or how it ended. *)
Inductive Work :=
  | CreatingDatabase (c : nat)
      (* [createDatabase]: [await createRxDatabase(...)] *)
  | AddingCollections (c : nat)
      (* [createDatabase]: [await db.addCollections(...)] *)
  | RemovingCollection (rest : list string)
      (* [destroy]: [await collections[name].remove()], the names to go *)
  | RemovingDatabase
      (* [destroy]: [await this.rxdb.remove()] *)
  | Returned
  | Threw.

Record State := {
  service : Service;
  works : list Work
}.

Definition start : State :=
  {| service := {| rxdb := None; initPromise := None |}; works := [] |}.

Definition with_work (i : nat) (k : Work) (s : State) : State :=
  {| service := service s; works := <[i := k]> (works s) |}.

(** [init()], up to its [await]: a pending or settled [initPromise] is
    returned, a live database is kept, otherwise [createDatabase()] is
    called and runs up to its first [await].  The library calls return
    promises: a failure arrives when the awaited promise settles. *)
Definition init (s : State) : State :=
  match initPromise (service s) with
  | Some _ => s
  | None =>
      match rxdb (service s) with
      | Some _ => s
      | None =>
          let c := List.length (works s) in
          {| service := {| rxdb := None; initPromise := Some c |};
             works := (works s ++ [CreatingDatabase c])%list |}
      end
  end.

(** [get database()]: [None] stands for the error
    'Database not initialized. Call init() first.' *)
Definition database (s : State) : option nat := rxdb (service s).

Definition isInitialized (s : State) : bool :=
  match rxdb (service s) with
  | Some _ => true
  | None => false
  end.

(** [destroy()], up to its first [await]; [names] is
    [Object.keys(this.rxdb.collections)]. *)
Definition destroy (names : list string) (s : State) : State :=
  match rxdb (service s) with
  | None => s
  | Some _ =>
      {| service := service s;
         works := (works s ++ [match names with
                               | _ :: rest => RemovingCollection rest
                               | [] => RemovingDatabase
                               end])%list |}
  end.

(** The [catch] of [createDatabase]. *)
Definition creationFailed (i : nat) (s : State) : State :=
  {| service := {| rxdb := rxdb (service s); initPromise := None |};
     works := <[i := Threw]> (works s) |}.

(** The promise that work [i] awaits settles: fulfilled when [ok], and
    the work runs to its next [await] or to its end.  In [destroy],
    reading [this.rxdb.collections] or [this.rxdb.remove] of a database
    that is gone throws. *)
Definition settle (i : nat) (ok : bool) (s : State) : State :=
  match works s !! i with
  | Some (CreatingDatabase c) =>
      if ok then with_work i (AddingCollections c) s else creationFailed i s
  | Some (AddingCollections c) =>
      if ok
      then {| service := {| rxdb := Some c; initPromise := initPromise (service s) |};
              works := <[i := Returned]> (works s) |}
      else creationFailed i s
  | Some (RemovingCollection rest) =>
      if ok
      then match rxdb (service s) with
           | None => with_work i Threw s
           | Some _ =>
               match rest with
               | _ :: rest' => with_work i (RemovingCollection rest') s
               | [] => with_work i RemovingDatabase s
               end
           end
      else with_work i Threw s
  | Some RemovingDatabase =>
      if ok
      then {| service := {| rxdb := None; initPromise := None |};
              works := <[i := Returned]> (works s) |}
      else with_work i Threw s
  | _ => s
  end.

Inductive Event :=
  | Call_init
  | Call_destroy (names : list string)
  | Settles (i : nat) (ok : bool).

Definition step (s : State) (e : Event) : State :=
  match e with
  | Call_init => init s
  | Call_destroy names => destroy names s
  | Settles i ok => settle i ok s
  end.

Definition run (events : list Event) (s : State) : State :=
  fold_left step events s.

(** Calls of [createDatabase] and of [destroy] that are under way. *)
Definition isCreating (k : Work) : bool :=
  match k with
  | CreatingDatabase _ | AddingCollections _ => true
  | _ => false
  end.

Definition isDestroying (k : Work) : bool :=
  match k with
  | RemovingCollection _ | RemovingDatabase => true
  | _ => false
  end.

Definition creating (s : State) : nat :=
  List.length (List.filter isCreating (works s)).

Definition destroying (s : State) : nat :=
  List.length (List.filter isDestroying (works s)).

(** [destroy()] is called while an earlier [destroy()] is under way. *)
Definition overlaps (e : Event) (s : State) : bool :=
  match e with
  | Call_destroy _ => existsb isDestroying (works s)
  | _ => false
  end.

Fixpoint orderly (events : list Event) (s : State) : bool :=
  match events with
  | [] => true
  | e :: rest => negb (overlaps e s) && orderly rest (step s e)
  end.

(** At most one call under way; a creation only without a database and
    with its promise kept, a destruction only of a live database. *)
Definition lifecycle (s : State) : Prop :=
  (creating s + destroying s <= 1)%nat
  /\ (creating s = 1%nat ->
      rxdb (service s) = None /\ initPromise (service s) <> None)
  /\ (destroying s = 1%nat -> rxdb (service s) <> None).

(** Two callers initialise at once, the creation fails at its second
    step, and a later caller initialises again. *)
Definition retried : list Event :=
  [ Call_init; Call_init; Settles 0 true; Settles 0 false; Call_init ].

End Database.

(** ** Theorems: classification *)

Section ClassifyFacts.
Import Classify.

Lemma getErrorCode_kindName (k : ErrorKind) :
  getErrorCode (kindName k) = kindCode k.
Proof. destruct k; reflexivity. Qed.

(** C7. The nested tests of [getErrorType] are the priority cascade of the
    taxonomy: offline state or a network signature first, then timeout,
    400, 401, 403, 404, 500, and [SyncError] when nothing matches; and
    [getErrorCode] maps the resulting kind to the code of the fixed table. *)
Theorem getErrorType_follows_taxonomy (onLine : bool) (error : JsError) :
  getErrorType onLine error = kindName (classify onLine error)
  /\ getErrorCode (getErrorType onLine error) = kindCode (classify onLine error)
  /\ (onLine = false -> classify onLine error = NetworkOfflineError)
  /\ (forall k, classify onLine error = k -> k <> SyncError ->
        triggered onLine error k = true)
  /\ (classify onLine error = SyncError ->
        forall k, In k priority -> triggered onLine error k = false).
Proof.
  assert (Hname : getErrorType onLine error = kindName (classify onLine error)).
  { unfold getErrorType, classify, priority, triggered, signatures. cbn [List.find existsb].
    rewrite !orb_false_r, !orb_false_l.
    destruct onLine; cbn [negb orb];
      repeat (match goal with
              | |- context [includes ?m ?s] => destruct (includes m s); cbn [orb]
              end); reflexivity. }
  split; [exact Hname|].
  split; [rewrite Hname; apply getErrorCode_kindName|].
  split.
  { intros ->. reflexivity. }
  split.
  - intros k Hk Hne. unfold classify in Hk.
    destruct (List.find _ priority) as [k'|] eqn:Hf.
    + subst k'. apply List.find_some in Hf. tauto.
    + congruence.
  - intros Hk k Hin. unfold classify in Hk.
    destruct (List.find _ priority) as [k'|] eqn:Hf.
    + subst k'. apply List.find_some in Hf. destruct Hf as [Hin' _].
      unfold priority in Hin'. cbn in Hin'. intuition discriminate.
    + eapply List.find_none in Hf; eauto.
Qed.

End ClassifyFacts.

(** ** Theorems: dates and the daily trigger *)

Section DailyFacts.
Import Cron.

Lemma dateAt_fields (day hour minute : Z) :
  0 <= hour < 24 -> 0 <= minute < 60 ->
  dayOf (dateAt day hour minute) = day
  /\ timeOfDay (dateAt day hour minute) = hour * MS_PER_HOUR + minute * MS_PER_MINUTE.
Proof.
  intros Hh Hm. unfold dayOf, timeOfDay, dateAt, MS_PER_DAY, MS_PER_HOUR, MS_PER_MINUTE.
  assert (Hr : 0 <= hour * (60 * 60 * 1000) + minute * (60 * 1000) < 24 * 60 * 60 * 1000) by lia.
  rewrite <- Z.add_assoc. split.
  - rewrite Z.add_comm, Z.div_add by lia. rewrite Z.div_small by exact Hr. lia.
  - rewrite Z.add_comm, Z.mod_add by lia. apply Z.mod_small. exact Hr.
Qed.

Lemma getNextRun_cases (now hour minute : Z) :
  (dateAt (dayOf now) hour minute <= now ->
     getNextRun now hour minute = dateAt (dayOf now + 1) hour minute)
  /\ (now < dateAt (dayOf now) hour minute ->
     getNextRun now hour minute = dateAt (dayOf now) hour minute).
Proof.
  unfold getNextRun. split; intros H.
  - destruct (Z.leb_spec (dateAt (dayOf now) hour minute) now); [|lia].
    unfold dateAt. lia.
  - destruct (Z.leb_spec (dateAt (dayOf now) hour minute) now); [lia|reflexivity].
Qed.

Lemma addDailyJob_registers (name : string) (hour minute : Z) (onTick : nat)
    (options : CronJobOptions) (s : State) :
  exists wrapper,
    jobs (addDailyJob name hour minute onTick options s) !! name = Some wrapper
    /\ nextRun wrapper = Some (getNextRun (now s) hour minute)
    /\ isRunning wrapper = autoStarts options.
Proof.
  unfold addDailyJob, enterDaily, scheduleNext, setTimer, with_jobs. cbn.
  destruct (autoStarts options); cbn.
  - rewrite lookup_insert_eq. cbn. rewrite lookup_insert_eq. cbn.
    eexists. rewrite lookup_insert_eq. split; [reflexivity|]. cbn. auto.
  - eexists. rewrite lookup_insert_eq. split; [reflexivity|]. cbn. auto.
Qed.

(** C6. [addDailyJob(name, hour, minute, action)] stores as [nextRun] the
    date [hour:minute:00.000] of tomorrow when that time of today is at or
    before the current time, and of today otherwise. *)
Theorem addDailyJob_nextRun_rollover (name : string) (hour minute : Z) (onTick : nat)
    (options : CronJobOptions) (s : State) :
  0 <= hour < 24 -> 0 <= minute < 60 ->
  let today := dayOf (now s) in
  exists wrapper t,
    jobs (addDailyJob name hour minute onTick options s) !! name = Some wrapper
    /\ nextRun wrapper = Some t
    /\ timeOfDay t = hour * MS_PER_HOUR + minute * MS_PER_MINUTE
    /\ (dateAt today hour minute <= now s ->
        t = dateAt (today + 1) hour minute /\ dayOf t = today + 1)
    /\ (now s < dateAt today hour minute ->
        t = dateAt today hour minute /\ dayOf t = today).
Proof.
  intros Hh Hm. cbn zeta.
  destruct (addDailyJob_registers name hour minute onTick options s) as (w & Hw & Hn & _).
  exists w, (getNextRun (now s) hour minute).
  destruct (getNextRun_cases (now s) hour minute) as [Hpast Hfuture].
  split; [exact Hw|]. split; [exact Hn|].
  split.
  - destruct (Z.le_gt_cases (dateAt (dayOf (now s)) hour minute) (now s)) as [H|H].
    + rewrite Hpast by exact H. apply dateAt_fields; assumption.
    + rewrite Hfuture by lia. apply dateAt_fields; assumption.
  - split; intros H.
    + rewrite Hpast by exact H. split; [reflexivity|]. apply dateAt_fields; assumption.
    + rewrite Hfuture by exact H. split; [reflexivity|]. apply dateAt_fields; assumption.
Qed.

(** Registering for 09:00 when the local time is 09:05 (here on day 19000):
    the next run is 09:00 of day 19001. *)
Lemma addDailyJob_nextRun_rollover_witness :
  exists wrapper t,
    jobs (addDailyJob "morning-report" 9 0 0%nat noOptions
            (with_now (dateAt 19000 9 5) init)) !! "morning-report" = Some wrapper
    /\ nextRun wrapper = Some t
    /\ timeOfDay t = 9 * MS_PER_HOUR + 0 * MS_PER_MINUTE
    /\ (dateAt 19000 9 0 <= dateAt 19000 9 5 ->
        t = dateAt (19000 + 1) 9 0 /\ dayOf t = 19000 + 1)
    /\ (dateAt 19000 9 5 < dateAt 19000 9 0 ->
        t = dateAt 19000 9 0 /\ dayOf t = 19000).
Proof.
  apply (addDailyJob_nextRun_rollover "morning-report" 9 0 0%nat noOptions
           (with_now (dateAt 19000 9 5) init)); lia.
Defined.

End DailyFacts.

(** ** Theorems: the scheduler *)

Section CronFacts.
Import Cron Examples.

(** *** Stopped jobs and their next run *)

Lemma insert_keeps name wrapper s :
  (isRunning wrapper = false -> nextRun wrapper = None) ->
  stoppedHasNoNextRun s -> stoppedHasNoNextRun (with_jobs (insert name wrapper) s).
Proof.
  intros Hw H n w. cbn. destruct (decide (n = name)) as [->|Hne].
  - rewrite lookup_insert_eq. intros [= <-]. exact Hw.
  - rewrite lookup_insert_ne by congruence. apply H.
Qed.

Lemma same_jobs_keeps s s' :
  jobs s' = jobs s -> stoppedHasNoNextRun s -> stoppedHasNoNextRun s'.
Proof. intros E H n w. rewrite E. apply H. Qed.

Ltac keep_by H :=
  first [exact H | eapply same_jobs_keeps; [|exact H]; reflexivity].

Lemma stopJob_keeps name s :
  stoppedHasNoNextRun s -> stoppedHasNoNextRun (stopJob name s).
Proof.
  intros H. unfold stopJob.
  destruct (jobs s !! name) as [w|]; [|exact H].
  destruct (negb (isRunning w)); [exact H|].
  destruct (intervalId w) as [[|i]|]; cbn;
    (apply insert_keeps; [intros _; reflexivity|keep_by H]).
Qed.

Lemma startJob_keeps name s :
  stoppedHasNoNextRun s -> stoppedHasNoNextRun (startJob name s).
Proof.
  intros H. unfold startJob.
  destruct (jobs s !! name) as [w|]; [|exact H].
  destruct (isRunning w); [exact H|].
  cbn. apply insert_keeps; [discriminate|].
  eapply same_jobs_keeps; [|exact H]; reflexivity.
Qed.

Lemma removeJob_keeps name s :
  stoppedHasNoNextRun s -> stoppedHasNoNextRun (removeJob name s).
Proof.
  intros H. unfold removeJob. destruct (jobs s !! name); [|exact H].
  intros n w. cbn. intros Hl. apply lookup_delete_Some in Hl as [_ Hl].
  eapply stopJob_keeps; eauto.
Qed.

Lemma foldr_keeps (f : string -> State -> State) (names : list string) s :
  (forall n s', stoppedHasNoNextRun s' -> stoppedHasNoNextRun (f n s')) ->
  stoppedHasNoNextRun s -> stoppedHasNoNextRun (foldr f s names).
Proof. intros Hf H. induction names as [|n names IH]; cbn; auto. Qed.

Lemma wrappedOnTick_keeps reg s :
  stoppedHasNoNextRun s -> stoppedHasNoNextRun (wrappedOnTick reg s).
Proof.
  intros H. unfold wrappedOnTick.
  destruct (intervalScopes s !! reg) as [scope|]; [|exact H].
  destruct (reachedMaxRuns _ _); [apply stopJob_keeps, H|].
  eapply same_jobs_keeps; [|exact H]; reflexivity.
Qed.

Lemma scheduleNext_keeps reg s :
  stoppedHasNoNextRun s -> stoppedHasNoNextRun (scheduleNext reg s).
Proof.
  intros H. unfold scheduleNext.
  destruct (dailyScopes s !! reg) as [scope|]; [|exact H].
  destruct (jobs s !! ds_name scope) as [w|]; [|exact H].
  cbn. apply insert_keeps; [discriminate|].
  eapply same_jobs_keeps; [|exact H]; reflexivity.
Qed.

Lemma fire_keeps id s :
  stoppedHasNoNextRun s -> stoppedHasNoNextRun (fire id s).
Proof.
  intros H. unfold fire. destruct (timers s !! id) as [t|]; [|exact H].
  assert (H1 : stoppedHasNoNextRun
                 (match t_kind t with OneShot => clearTimer id s | Repeating => s end)).
  { destruct (t_kind t); [exact H|]. eapply same_jobs_keeps; [|exact H]; reflexivity. }
  destruct (t_callback t); cbn.
  - apply wrappedOnTick_keeps, H1.
  - apply scheduleNext_keeps, H1.
  - unfold dailyTimeout. destruct (dailyScopes _ !! reg); [|exact H1].
    eapply same_jobs_keeps; [|exact H1]; reflexivity.
Qed.

Lemma addIntervalJob_keeps name interval onTick options s :
  stoppedHasNoNextRun s ->
  stoppedHasNoNextRun (addIntervalJob name interval onTick options s).
Proof.
  intros H. unfold addIntervalJob.
  set (s1 := match jobs s !! name with Some _ => removeJob name s | None => s end).
  assert (H1 : stoppedHasNoNextRun s1).
  { subst s1. destruct (jobs s !! name); [apply removeJob_keeps, H|exact H]. }
  cbn.
  match goal with
  | |- context [with_jobs (insert name ?w) ?s2] =>
      assert (H3 : stoppedHasNoNextRun (with_jobs (insert name w) s2))
  end.
  { apply insert_keeps; [reflexivity|].
    eapply same_jobs_keeps; [|exact H1]; reflexivity. }
  destruct (autoStarts options); [apply startJob_keeps|];
    destruct (runOnInit options) as [[|]|]; try apply wrappedOnTick_keeps; exact H3.
Qed.

Lemma addDailyJob_keeps name hour minute onTick options s :
  autoStarts options = true ->
  stoppedHasNoNextRun s ->
  stoppedHasNoNextRun (addDailyJob name hour minute onTick options s).
Proof.
  intros Ha H. unfold addDailyJob. cbn. rewrite Ha.
  unfold scheduleNext. cbn. rewrite lookup_insert_eq. cbn. rewrite lookup_insert_eq.
  cbn. intros n w. cbn. rewrite insert_insert_eq.
  destruct (decide (n = name)) as [->|Hne].
  - rewrite lookup_insert_eq. intros [= <-]. discriminate.
  - rewrite lookup_insert_ne by congruence. apply H.
Qed.

Lemma settle_keeps inv o s :
  completesAfterStop (Settles inv o) s = false ->
  stoppedHasNoNextRun s -> stoppedHasNoNextRun (settle inv o s).
Proof.
  intros Hc H. unfold settle. unfold completesAfterStop in Hc.
  destruct (pending s !! inv) as [[reg|reg]|]; [| |exact H].
  - unfold wrappedOnTick_resume. cbn.
    destruct (intervalScopes s !! reg) as [scope|];
      [|eapply same_jobs_keeps; [|exact H]; reflexivity].
    destruct o as [|error]; [|eapply same_jobs_keeps; [|exact H]; reflexivity].
    cbn. destruct (jobs s !! is_name scope) as [job|] eqn:Hj.
    + apply negb_false_iff in Hc.
      eapply same_jobs_keeps with (s := with_jobs (insert (is_name scope) _) s);
        [reflexivity|].
      apply insert_keeps; [cbn; congruence|exact H].
    + eapply same_jobs_keeps; [|exact H]; reflexivity.
  - unfold dailyTimeout_resume. cbn.
    destruct (dailyScopes s !! reg) as [scope|];
      [|eapply same_jobs_keeps; [|exact H]; reflexivity].
    destruct o as [|error]; [|eapply same_jobs_keeps; [|exact H]; reflexivity].
    apply scheduleNext_keeps. cbn.
    destruct (jobs s !! ds_name scope) as [job|] eqn:Hj.
    + eapply same_jobs_keeps with (s := with_jobs (insert (ds_name scope) _) s);
        [reflexivity|].
      apply insert_keeps; [cbn; intros Hr; eapply H; eauto|exact H].
    + eapply same_jobs_keeps; [|exact H]; reflexivity.
Qed.

Lemma stopJob_running name s w0 :
  jobs s !! name = Some w0 -> isRunning w0 = true ->
  exists w,
    jobs (stopJob name s) !! name = Some w
    /\ isRunning w = false /\ nextRun w = None
    /\ (forall id, intervalId w0 = Some id -> (0 < id)%nat ->
          intervalId w = None /\ timers (stopJob name s) !! id = None).
Proof.
  intros Hj Hr. unfold stopJob. rewrite Hj, Hr. cbn.
  destruct (intervalId w0) as [[|i]|] eqn:Hi; cbn;
    (eexists; rewrite lookup_insert_eq; split; [reflexivity|]; cbn;
     split; [reflexivity|]; split; [reflexivity|]).
  - intros id [= <-] Hpos. lia.
  - intros id [= <-] _. split; [reflexivity|]. apply lookup_delete_eq.
  - intros id [=].
Qed.

(** Where "not running implies no next run" is kept: by every scheduler
    event except the registration of a daily job with [autoStart: false]
    and the fulfilment of an invocation while the job registered under
    its name is not running (stopped in the meantime, or never started);
    and [stopJob] on a running job leaves it not running, with no next
    run and with its timer cancelled. *)
Lemma stopped_job_has_no_nextRun (s : State) (e : Event) :
  stoppedHasNoNextRun s ->
  registersStoppedDaily e = false ->
  completesAfterStop e s = false ->
  stoppedHasNoNextRun (step s e)
  /\ (forall name w0,
        e = Call_stopJob name -> jobs s !! name = Some w0 -> isRunning w0 = true ->
        exists w,
          jobs (step s e) !! name = Some w
          /\ isRunning w = false /\ nextRun w = None
          /\ (forall id, intervalId w0 = Some id -> (0 < id)%nat ->
                intervalId w = None /\ timers (step s e) !! id = None)).
Proof.
  intros H Hd Hc. split.
  - destruct e; cbn [step].
    + apply addIntervalJob_keeps, H.
    + apply addDailyJob_keeps; [|exact H]. cbn in Hd. apply negb_false_iff, Hd.
    + apply startJob_keeps, H.
    + apply stopJob_keeps, H.
    + apply removeJob_keeps, H.
    + apply foldr_keeps; [apply stopJob_keeps|exact H].
    + apply foldr_keeps; [apply removeJob_keeps|exact H].
    + apply fire_keeps, H.
    + apply settle_keeps; assumption.
    + eapply same_jobs_keeps; [|exact H]; reflexivity.
  - intros name w0 -> Hj Hr. cbn [step]. eapply stopJob_running; eauto.
Qed.

Lemma stopped_job_has_no_nextRun_witness :
  stoppedHasNoNextRun (step (addIntervalJob "sync" 60000 0%nat everyMinute init)
                         (Call_stopJob "sync"))
  /\ (forall name w0,
        Call_stopJob "sync" = Call_stopJob name ->
        jobs (addIntervalJob "sync" 60000 0%nat everyMinute init) !! name = Some w0 ->
        isRunning w0 = true ->
        exists w,
          jobs (step (addIntervalJob "sync" 60000 0%nat everyMinute init)
                  (Call_stopJob "sync")) !! name = Some w
          /\ isRunning w = false /\ nextRun w = None
          /\ (forall id, intervalId w0 = Some id -> (0 < id)%nat ->
                intervalId w = None
                /\ timers (step (addIntervalJob "sync" 60000 0%nat everyMinute init)
                             (Call_stopJob "sync")) !! id = None)).
Proof.
  apply (stopped_job_has_no_nextRun
           (addIntervalJob "sync" 60000 0%nat everyMinute init) (Call_stopJob "sync")).
  - apply addIntervalJob_keeps. intros n w Hl. discriminate Hl.
  - reflexivity.
  - reflexivity.
Defined.

(** C9: what the code does at
    [addDailyJob("morning-report", 9, 0, g, { autoStart: false })] and at
    [addIntervalJob("j", 1000, f, { autoStart: false, runOnInit: true })]
    followed by the success of [f] at time 500.  Neither job was ever
    started or stopped and neither holds a timer; both are registered and
    not running, and both report a next run.  The sibling registration,
    [addIntervalJob] with [autoStart: false] alone, stores no next run. *)
Theorem not_running_job_reports_nextRun :
  let f := 7%nat in
  let g := 8%nat in
  let notStarted := {| autoStart := Some false; runOnInit := None;
                       maxRuns := None; onError := None |} in
  let ranAtOnce := {| autoStart := Some false; runOnInit := Some true;
                      maxRuns := None; onError := None |} in
  let daily := addDailyJob "morning-report" 9 0 g notStarted init in
  let atOnce := addIntervalJob "j" 1000 f ranAtOnce init in
  let finished := run [ClockShows 500; Settles 0 Fulfilled] atOnce in
  let sibling := addIntervalJob "j" 1000 f notStarted init in
  getJob "morning-report" daily
  = Some {| info_name := "morning-report"; info_interval := 86400000;
            info_isRunning := false; info_runCount := 0; info_lastRun := None;
            info_nextRun := Some (dateAt 0 9 0) |}
  /\ timers daily = ∅
  /\ ~ stoppedHasNoNextRun daily
  /\ getJob "j" atOnce
     = Some {| info_name := "j"; info_interval := 1000; info_isRunning := false;
               info_runCount := 0; info_lastRun := None; info_nextRun := None |}
  /\ trace atOnce = [Invoked f 0 0]
  /\ getJob "j" finished
     = Some {| info_name := "j"; info_interval := 1000; info_isRunning := false;
               info_runCount := 1; info_lastRun := Some 500;
               info_nextRun := Some 1500 |}
  /\ timers finished = ∅
  /\ ~ stoppedHasNoNextRun finished
  /\ getJob "j" sibling
     = Some {| info_name := "j"; info_interval := 1000; info_isRunning := false;
               info_runCount := 0; info_lastRun := None; info_nextRun := None |}
  /\ stoppedHasNoNextRun sibling.
Proof.
  cbn zeta. repeat apply conj; try (vm_compute; reflexivity).
  - intros H. specialize (H "morning-report" _ eq_refl eq_refl). discriminate.
  - intros H. specialize (H "j" _ eq_refl eq_refl). discriminate.
  - apply addIntervalJob_keeps. intros n w Hl. discriminate Hl.
Qed.


(** The same write after a stop: an invocation that succeeds after its
    job was stopped sets the job's next run. *)
Example late_completion_sets_nextRun :
  getJob "job" (run lateCompletion init)
  = Some {| info_name := "job"; info_interval := 1000; info_isRunning := false;
            info_runCount := 1; info_lastRun := Some 1500; info_nextRun := Some 2500 |}.
Proof. vm_compute. reflexivity. Qed.

(** *** Failing ticks *)

(** The start of a tick below the ceiling: the action is called and
    nothing else changes. *)
Lemma wrappedOnTick_invokes (s : State) (reg : nat) (scope : IntervalScope) :
  intervalScopes s !! reg = Some scope ->
  reachedMaxRuns (maxRuns (is_options scope)) (is_runCount scope) = false ->
  wrappedOnTick reg s = await (InWrappedOnTick reg) (is_onTick scope) reg s.
Proof. intros Hs Hm. unfold wrappedOnTick. rewrite Hs, Hm. reflexivity. Qed.

(** C5. A tick of an interval job whose action throws or rejects.  The
    timer fires and [wrappedOnTick] calls the action, which changes no
    job, timer or counter.  When the action then fails, at whatever later
    moment, the [catch] runs: no run is counted (neither in the closure's
    [runCount] nor in any job), the job's [onError] handler, when there is
    one, is called with the error, and again no job or timer is touched:
    the job is as it was and its timer is still there to fire. *)
Theorem failed_tick_is_contained (s0 : State) (id : nat) (t : Timer) (reg : nat)
    (scope0 : IntervalScope) (error : Classify.JsError) :
  timers s0 !! id = Some t ->
  t_kind t = Repeating ->
  t_callback t = WrappedOnTick reg ->
  intervalScopes s0 !! reg = Some scope0 ->
  reachedMaxRuns (maxRuns (is_options scope0)) (is_runCount scope0) = false ->
  let inv := nextInv s0 in
  (jobs (fire id s0) = jobs s0
   /\ timers (fire id s0) = timers s0
   /\ intervalScopes (fire id s0) = intervalScopes s0
   /\ pending (fire id s0) !! inv = Some (InWrappedOnTick reg)
   /\ trace (fire id s0) = (trace s0 ++ [Invoked (is_onTick scope0) reg inv])%list)
  /\ (forall s scope,
        pending s !! inv = Some (InWrappedOnTick reg) ->
        intervalScopes s !! reg = Some scope ->
        let s' := settle inv (Rejected error) s in
        intervalScopes s' = intervalScopes s
        /\ jobs s' = jobs s
        /\ timers s' = timers s
        /\ trace s' = (trace s ++ Errored reg inv error ::
                         handlerCall (onError (is_options scope)) error)%list
        /\ completions reg (trace s') = completions reg (trace s)).
Proof.
  intros Ht Hkind Hcb Hs0 Hm. cbn zeta. split.
  - unfold fire. rewrite Ht, Hkind, Hcb. cbn [runCallback].
    rewrite (wrappedOnTick_invokes _ _ _ Hs0 Hm). cbn.
    repeat (split; [reflexivity|]).
    split; [apply lookup_insert_eq|reflexivity].
  - intros s scope Hp Hs. unfold settle. rewrite Hp.
    unfold wrappedOnTick_resume. cbn. rewrite Hs. cbn.
    repeat (split; [reflexivity|]).
    unfold completions. rewrite List.filter_app, List.length_app. cbn.
    destruct (onError (is_options scope)); cbn; lia.
Qed.

Lemma failed_tick_is_contained_witness :
  let s0 := addIntervalJob "sync" 60000 0%nat reportingErrors init in
  (jobs (fire 1 s0) = jobs s0
   /\ timers (fire 1 s0) = timers s0
   /\ intervalScopes (fire 1 s0) = intervalScopes s0
   /\ pending (fire 1 s0) !! 0%nat = Some (InWrappedOnTick 0)
   /\ trace (fire 1 s0) = (trace s0 ++ [Invoked 0 0 0])%list)
  /\ (forall s scope,
        pending s !! 0%nat = Some (InWrappedOnTick 0) ->
        intervalScopes s !! 0%nat = Some scope ->
        let s' := settle 0 (Rejected timedOut) s in
        intervalScopes s' = intervalScopes s
        /\ jobs s' = jobs s
        /\ timers s' = timers s
        /\ trace s' = (trace s ++ Errored 0 0 timedOut ::
                         handlerCall (onError (is_options scope)) timedOut)%list
        /\ completions 0 (trace s') = completions 0 (trace s)).
Proof.
  apply (failed_tick_is_contained
           (addIntervalJob "sync" 60000 0%nat reportingErrors init) 1
           {| t_kind := Repeating; t_callback := WrappedOnTick 0; t_delay := 60000 |} 0
           {| is_name := "sync"; is_interval := 60000; is_onTick := 0;
              is_options := reportingErrors; is_runCount := 0 |} timedOut);
    vm_compute; reflexivity.
Defined.

(** The failing tick of the witness, run: the handler is called with the
    error, the job is still running and has counted nothing. *)
Example failed_tick_run :
  let s := run [Call_addIntervalJob "sync" 60000 0%nat reportingErrors;
                ClockShows 60000; TimerFires 1; Settles 0 (Rejected timedOut)] init in
  trace s = [Invoked 0 0 0; Errored 0 0 timedOut; OnErrorCalled 5 timedOut]
  /\ getJob "sync" s
     = Some {| info_name := "sync"; info_interval := 60000; info_isRunning := true;
               info_runCount := 0; info_lastRun := None; info_nextRun := Some 60000 |}.
Proof. cbn zeta. split; vm_compute; reflexivity. Qed.

(** *** Re-registration under a name in use *)

(** [addIntervalJob] under a name in use: the job found there is stopped,
    so the timer it holds is cancelled, before the new job is stored. *)
Lemma addIntervalJob_cancels_replaced (name : string) (interval : Z) (onTick : nat)
    (options : CronJobOptions) (s : State) (old : CronJobWrapper) (id : nat) :
  jobs s !! name = Some old -> isRunning old = true ->
  intervalId old = Some id -> (0 < id < nextTimer s)%nat ->
  timers (addIntervalJob name interval onTick options s) !! id = None.
Proof.
  intros Hj Hr Hi Hid. unfold addIntervalJob. rewrite Hj.
  assert (Hrm : timers (removeJob name s) !! id = None
                /\ nextTimer (removeJob name s) = nextTimer s).
  { unfold removeJob, stopJob. rewrite Hj, Hr, Hi. cbn.
    destruct id as [|i]; [lia|]. cbn. split; [apply lookup_delete_eq|reflexivity]. }
  destruct Hrm as [Hrm Hnt]. cbn.
  set (s3 := with_jobs _ _).
  assert (H3 : timers s3 !! id = None /\ nextTimer s3 = nextTimer s) by (split; assumption).
  clearbody s3. destruct H3 as [H3 Hn3].
  assert (H4 : forall s4, timers s4 !! id = None -> nextTimer s4 = nextTimer s ->
                 timers (startJob name s4) !! id = None).
  { intros s4 Ht Hn. unfold startJob. destruct (jobs s4 !! name) as [w|]; [|exact Ht].
    destruct (isRunning w); [exact Ht|]. cbn. rewrite lookup_insert_ne by lia. exact Ht. }
  assert (H5 : forall reg, timers (wrappedOnTick reg s3) !! id = None
                 /\ nextTimer (wrappedOnTick reg s3) = nextTimer s).
  { intros reg. unfold wrappedOnTick. destruct (intervalScopes s3 !! reg); [|auto].
    destruct (reachedMaxRuns _ _); [|auto].
    unfold stopJob. destruct (jobs s3 !! _) as [w|]; [|auto].
    destruct (negb (isRunning w)); [auto|].
    destruct (intervalId w) as [[|j]|]; cbn; auto.
    split; [|exact Hn3]. apply lookup_delete_None. auto. }
  destruct (autoStarts options); destruct (runOnInit options) as [[|]|];
    try apply H4; try apply H5; auto.
Qed.

(** C8: what the code does at [addIntervalJob("sync", 1000, f)] followed
    by [addDailyJob("sync", 9, 0, g)].  The name holds the daily job,
    the interval job's timer is still live, and when it fires the replaced
    job's action [f] is called. *)
Theorem addDailyJob_leaves_replaced_timer :
  let f := 7%nat in
  let g := 8%nat in
  let s1 := addIntervalJob "sync" 1000 f noOptions init in
  let s2 := addDailyJob "sync" 9 0 g noOptions s1 in
  (intervalId <$> jobs s1 !! "sync") = Some (Some 1%nat)
  /\ (onTick <$> jobs s2 !! "sync") = Some (ScheduleNext 1)
  /\ (intervalId <$> jobs s2 !! "sync") = Some (Some 2%nat)
  /\ timers s2 !! 1%nat
     = Some {| t_kind := Repeating; t_callback := WrappedOnTick 0; t_delay := 1000 |}
  /\ trace (fire 1 s2) = [Invoked f 0 0].
Proof. cbn zeta. repeat apply conj; vm_compute; reflexivity. Qed.

End CronFacts.

(** ** Theorems: the run-count ceiling *)

(** Splits an equation between closures' states into its components. *)
Ltac core_eq H :=
  unfold Cron.core in H; injection H as ? ? ? ? ? ?.

Section CeilingFacts.
Import Cron Examples.

(** *** What each method does to the closures' state *)

Lemma core_stopJob name s : core (stopJob name s) = core s.
Proof.
  unfold stopJob. destruct (jobs s !! name) as [w|]; [|reflexivity].
  destruct (negb (isRunning w)); [reflexivity|].
  destruct (intervalId w) as [[|i]|]; reflexivity.
Qed.

Lemma core_startJob name s : core (startJob name s) = core s.
Proof.
  unfold startJob. destruct (jobs s !! name) as [w|]; [|reflexivity].
  destruct (isRunning w); reflexivity.
Qed.

Lemma core_removeJob name s : core (removeJob name s) = core s.
Proof.
  unfold removeJob. destruct (jobs s !! name) as [w|]; [|reflexivity].
  change (core (with_jobs (delete name) (stopJob name s))) with (core (stopJob name s)).
  apply core_stopJob.
Qed.

Lemma core_foldr (f : string -> State -> State) (names : list string) s :
  (forall n s', core (f n s') = core s') -> core (foldr f s names) = core s.
Proof.
  intros Hf. induction names as [|n names IH]; cbn; [reflexivity|].
  rewrite Hf. exact IH.
Qed.

Lemma core_scheduleNext reg s : core (scheduleNext reg s) = core s.
Proof.
  unfold scheduleNext. destruct (dailyScopes s !! reg) as [scope|]; [|reflexivity].
  destruct (jobs s !! ds_name scope); reflexivity.
Qed.

Lemma quiet_wrappedOnTick reg s : Quiet s (wrappedOnTick reg s).
Proof.
  unfold wrappedOnTick. destruct (intervalScopes s !! reg) as [scope|] eqn:Hs;
    [|apply Q_same; reflexivity].
  destruct (reachedMaxRuns _ _) eqn:Hm.
  - apply Q_same, core_stopJob.
  - eapply Q_invoke; eauto.
Qed.

Lemma quiet_fire id s : Quiet s (fire id s).
Proof.
  unfold fire. destruct (timers s !! id) as [t|]; [|apply Q_same; reflexivity].
  eapply Q_trans with (s1 := match t_kind t with OneShot => clearTimer id s | Repeating => s end).
  { apply Q_same. destruct (t_kind t); reflexivity. }
  destruct (t_callback t); cbn.
  - apply quiet_wrappedOnTick.
  - apply Q_same, core_scheduleNext.
  - unfold dailyTimeout. destruct (dailyScopes _ !! reg) as [scope|] eqn:Hs;
      [|apply Q_same; reflexivity].
    eapply Q_invokeDaily; eauto.
Qed.

Lemma quiet_addIntervalJob name interval onTick options s :
  Quiet s (addIntervalJob name interval onTick options s).
Proof.
  unfold addIntervalJob.
  set (s1 := match jobs s !! name with Some _ => removeJob name s | None => s end).
  assert (Q1 : Quiet s s1).
  { apply Q_same. subst s1. destruct (jobs s !! name); [apply core_removeJob|reflexivity]. }
  cbn.
  match goal with
  | |- context [with_jobs (insert name ?w) ?s2] =>
      set (s3 := with_jobs (insert name w) s2)
  end.
  assert (Q3 : Quiet s s3).
  { eapply Q_trans; [exact Q1|]. eapply Q_enterInterval; [|reflexivity]. reflexivity. }
  assert (Q4 : Quiet s (match runOnInit options with
                        | Some true => wrappedOnTick (nextReg s1) s3
                        | _ => s3
                        end)).
  { destruct (runOnInit options) as [[|]|]; try exact Q3.
    eapply Q_trans; [exact Q3|apply quiet_wrappedOnTick]. }
  destruct (autoStarts options); [|exact Q4].
  eapply Q_trans; [exact Q4|]. apply Q_same, core_startJob.
Qed.

Lemma quiet_addDailyJob name hour minute onTick options s :
  Quiet s (addDailyJob name hour minute onTick options s).
Proof.
  unfold addDailyJob. cbn.
  match goal with
  | |- context [with_jobs (insert name ?w) ?s2] =>
      set (s3 := with_jobs (insert name w) s2)
  end.
  assert (Q3 : Quiet s s3) by (eapply Q_enterDaily; reflexivity).
  destruct (autoStarts options); [|exact Q3].
  eapply Q_trans; [exact Q3|]. apply Q_same, core_scheduleNext.
Qed.

Lemma settle_moves inv o s :
  Quiet s (settle inv o s) \/ Settled s (settle inv o s).
Proof.
  unfold settle. destruct (pending s !! inv) as [[reg|reg]|] eqn:Hp.
  - right. unfold wrappedOnTick_resume. cbn.
    destruct (intervalScopes s !! reg) as [scope|] eqn:Hs;
      [|eapply S_drop; reflexivity].
    destruct o as [|error].
    + eapply S_complete; eauto. cbn.
      destruct (jobs s !! is_name scope); reflexivity.
    + eapply S_fail; eauto.
  - right. unfold dailyTimeout_resume. cbn.
    destruct (dailyScopes s !! reg) as [scope|]; [|eapply S_drop; reflexivity].
    destruct o as [|error]; [|eapply S_drop; reflexivity].
    eapply S_drop. rewrite core_scheduleNext.
    destruct (jobs s !! ds_name scope); reflexivity.
  - left. apply Q_same. reflexivity.
Qed.

Lemma step_moves s e : Quiet s (step s e) \/ Settled s (step s e).
Proof.
  destruct e; cbn [step]; try (left; apply Q_same; reflexivity).
  - left. apply quiet_addIntervalJob.
  - left. apply quiet_addDailyJob.
  - left. apply Q_same, core_startJob.
  - left. apply Q_same, core_stopJob.
  - left. apply Q_same, core_removeJob.
  - left. apply Q_same, core_foldr, core_stopJob.
  - left. apply Q_same, core_foldr, core_removeJob.
  - left. apply quiet_fire.
  - apply settle_moves.
Qed.


(** *** Invariants of the closures' state *)


Lemma completions_app reg tr tr' :
  completions reg (tr ++ tr') = (completions reg tr + completions reg tr')%nat.
Proof. unfold completions. rewrite List.filter_app, List.length_app. reflexivity. Qed.

Lemma completions_handlerCall reg h error :
  completions reg (handlerCall h error) = 0%nat.
Proof. destruct h; reflexivity. Qed.

Lemma reachedMaxRuns_false k c :
  1 <= k -> reachedMaxRuns (Some k) c = false -> c < k.
Proof.
  intros Hk. unfold reachedMaxRuns.
  destruct (Z.eqb_spec k 0); [lia|]. cbn.
  destruct (Z.leb_spec k c); [discriminate|lia].
Qed.

Lemma reachedMaxRuns_true k c :
  1 <= k -> k <= c -> reachedMaxRuns (Some k) c = true.
Proof.
  intros Hk Hc. unfold reachedMaxRuns.
  destruct (Z.eqb_spec k 0); [lia|]. cbn.
  destruct (Z.leb_spec k c); [reflexivity|lia].
Qed.

Section Ceiling.
Variables (reg : nat) (k : Z).
Hypothesis k_positive : 1 <= k.

Lemma quiet_keeps_ceiling s s' :
  Quiet s s' -> ceilingInvariant reg k s -> ceilingInvariant reg k s'.
Proof.
  induction 1 as [s s' E|s s' scope Hz E|s s' scope E|s s' r scope Hs Hm E
                 |s s' r scope Hs E|s s1 s2 _ IH1 _ IH2];
    intros (Hb & Hc & Hk);
    [| | | | |apply IH2, IH1; split; [|split]; assumption].
  - core_eq E. unfold ceilingInvariant, scopesBelow, countsCompletions, countOf,
      belowCeiling in *. repeat match goal with H : _ s' = _ s |- _ => rewrite H end.
    auto.
  - core_eq E. destruct Hb as [Hbi Hbd].
    assert (Hfresh : intervalScopes s !! nextReg s = None).
    { destruct (intervalScopes s !! nextReg s) eqn:Hl; [|reflexivity].
      apply Hbi in Hl. lia. }
    split; [|split].
    + split; intros r sc Hl.
      * rewrite H in Hl. apply lookup_insert_Some in Hl as [[<- _]|[_ Hl]]; [lia|].
        apply Hbi in Hl. lia.
      * rewrite H0 in Hl. apply Hbd in Hl. lia.
    + unfold countsCompletions, countOf in *. rewrite H4, H.
      destruct (decide (nextReg s = reg)) as [<-|Hne].
      * rewrite lookup_insert_eq, Hz. rewrite Hfresh in Hc. exact Hc.
      * rewrite lookup_insert_ne by exact Hne. exact Hc.
    + intros sc Hl Hmax. rewrite H in Hl. rewrite H2.
      apply lookup_insert_Some in Hl as [[_ <-]|[_ Hl]].
      * rewrite Hz. lia.
      * apply Hk; assumption.
  - core_eq E. destruct Hb as [Hbi Hbd]. split; [|split].
    + split; intros r sc Hl.
      * rewrite H in Hl. apply Hbi in Hl. lia.
      * rewrite H0 in Hl. apply lookup_insert_Some in Hl as [[<- _]|[_ Hl]]; [lia|].
        apply Hbd in Hl. lia.
    + unfold countsCompletions, countOf in *. rewrite H4, H. exact Hc.
    + intros sc Hl Hmax. rewrite H in Hl. rewrite H2. apply Hk; assumption.
  - core_eq E. split; [|split].
    + unfold scopesBelow in *. rewrite H, H0, H1. exact Hb.
    + unfold countsCompletions, countOf in *. rewrite H4, H, completions_app.
      cbn. rewrite Nat.add_0_r. exact Hc.
    + intros sc Hl Hmax. rewrite H in Hl. destruct (Hk sc Hl Hmax) as [Hle Hlt].
      split; [exact Hle|]. intros [inv Hp]. rewrite H2 in Hp.
      apply lookup_insert_Some in Hp as [[_ [= ->]]|[_ Hp]].
      * rewrite Hs in Hl. injection Hl as <-. rewrite Hmax in Hm.
        apply reachedMaxRuns_false in Hm; assumption.
      * apply Hlt. eauto.
  - core_eq E. split; [|split].
    + unfold scopesBelow in *. rewrite H, H0, H1. exact Hb.
    + unfold countsCompletions, countOf in *. rewrite H4, H, completions_app.
      cbn. rewrite Nat.add_0_r. exact Hc.
    + intros sc Hl Hmax. rewrite H in Hl. destruct (Hk sc Hl Hmax) as [Hle Hlt].
      split; [exact Hle|]. intros [inv Hp]. rewrite H2 in Hp.
      apply lookup_insert_Some in Hp as [[_ [=]]|[_ Hp]].
      apply Hlt. eauto.
Qed.

Lemma settled_keeps_ceiling s s' :
  Settled s s' -> uniqueInFlight reg s ->
  ceilingInvariant reg k s -> ceilingInvariant reg k s'.
Proof.
  intros [s0 s0' inv r scope Hp Hs E|s0 s0' inv r scope error Hp Hs E|s0 s0' inv E]
    Hu (Hb & Hc & Hk).
  - core_eq E. destruct Hb as [Hbi Hbd]. split; [|split].
    + split; intros r' sc Hl.
      * rewrite H in Hl. rewrite H1.
        apply lookup_insert_Some in Hl as [[<- _]|[_ Hl]]; eauto.
      * rewrite H0 in Hl. rewrite H1. eauto.
    + unfold countsCompletions, countOf in *. rewrite H4, H, completions_app.
      unfold completions at 2. cbn.
      destruct (decide (r = reg)) as [->|Hne].
      * rewrite lookup_insert_eq. rewrite Hs in Hc. rewrite Nat.eqb_refl. cbn. lia.
      * rewrite lookup_insert_ne by exact Hne.
        apply Nat.eqb_neq in Hne. rewrite Hne. cbn. lia.
    + intros sc Hl Hmax. rewrite H in Hl.
      destruct (decide (r = reg)) as [->|Hne].
      * rewrite lookup_insert_eq in Hl. injection Hl as <-. cbn in Hmax |- *.
        destruct (Hk scope Hs Hmax) as [_ Hlt].
        split; [assert (is_runCount scope < k) by eauto; lia|].
        intros [j Hj]. rewrite H2 in Hj. apply lookup_delete_Some in Hj as [Hne Hj].
        exfalso. apply Hne. eapply Hu; eauto.
      * rewrite lookup_insert_ne in Hl by exact Hne.
        destruct (Hk sc Hl Hmax) as [Hle Hlt]. split; [exact Hle|].
        intros [j Hj]. rewrite H2 in Hj. apply lookup_delete_Some in Hj as [_ Hj]. eauto.
  - core_eq E. split; [|split].
    + unfold scopesBelow in *. rewrite H, H0, H1. exact Hb.
    + unfold countsCompletions, countOf in *. rewrite H4, H, completions_app.
      change (Errored r inv error :: ?l) with ([Errored r inv error] ++ l)%list.
      rewrite completions_app, completions_handlerCall. cbn. rewrite Nat.add_0_r. exact Hc.
    + intros sc Hl Hmax. rewrite H in Hl. destruct (Hk sc Hl Hmax) as [Hle Hlt].
      split; [exact Hle|].
      intros [j Hj]. rewrite H2 in Hj. apply lookup_delete_Some in Hj as [_ Hj]. eauto.
  - core_eq E. split; [|split].
    + unfold scopesBelow in *. rewrite H, H0, H1. exact Hb.
    + unfold countsCompletions, countOf in *. rewrite H4, H. exact Hc.
    + intros sc Hl Hmax. rewrite H in Hl. destruct (Hk sc Hl Hmax) as [Hle Hlt].
      split; [exact Hle|].
      intros [j Hj]. rewrite H2 in Hj. apply lookup_delete_Some in Hj as [_ Hj]. eauto.
Qed.


Lemma inFlight_elem s i :
  pending s !! i = Some (InWrappedOnTick reg) -> i ∈ inFlight reg s.
Proof.
  intros Hp. unfold inFlight. apply list_elem_of_omap.
  exists (i, InWrappedOnTick reg). split.
  - apply elem_of_map_to_list. exact Hp.
  - cbn. rewrite Nat.eqb_refl. reflexivity.
Qed.

Lemma overlapFree_unique s :
  overlapFree reg s = true -> uniqueInFlight reg s.
Proof.
  unfold overlapFree. intros Hle i j Hi Hj.
  apply inFlight_elem in Hi, Hj. apply Nat.leb_le in Hle.
  destruct (inFlight reg s) as [|x [|y l]].
  - inversion Hi.
  - apply list_elem_of_singleton in Hi, Hj. congruence.
  - cbn in Hle. lia.
Qed.

Lemma init_ceiling : ceilingInvariant reg k init.
Proof.
  split; [|split].
  - split; intros r sc Hl; discriminate Hl.
  - reflexivity.
  - intros sc Hl. discriminate Hl.
Qed.

Lemma run_keeps_ceiling events s :
  ceilingInvariant reg k s -> overlapFree reg s = true ->
  neverOverlaps reg events s = true ->
  ceilingInvariant reg k (run events s).
Proof.
  revert s. induction events as [|e events IH]; intros s Hg Ho Hn; [exact Hg|].
  cbn in Hn. apply andb_true_iff in Hn as [Ho' Hn]. cbn.
  apply IH; [|exact Ho'|exact Hn].
  destruct (step_moves s e) as [Hq|Hs].
  - eapply quiet_keeps_ceiling; eauto.
  - eapply settled_keeps_ceiling; eauto using overlapFree_unique.
Qed.

(** A tick at the ceiling: the action is not called, and the job found
    under the closure's name is not running afterwards. *)
Lemma wrappedOnTick_at_ceiling s scope :
  intervalScopes s !! reg = Some scope ->
  maxRuns (is_options scope) = Some k ->
  k <= is_runCount scope ->
  trace (wrappedOnTick reg s) = trace s
  /\ pending (wrappedOnTick reg s) = pending s
  /\ (forall w, jobs (wrappedOnTick reg s) !! is_name scope = Some w ->
        isRunning w = false).
Proof.
  intros Hs Hmax Hle. unfold wrappedOnTick. rewrite Hs, Hmax.
  rewrite reachedMaxRuns_true by assumption.
  pose proof (core_stopJob (is_name scope) s) as E. core_eq E.
  split; [assumption|]. split; [assumption|].
  intros w. unfold stopJob.
  destruct (jobs s !! is_name scope) as [w0|] eqn:Hj; [|rewrite Hj; discriminate].
  destruct (isRunning w0) eqn:Hr; cbn.
  - destruct (intervalId w0) as [[|i]|]; cbn; rewrite lookup_insert_eq;
      intros [= <-]; reflexivity.
  - rewrite Hj. intros [= <-]. exact Hr.
Qed.

End Ceiling.

End CeilingFacts.

(** ** Theorems: the count a job reports *)

Section ReportedCount.
Import Cron Examples.

Lemma kept_refl s : runCountsKept s s.
Proof. intros n w H. eauto. Qed.

Lemma kept_trans s1 s2 s3 :
  runCountsKept s1 s2 -> runCountsKept s2 s3 -> runCountsKept s1 s3.
Proof.
  intros H12 H23 n w3 H3. destruct (H23 n w3 H3) as (w2 & H2 & E2).
  destruct (H12 n w2 H2) as (w1 & H1 & E1). exists w1. split; [exact H1|congruence].
Qed.

Lemma kept_same_jobs s s' : jobs s' = jobs s -> runCountsKept s s'.
Proof. intros E n w H. rewrite E in H. eauto. Qed.

Lemma kept_insert name w0 w s s' :
  jobs s !! name = Some w0 -> runCount w = runCount w0 ->
  jobs s' = <[name := w]> (jobs s) -> runCountsKept s s'.
Proof.
  intros Hj Hr E n w' H. rewrite E in H.
  apply lookup_insert_Some in H as [[<- <-]|[_ H]]; eauto.
Qed.

Lemma kept_stopJob name s : runCountsKept s (stopJob name s).
Proof.
  unfold stopJob. destruct (jobs s !! name) as [w|] eqn:Hj; [|apply kept_refl].
  destruct (negb (isRunning w)); [apply kept_refl|].
  destruct (intervalId w) as [[|i]|]; cbn; (eapply kept_insert; [exact Hj| |reflexivity]);
    reflexivity.
Qed.

Lemma kept_startJob name s : runCountsKept s (startJob name s).
Proof.
  unfold startJob. destruct (jobs s !! name) as [w|] eqn:Hj; [|apply kept_refl].
  destruct (isRunning w); [apply kept_refl|].
  cbn. eapply kept_insert; [exact Hj| |reflexivity]. reflexivity.
Qed.

Lemma kept_removeJob name s : runCountsKept s (removeJob name s).
Proof.
  unfold removeJob. destruct (jobs s !! name) as [w|] eqn:Hj; [|apply kept_refl].
  eapply kept_trans; [apply kept_stopJob|].
  intros n w' H. cbn in H. apply lookup_delete_Some in H as [_ H]. eauto.
Qed.

Lemma kept_foldr (f : string -> State -> State) (names : list string) s :
  (forall n s', runCountsKept s' (f n s')) -> runCountsKept s (foldr f s names).
Proof.
  intros Hf. induction names as [|n names IH]; cbn; [apply kept_refl|].
  eapply kept_trans; [exact IH|apply Hf].
Qed.

Lemma kept_scheduleNext reg s : runCountsKept s (scheduleNext reg s).
Proof.
  unfold scheduleNext. destruct (dailyScopes s !! reg) as [scope|]; [|apply kept_refl].
  destruct (jobs s !! ds_name scope) as [w|] eqn:Hj; [|apply kept_refl].
  cbn. eapply kept_insert; [exact Hj| |reflexivity]. reflexivity.
Qed.

Lemma kept_wrappedOnTick reg s : runCountsKept s (wrappedOnTick reg s).
Proof.
  unfold wrappedOnTick. destruct (intervalScopes s !! reg) as [scope|]; [|apply kept_refl].
  destruct (reachedMaxRuns _ _); [apply kept_stopJob|apply kept_same_jobs; reflexivity].
Qed.

Lemma kept_fire id s : runCountsKept s (fire id s).
Proof.
  unfold fire. destruct (timers s !! id) as [t|]; [|apply kept_refl].
  eapply kept_trans with (s2 := match t_kind t with OneShot => clearTimer id s | Repeating => s end).
  { apply kept_same_jobs. destruct (t_kind t); reflexivity. }
  destruct (t_callback t); cbn.
  - apply kept_wrappedOnTick.
  - apply kept_scheduleNext.
  - unfold dailyTimeout. destruct (dailyScopes _ !! reg); [|apply kept_refl].
    apply kept_same_jobs. reflexivity.
Qed.

Lemma intervalScopes_stopJob name s :
  intervalScopes (stopJob name s) = intervalScopes s.
Proof. pose proof (core_stopJob name s) as E. unfold core in E. congruence. Qed.

Lemma intervalScopes_wrappedOnTick reg s :
  intervalScopes (wrappedOnTick reg s) = intervalScopes s.
Proof.
  unfold wrappedOnTick. destruct (intervalScopes s !! reg); [|reflexivity].
  destruct (reachedMaxRuns _ _); [apply intervalScopes_stopJob|reflexivity].
Qed.

Lemma intervalScopes_fire id s : intervalScopes (fire id s) = intervalScopes s.
Proof.
  unfold fire. destruct (timers s !! id) as [t|]; [|reflexivity].
  assert (E : intervalScopes (match t_kind t with OneShot => clearTimer id s | Repeating => s end)
              = intervalScopes s) by (destruct (t_kind t); reflexivity).
  rewrite <- E. destruct (t_callback t); cbn.
  - apply intervalScopes_wrappedOnTick.
  - pose proof (core_scheduleNext reg
      (match t_kind t with OneShot => clearTimer id s | Repeating => s end)) as E'.
    unfold core in E'. congruence.
  - unfold dailyTimeout. destruct (dailyScopes _ !! reg); reflexivity.
Qed.

(** Moves keep the scopes entered so far, and their names. *)
Lemma quiet_keeps_scopes s s' :
  Quiet s s' -> scopesBelow s ->
  scopesBelow s'
  /\ (forall r sc, intervalScopes s !! r = Some sc ->
        exists sc', intervalScopes s' !! r = Some sc' /\ is_name sc' = is_name sc
          /\ is_options sc' = is_options sc)
  /\ (forall r d, dailyScopes s !! r = Some d -> dailyScopes s' !! r = Some d).
Proof.
  induction 1 as [s s' E|s s' scope Hz E|s s' scope E|s s' r scope Hs Hm E
                 |s s' r scope Hs E|s s1 s2 _ IH1 _ IH2]; intros Hb.
  - core_eq E. unfold scopesBelow in *. rewrite H, H0, H1. split; [exact Hb|]. eauto.
  - core_eq E. destruct Hb as [Hbi Hbd]. split; [split|split].
    + intros r sc Hl. rewrite H in Hl. rewrite H1.
      apply lookup_insert_Some in Hl as [[<- _]|[_ Hl]]; [lia|]. apply Hbi in Hl. lia.
    + intros r d Hl. rewrite H0 in Hl. rewrite H1. apply Hbd in Hl. lia.
    + intros r sc Hl. rewrite H. exists sc. split; [|split; reflexivity].
      rewrite lookup_insert_ne; [exact Hl|]. apply Hbi in Hl. lia.
    + intros r d Hl. rewrite H0. exact Hl.
  - core_eq E. destruct Hb as [Hbi Hbd]. split; [split|split].
    + intros r sc Hl. rewrite H in Hl. rewrite H1. apply Hbi in Hl. lia.
    + intros r d Hl. rewrite H0 in Hl. rewrite H1.
      apply lookup_insert_Some in Hl as [[<- _]|[_ Hl]]; [lia|]. apply Hbd in Hl. lia.
    + intros r sc Hl. rewrite H. eauto.
    + intros r d Hl. rewrite H0. rewrite lookup_insert_ne; [exact Hl|].
      apply Hbd in Hl. lia.
  - core_eq E. unfold scopesBelow in *. rewrite H, H0, H1. split; [exact Hb|]. eauto.
  - core_eq E. unfold scopesBelow in *. rewrite H, H0, H1. split; [exact Hb|]. eauto.
  - destruct (IH1 Hb) as (Hb1 & Hi1 & Hd1). destruct (IH2 Hb1) as (Hb2 & Hi2 & Hd2).
    split; [exact Hb2|]. split.
    + intros r sc Hl. destruct (Hi1 r sc Hl) as (sc1 & Hl1 & E1 & O1).
      destruct (Hi2 r sc1 Hl1) as (sc2 & Hl2 & E2 & O2). exists sc2.
      split; [exact Hl2|split; congruence].
    + intros r d Hl. auto.
Qed.

Lemma settled_keeps_scopes s s' :
  Settled s s' -> scopesBelow s ->
  scopesBelow s'
  /\ (forall r sc, intervalScopes s !! r = Some sc ->
        exists sc', intervalScopes s' !! r = Some sc' /\ is_name sc' = is_name sc
          /\ is_options sc' = is_options sc)
  /\ (forall r d, dailyScopes s !! r = Some d -> dailyScopes s' !! r = Some d).
Proof.
  intros [s0 s0' inv r scope Hp Hs E|s0 s0' inv r scope error Hp Hs E|s0 s0' inv E] Hb.
  - core_eq E. destruct Hb as [Hbi Hbd]. split; [split|split].
    + intros r' sc Hl. rewrite H in Hl. rewrite H1.
      apply lookup_insert_Some in Hl as [[<- _]|[_ Hl]]; eauto.
    + intros r' d Hl. rewrite H0 in Hl. rewrite H1. eauto.
    + intros r' sc Hl. rewrite H. destruct (decide (r = r')) as [<-|Hne].
      * rewrite lookup_insert_eq. rewrite Hs in Hl. injection Hl as <-. eauto.
      * rewrite lookup_insert_ne by exact Hne. eauto.
    + intros r' d Hl. rewrite H0. exact Hl.
  - core_eq E. unfold scopesBelow in *. rewrite H, H0, H1. split; [exact Hb|]. eauto.
  - core_eq E. unfold scopesBelow in *. rewrite H, H0, H1. split; [exact Hb|]. eauto.
Qed.

Lemma step_keeps_scopes s e :
  scopesBelow s ->
  scopesBelow (step s e)
  /\ (forall r sc, intervalScopes s !! r = Some sc ->
        exists sc', intervalScopes (step s e) !! r = Some sc' /\ is_name sc' = is_name sc
          /\ is_options sc' = is_options sc)
  /\ (forall r d, dailyScopes s !! r = Some d -> dailyScopes (step s e) !! r = Some d).
Proof.
  intros Hb. destruct (step_moves s e) as [Hq|Hs].
  - apply quiet_keeps_scopes; assumption.
  - apply settled_keeps_scopes; assumption.
Qed.

Lemma step_sole_back name reg s e :
  scopesBelow s -> soleRegistration name reg (step s e) -> soleRegistration name reg s.
Proof.
  intros Hb [Hi Hd]. destruct (step_keeps_scopes s e Hb) as (_ & Ki & Kd). split.
  - intros r sc Hl En. destruct (Ki r sc Hl) as (sc' & Hl' & E' & _). eapply Hi; eauto. congruence.
  - intros r d Hl. eapply Hd; eauto.
Qed.


Lemma report_kept name reg s s' :
  runCountsKept s s' -> intervalScopes s' = intervalScopes s ->
  reportsAtMost name reg s -> reportsAtMost name reg s'.
Proof.
  intros Hk E H w' Hl. destruct (Hk name w' Hl) as (w & Hw & Er).
  unfold countOf. rewrite E, Er. apply H, Hw.
Qed.

Lemma addIntervalJob_shape name interval onTick options s :
  let s' := addIntervalJob name interval onTick options s in
  intervalScopes s'
  = <[nextReg s := {| is_name := name; is_interval := interval; is_onTick := onTick;
                      is_options := options; is_runCount := 0 |}]> (intervalScopes s)
  /\ (forall w', jobs s' !! name = Some w' -> runCount w' = 0)
  /\ (forall m w', m <> name -> jobs s' !! m = Some w' ->
        exists w, jobs s !! m = Some w /\ runCount w' = runCount w).
Proof.
  cbn zeta. unfold addIntervalJob.
  set (s1 := match jobs s !! name with Some _ => removeJob name s | None => s end).
  assert (K1 : runCountsKept s s1).
  { subst s1. destruct (jobs s !! name); [apply kept_removeJob|apply kept_refl]. }
  assert (C1 : core s1 = core s).
  { subst s1. destruct (jobs s !! name); [apply core_removeJob|reflexivity]. }
  core_eq C1. cbn.
  match goal with
  | |- context [with_jobs (insert name ?w) ?s2] =>
      set (w0 := w); set (s3 := with_jobs (insert name w0) s2)
  end.
  set (s4 := match runOnInit options with
             | Some true => wrappedOnTick (nextReg s1) s3
             | _ => s3
             end).
  assert (K4 : runCountsKept s3 s4 /\ intervalScopes s4 = intervalScopes s3).
  { subst s4. destruct (runOnInit options) as [[|]|];
      try (split; [apply kept_refl|reflexivity]).
    split; [apply kept_wrappedOnTick|apply intervalScopes_wrappedOnTick]. }
  destruct K4 as [K4 E4].
  set (s5 := if autoStarts options then startJob name s4 else s4).
  assert (K5 : runCountsKept s4 s5 /\ intervalScopes s5 = intervalScopes s4).
  { subst s5. destruct (autoStarts options); [|split; [apply kept_refl|reflexivity]].
    split; [apply kept_startJob|].
    pose proof (core_startJob name s4) as E. unfold core in E. congruence. }
  destruct K5 as [K5 E5].
  pose proof (kept_trans _ _ _ K4 K5) as K35.
  split; [|split].
  - rewrite E5, E4. subst s3. cbn. congruence.
  - intros w' Hl. destruct (K35 name w' Hl) as (w3 & Hw3 & E3).
    subst s3. cbn in Hw3. rewrite lookup_insert_eq in Hw3. injection Hw3 as <-. exact E3.
  - intros m w' Hne Hl. destruct (K35 m w' Hl) as (w3 & Hw3 & E3).
    subst s3. cbn in Hw3. rewrite lookup_insert_ne in Hw3 by congruence.
    destruct (K1 m w3 Hw3) as (w & Hw & Ew). exists w. split; [exact Hw|congruence].
Qed.

Lemma addDailyJob_shape name hour minute onTick options s :
  let s' := addDailyJob name hour minute onTick options s in
  intervalScopes s' = intervalScopes s
  /\ (exists d, dailyScopes s' !! nextReg s = Some d /\ ds_name d = name)
  /\ (forall m w', m <> name -> jobs s' !! m = Some w' ->
        exists w, jobs s !! m = Some w /\ runCount w' = runCount w).
Proof.
  cbn zeta. unfold addDailyJob. cbn.
  match goal with
  | |- context [with_jobs (insert name ?w) ?s2] =>
      set (w0 := w); set (s3 := with_jobs (insert name w0) s2)
  end.
  set (s4 := if autoStarts options then scheduleNext (nextReg s) s3 else s3).
  assert (K4 : runCountsKept s3 s4 /\ core s4 = core s3).
  { subst s4. destruct (autoStarts options); [|split; [apply kept_refl|reflexivity]].
    split; [apply kept_scheduleNext|apply core_scheduleNext]. }
  destruct K4 as [K4 C4]. core_eq C4.
  split; [|split].
  - rewrite H. reflexivity.
  - rewrite H0. subst s3. cbn. rewrite lookup_insert_eq. eauto.
  - intros m w' Hne Hl. destruct (K4 m w' Hl) as (w3 & Hw3 & E3).
    subst s3. cbn in Hw3. rewrite lookup_insert_ne in Hw3 by congruence. eauto.
Qed.

Lemma settle_keeps_report name reg inv o s :
  soleRegistration name reg s ->
  reportsAtMost name reg s -> reportsAtMost name reg (settle inv o s).
Proof.
  intros [Si Sd] H. unfold settle.
  destruct (pending s !! inv) as [[r|r]|]; [| |exact H].
  - unfold wrappedOnTick_resume. cbn.
    destruct (intervalScopes s !! r) as [scope|] eqn:Hs;
      [|eapply report_kept; [apply kept_same_jobs| |exact H]; reflexivity].
    destruct o as [|error];
      [|eapply report_kept; [apply kept_same_jobs| |exact H]; reflexivity].
    cbn. intros w' Hl. unfold countOf. cbn.
    destruct (jobs s !! is_name scope) as [job|] eqn:Hj; cbn in Hl.
    + apply lookup_insert_Some in Hl as [[En <-]|[Hne Hl]].
      * assert (r = reg) as -> by eauto. cbn. rewrite lookup_insert_eq. cbn. lia.
      * specialize (H w' Hl). unfold countOf in H. cbn.
        destruct (decide (r = reg)) as [->|Hr].
        -- rewrite lookup_insert_eq. rewrite Hs in H. cbn. lia.
        -- rewrite lookup_insert_ne by exact Hr. exact H.
    + specialize (H w' Hl). unfold countOf in H. cbn.
      destruct (decide (r = reg)) as [->|Hr].
      * rewrite lookup_insert_eq. rewrite Hs in H. cbn. lia.
      * rewrite lookup_insert_ne by exact Hr. exact H.
  - unfold dailyTimeout_resume. cbn.
    destruct (dailyScopes s !! r) as [scope|] eqn:Hs;
      [|eapply report_kept; [apply kept_same_jobs| |exact H]; reflexivity].
    destruct o as [|error];
      [|eapply report_kept; [apply kept_same_jobs| |exact H]; reflexivity].
    assert (Hne : ds_name scope <> name) by eauto.
    eapply report_kept; [apply kept_scheduleNext| |].
    { pose proof (core_scheduleNext r
        (match jobs s !! ds_name scope with
         | Some job =>
             with_jobs (insert (ds_name scope)
               {| name := Cron.name job; intervalId := intervalId job;
                  interval := interval job; runCount := runCount job + 1;
                  lastRun := Some (now s); nextRun := nextRun job;
                  isRunning := isRunning job; onTick := onTick job;
                  options := options job |}) (Cron.resume inv s)
         | None => Cron.resume inv s
         end)) as E. unfold core in E. injection E as E _. exact E. }
    intros w' Hl. unfold countOf.
    destruct (jobs s !! ds_name scope) as [job|]; cbn in Hl |- *.
    + rewrite lookup_insert_ne in Hl by exact Hne. apply H, Hl.
    + apply H, Hl.
Qed.

Lemma step_keeps_report name reg s e :
  scopesBelow s -> soleRegistration name reg (step s e) ->
  reportsAtMost name reg s -> reportsAtMost name reg (step s e).
Proof.
  intros Hb Hsole H.
  pose proof (step_sole_back name reg s e Hb Hsole) as Hsole0.
  destruct e as [n i a o|n h m a o|n|n|n| | |id|inv out|t]; cbn [step] in *.
  - destruct (addIntervalJob_shape n i a o s) as (Ei & Hself & Hother).
    intros w' Hl. unfold countOf. rewrite Ei.
    destruct (decide (name = n)) as [->|Hne].
    + assert (nextReg s = reg) as <-.
      { destruct Hsole as [Si _]. eapply Si; [rewrite Ei; apply lookup_insert_eq|reflexivity]. }
      rewrite lookup_insert_eq. cbn. rewrite (Hself w' Hl). lia.
    + destruct (Hother name w' Hne Hl) as (w & Hw & Er). rewrite Er.
      specialize (H w Hw). unfold countOf in H.
      destruct (decide (nextReg s = reg)) as [<-|Hr].
      * rewrite lookup_insert_eq. cbn.
        destruct (intervalScopes s !! nextReg s) eqn:Hl'; [|exact H].
        destruct Hb as [Hbi _]. apply Hbi in Hl'. lia.
      * rewrite lookup_insert_ne by exact Hr. exact H.
  - destruct (addDailyJob_shape n h m a o s) as (Ei & (d & Hd & En) & Hother).
    assert (Hne : name <> n).
    { destruct Hsole as [_ Sd]. intros ->. eapply Sd; eauto. }
    intros w' Hl. unfold countOf. rewrite Ei.
    destruct (Hother name w' Hne Hl) as (w & Hw & Er). rewrite Er. apply H, Hw.
  - eapply report_kept; [apply kept_startJob| |exact H].
    pose proof (core_startJob n s) as E. unfold core in E. congruence.
  - eapply report_kept; [apply kept_stopJob| |exact H]. apply intervalScopes_stopJob.
  - eapply report_kept; [apply kept_removeJob| |exact H].
    pose proof (core_removeJob n s) as E. unfold core in E. congruence.
  - eapply report_kept; [apply kept_foldr, kept_stopJob| |exact H].
    pose proof (core_foldr stopJob (map fst (map_to_list (jobs s))) s core_stopJob) as E.
    unfold core in E. injection E as E _. exact E.
  - eapply report_kept; [apply kept_foldr, kept_removeJob| |exact H].
    pose proof (core_foldr removeJob (map fst (map_to_list (jobs s))) s core_removeJob) as E.
    unfold core in E. injection E as E _. exact E.
  - eapply report_kept; [apply kept_fire|apply intervalScopes_fire|exact H].
  - apply settle_keeps_report; assumption.
  - eapply report_kept; [apply kept_same_jobs| |exact H]; reflexivity.
Qed.

End ReportedCount.

(** ** Theorems: maxRuns *)

Section MaxRuns.
Import Cron Examples.

Lemma run_snoc events e s : run (events ++ [e]) s = step (run events s) e.
Proof. unfold run. rewrite fold_left_app. reflexivity. Qed.

Lemma run_app events events' s : run (events ++ events') s = run events' (run events s).
Proof. unfold run. apply fold_left_app. Qed.

Lemma neverOverlaps_app reg events events' s :
  neverOverlaps reg (events ++ events') s = true ->
  neverOverlaps reg events s = true /\ neverOverlaps reg events' (run events s) = true.
Proof.
  revert s. induction events as [|e events IH]; intros s H; [split; [reflexivity|exact H]|].
  cbn in H. apply andb_true_iff in H as [Ho H]. apply IH in H as [H1 H2].
  split; [cbn; rewrite Ho, H1; reflexivity|exact H2].
Qed.

Lemma run_scopesBelow events : scopesBelow (run events init).
Proof.
  induction events as [|e events IH] using rev_ind.
  - split; intros r sc Hl; discriminate Hl.
  - rewrite run_snoc. apply step_keeps_scopes, IH.
Qed.

Lemma run_reportsAtMost name reg events :
  soleRegistration name reg (run events init) ->
  reportsAtMost name reg (run events init).
Proof.
  induction events as [|e events IH] using rev_ind; intros Hsole.
  - intros w Hl. discriminate Hl.
  - rewrite run_snoc in *. apply step_keeps_report; [apply run_scopesBelow|exact Hsole|].
    apply IH. eapply step_sole_back; [apply run_scopesBelow|exact Hsole].
Qed.

Lemma fire_repeating id t s :
  timers s !! id = Some t -> t_kind t = Repeating ->
  fire id s = runCallback (t_callback t) s.
Proof. intros Ht Hk. unfold fire. rewrite Ht, Hk. reflexivity. Qed.

(** C4 (as amended). For an interval job registered with [maxRuns = k],
    [k >= 1], whose invocations do not overlap: the closure's [runCount]
    is the number of invocations that succeeded and never exceeds [k]; the
    [runCount] reported for the job never exceeds [k] when its name was
    registered once; and a tick that finds [runCount >= k] does not call
    the action but stops the job registered under the name. *)
Theorem maxRuns_ceiling (events : list Event) (reg : nat) (scope : IntervalScope) (k : Z) :
  intervalScopes (run events init) !! reg = Some scope ->
  maxRuns (is_options scope) = Some k ->
  1 <= k ->
  neverOverlaps reg events init = true ->
  let s := run events init in
  Z.of_nat (completions reg (trace s)) = is_runCount scope
  /\ is_runCount scope <= k
  /\ (soleRegistration (is_name scope) reg s ->
      forall w, jobs s !! is_name scope = Some w -> runCount w <= k)
  /\ (forall id t,
        timers s !! id = Some t -> t_kind t = Repeating ->
        t_callback t = WrappedOnTick reg -> k <= is_runCount scope ->
        trace (fire id s) = trace s
        /\ (forall w, jobs (fire id s) !! is_name scope = Some w -> isRunning w = false)).
Proof.
  intros Hs Hmax Hk Hn. cbn zeta.
  assert (Hg : ceilingInvariant reg k (run events init)).
  { apply run_keeps_ceiling; [exact Hk|apply init_ceiling|reflexivity|exact Hn]. }
  destruct Hg as (_ & Hc & Hb).
  unfold countsCompletions, countOf in Hc. rewrite Hs in Hc.
  destruct (Hb scope Hs Hmax) as [Hle _].
  split; [exact Hc|]. split; [exact Hle|]. split.
  - intros Hsole w Hw. pose proof (run_reportsAtMost _ _ _ Hsole w Hw) as Hr.
    unfold countOf in Hr. rewrite Hs in Hr. lia.
  - intros id t Ht Hkind Hcb Hreached.
    rewrite (fire_repeating id t _ Ht Hkind), Hcb. cbn.
    destruct (wrappedOnTick_at_ceiling reg k Hk _ scope Hs Hmax Hreached) as (Htr & _ & Hj).
    split; assumption.
Qed.

Lemma maxRuns_ceiling_witness :
  let s := run heartbeat init in
  Z.of_nat (completions 0 (trace s)) = 3
  /\ 3 <= 3
  /\ (soleRegistration "heartbeat" 0 s ->
      forall w, jobs s !! "heartbeat" = Some w -> runCount w <= 3)
  /\ (forall id t,
        timers s !! id = Some t -> t_kind t = Repeating ->
        t_callback t = WrappedOnTick 0 -> 3 <= 3 ->
        trace (fire id s) = trace s
        /\ (forall w, jobs (fire id s) !! "heartbeat" = Some w -> isRunning w = false)).
Proof.
  apply (maxRuns_ceiling heartbeat 0
           {| is_name := "heartbeat"; is_interval := 1000; is_onTick := 7;
              is_options := atMost 3; is_runCount := 3 |} 3).
  - vm_compute. reflexivity.
  - reflexivity.
  - lia.
  - vm_compute. reflexivity.
Defined.

(** In Scenario C the name is registered once, so the bound on the
    reported [runCount] applies: the job reports three runs. *)
Example heartbeat_registered_once :
  soleRegistration "heartbeat" 0 (run heartbeat init)
  /\ (runCount <$> jobs (run heartbeat init) !! "heartbeat") = Some 3.
Proof.
  assert (Ei : intervalScopes (run heartbeat init)
               = {[ 0%nat := {| is_name := "heartbeat"; is_interval := 1000;
                                is_onTick := 7; is_options := atMost 3;
                                is_runCount := 3 |} ]})
    by (vm_compute; reflexivity).
  assert (Ed : dailyScopes (run heartbeat init) = ∅) by (vm_compute; reflexivity).
  split; [split|vm_compute; reflexivity].
  - intros r sc Hl _. rewrite Ei in Hl.
    apply lookup_singleton_Some in Hl as [<- _]. reflexivity.
  - intros r d Hl. rewrite Ed in Hl. discriminate Hl.
Qed.

(** [maxRuns: 0] is no ceiling: the test [maxRuns && ...] is falsy. *)
Example maxRuns_zero_is_unlimited (runCount : Z) :
  reachedMaxRuns (Some 0) runCount = false.
Proof. reflexivity. Qed.

(** Scenario C in full: three calls, three successful runs; the job is
    still marked running until the fourth tick finds the ceiling reached. *)
Example heartbeat_runs :
  invocations 0 (trace (run heartbeat init)) = 3%nat
  /\ (isRunning <$> jobs (run heartbeat init) !! "heartbeat") = Some true
  /\ trace (fire 1 (run heartbeat init)) = trace (run heartbeat init)
  /\ (isRunning <$> jobs (fire 1 (run heartbeat init)) !! "heartbeat") = Some false.
Proof. repeat apply conj; vm_compute; reflexivity. Qed.

(** C4, as stated, fails: with [maxRuns = 1] the action is called twice
    when its first call fails, since only successful runs are counted. *)
Lemma failed_runs_are_not_counted :
  let s := run failingOnce init in
  (maxRuns <$> (is_options <$> intervalScopes s !! 0%nat)) = Some (Some 1)
  /\ neverOverlaps 0 failingOnce init = true
  /\ invocations 0 (trace s) = 2%nat
  /\ completions 0 (trace s) = 1%nat
  /\ (isRunning <$> jobs s !! "job") = Some false.
Proof. cbn zeta. repeat apply conj; vm_compute; reflexivity. Qed.

(** *** runOnInit *)

Lemma completions_split reg inv0 tr :
  completions reg tr
  = (List.length (List.filter (fun o => match o with
                                   | Completed r i => Nat.eqb r reg && Nat.eqb i inv0
                                   | _ => false
                                   end) tr)
     + otherCompletions reg inv0 tr)%nat.
Proof.
  unfold completions, otherCompletions. induction tr as [|o tr IH]; [reflexivity|].
  cbn. destruct o as [a r i|r i|r i e|h e]; cbn; try exact IH.
  destruct (Nat.eqb r reg); cbn; [|exact IH].
  destruct (Nat.eqb i inv0); cbn; lia.
Qed.

Lemma completed_counts reg inv0 tr :
  In (Completed reg inv0) tr ->
  (1 <= List.length (List.filter (fun o => match o with
                                      | Completed r i => Nat.eqb r reg && Nat.eqb i inv0
                                      | _ => false
                                      end) tr))%nat.
Proof.
  induction tr as [|o tr IH]; [intros []|]. intros [->|Hin]; cbn.
  - rewrite !Nat.eqb_refl. cbn. lia.
  - apply IH in Hin. destruct o as [a r i|r i|r i e|h e]; cbn; try lia.
    destruct (Nat.eqb r reg && Nat.eqb i inv0); cbn; lia.
Qed.

Lemma stopJob_keeps_onTick name n cb s :
  (exists w, jobs s !! n = Some w /\ onTick w = cb) ->
  exists w, jobs (stopJob name s) !! n = Some w /\ onTick w = cb.
Proof.
  intros (w & Hw & Hcb). unfold stopJob.
  destruct (jobs s !! name) as [w0|] eqn:Hj; [|eauto].
  destruct (negb (isRunning w0)); [eauto|].
  destruct (decide (n = name)) as [->|Hne].
  - rewrite Hj in Hw. injection Hw as <-.
    destruct (intervalId w0) as [[|i]|]; cbn; rewrite lookup_insert_eq; eauto.
  - destruct (intervalId w0) as [[|i]|]; cbn; rewrite lookup_insert_ne by congruence; eauto.
Qed.

Lemma startJob_keeps_onTick name n cb s :
  (exists w, jobs s !! n = Some w /\ onTick w = cb) ->
  exists w, jobs (startJob name s) !! n = Some w /\ onTick w = cb.
Proof.
  intros (w & Hw & Hcb). unfold startJob.
  destruct (jobs s !! name) as [w0|] eqn:Hj; [|eauto].
  destruct (isRunning w0); [eauto|].
  destruct (decide (n = name)) as [->|Hne].
  - rewrite Hj in Hw. injection Hw as <-. cbn. rewrite lookup_insert_eq. eauto.
  - cbn. rewrite lookup_insert_ne by congruence. eauto.
Qed.

(** With [runOnInit] and a ceiling of at least one run, registration
    calls [wrappedOnTick] once, which calls the action; the job stored
    under the name has this same [wrappedOnTick] as its tick. *)
Lemma addIntervalJob_runOnInit name interval onTick options k s :
  runOnInit options = Some true -> maxRuns options = Some k -> 1 <= k ->
  let s' := addIntervalJob name interval onTick options s in
  trace s' = (trace s ++ [Invoked onTick (nextReg s) (nextInv s)])%list
  /\ pending s' !! nextInv s = Some (InWrappedOnTick (nextReg s))
  /\ (exists scope, intervalScopes s' !! nextReg s = Some scope
        /\ is_options scope = options /\ is_name scope = name)
  /\ (exists w, jobs s' !! name = Some w /\ Cron.onTick w = WrappedOnTick (nextReg s)).
Proof.
  intros Hinit Hmax Hk. cbn zeta. unfold addIntervalJob.
  set (s1 := match jobs s !! name with Some _ => removeJob name s | None => s end).
  assert (C1 : core s1 = core s).
  { subst s1. destruct (jobs s !! name); [apply core_removeJob|reflexivity]. }
  core_eq C1. cbn. rewrite Hinit.
  match goal with
  | |- context [with_jobs (insert name ?w) ?s2] =>
      set (w0 := w); set (s3 := with_jobs (insert name w0) s2)
  end.
  assert (E4 : wrappedOnTick (nextReg s1) s3
               = await (InWrappedOnTick (nextReg s1)) onTick (nextReg s1) s3).
  { unfold wrappedOnTick. subst s3. cbn. rewrite lookup_insert_eq. cbn. rewrite Hmax.
    destruct (reachedMaxRuns (Some k) 0) eqn:Hr; [|reflexivity].
    unfold reachedMaxRuns in Hr. destruct (Z.eqb_spec k 0); [lia|]. cbn in Hr.
    destruct (Z.leb_spec k 0); [lia|discriminate]. }
  rewrite E4. set (s4 := await _ _ _ s3).
  assert (C5 : core (if autoStarts options then startJob name s4 else s4) = core s4).
  { destruct (autoStarts options); [apply core_startJob|reflexivity]. }
  core_eq C5.
  split; [|split; [|split]].
  - rewrite H10. subst s4 s3. cbn. congruence.
  - rewrite H8. subst s4 s3. cbn. rewrite H3, H1. apply lookup_insert_eq.
  - rewrite H5. subst s4 s3. cbn. rewrite H1. rewrite lookup_insert_eq. eauto.
  - assert (J4 : exists w, jobs s4 !! name = Some w /\ Cron.onTick w = WrappedOnTick (nextReg s)).
    { subst s4 s3. cbn. rewrite lookup_insert_eq. exists w0. split; [reflexivity|].
      subst w0. cbn. congruence. }
    destruct (autoStarts options); [apply startJob_keeps_onTick|]; exact J4.
Qed.

Lemma run_keeps_options events s reg scope :
  scopesBelow s -> intervalScopes s !! reg = Some scope ->
  exists scope', intervalScopes (run events s) !! reg = Some scope'
    /\ is_options scope' = is_options scope.
Proof.
  revert s scope. induction events as [|e events IH]; intros s scope Hb Hs; [eauto|].
  cbn. destruct (step_keeps_scopes s e Hb) as (Hb' & Ki & _).
  destruct (Ki reg scope Hs) as (sc' & Hs' & _ & Eo).
  destruct (IH _ sc' Hb' Hs') as (sc'' & Hs'' & Eo'). exists sc''. split; [exact Hs''|congruence].
Qed.

(** C10 (as amended). With [runOnInit: true] and [maxRuns = k], [k >= 1],
    registration makes the initial invocation through the same
    [wrappedOnTick] that the periodic ticks run; when the job's
    invocations do not overlap and the initial one succeeded, at most
    [k - 1] of the later invocations succeed. *)
Theorem runOnInit_counts_toward_maxRuns (pre post : list Event) (name : string)
    (interval : Z) (onTick : nat) (options : CronJobOptions) (k : Z) :
  runOnInit options = Some true ->
  maxRuns options = Some k ->
  1 <= k ->
  let s0 := run pre init in
  let reg := nextReg s0 in
  let inv0 := nextInv s0 in
  let events := (pre ++ Call_addIntervalJob name interval onTick options :: post)%list in
  neverOverlaps reg events init = true ->
  trace (addIntervalJob name interval onTick options s0)
  = (trace s0 ++ [Invoked onTick reg inv0])%list
  /\ pending (addIntervalJob name interval onTick options s0) !! inv0
     = Some (InWrappedOnTick reg)
  /\ (exists w, jobs (addIntervalJob name interval onTick options s0) !! name = Some w
        /\ Cron.onTick w = WrappedOnTick reg)
  /\ (In (Completed reg inv0) (trace (run events init)) ->
      Z.of_nat (otherCompletions reg inv0 (trace (run events init))) <= k - 1).
Proof.
  intros Hinit Hmax Hk. cbn zeta. intros Hn.
  destruct (addIntervalJob_runOnInit name interval onTick options k (run pre init)
              Hinit Hmax Hk) as (Htr & Hp & (scope & Hs & Eo & _) & Hw).
  split; [exact Htr|]. split; [exact Hp|]. split; [exact Hw|].
  intros Hin.
  set (reg := nextReg (run pre init)) in *.
  set (events := (pre ++ Call_addIntervalJob name interval onTick options :: post)%list) in *.
  assert (Hrun : run events init
                 = run post (addIntervalJob name interval onTick options (run pre init))).
  { subst events. rewrite run_app. reflexivity. }
  assert (Hb1 : scopesBelow (addIntervalJob name interval onTick options (run pre init))).
  { change (addIntervalJob name interval onTick options (run pre init))
      with (step (run pre init) (Call_addIntervalJob name interval onTick options)).
    rewrite <- run_snoc. apply run_scopesBelow. }
  destruct (run_keeps_options post _ reg scope Hb1 Hs) as (scope' & Hs' & Eo').
  rewrite <- Hrun in Hs'.
  assert (Hmax' : maxRuns (is_options scope') = Some k) by congruence.
  assert (Hg : ceilingInvariant reg k (run events init)).
  { apply run_keeps_ceiling; [exact Hk|apply init_ceiling|reflexivity|exact Hn]. }
  destruct Hg as (_ & Hc & Hb).
  unfold countsCompletions, countOf in Hc. rewrite Hs' in Hc.
  destruct (Hb scope' Hs' Hmax') as [Hle _].
  rewrite (completions_split reg (nextInv (run pre init))) in Hc.
  apply completed_counts in Hin. lia.
Qed.

Lemma runOnInit_counts_toward_maxRuns_witness :
  trace (addIntervalJob "job" 1000 7%nat (atOnceAtMost 2) init) = [Invoked 7 0 0]
  /\ pending (addIntervalJob "job" 1000 7%nat (atOnceAtMost 2) init) !! 0%nat
     = Some (InWrappedOnTick 0)
  /\ (exists w, jobs (addIntervalJob "job" 1000 7%nat (atOnceAtMost 2) init) !! "job" = Some w
        /\ Cron.onTick w = WrappedOnTick 0)
  /\ (In (Completed 0 0) (trace (run quickStart init)) ->
      Z.of_nat (otherCompletions 0 0 (trace (run quickStart init))) <= 2 - 1).
Proof.
  apply (runOnInit_counts_toward_maxRuns [] (tl quickStart) "job" 1000 7%nat
           (atOnceAtMost 2) 2).
  - reflexivity.
  - reflexivity.
  - lia.
  - vm_compute. reflexivity.
Defined.

(** The run [quickStart] in full: two successful runs, the one made at
    registration included, and the job has stopped itself. *)
Example quickStart_runs :
  trace (run quickStart init)
  = [Invoked 7 0 0; Completed 0 0; Invoked 7 0 1; Completed 0 1]
  /\ getJob "job" (run quickStart init)
     = Some {| info_name := "job"; info_interval := 1000; info_isRunning := false;
               info_runCount := 2; info_lastRun := Some 1010; info_nextRun := None |}.
Proof. split; vm_compute; reflexivity. Qed.

(** C10, as stated, fails when invocations overlap: with [maxRuns = 1]
    and [runOnInit], a periodic tick that comes while the initial
    invocation is in flight calls the action again, and both succeed
    before the next tick stops the job. *)
Lemma overlapping_runs_pass_the_ceiling :
  let s := run slowStart init in
  (maxRuns <$> (is_options <$> intervalScopes s !! 0%nat)) = Some (Some 1)
  /\ trace s = [Invoked 7 0 0; Invoked 7 0 1; Completed 0 0; Completed 0 1]
  /\ In (Completed 0 0) (trace s)
  /\ otherCompletions 0 0 (trace s) = 1%nat
  /\ ~ (Z.of_nat (otherCompletions 0 0 (trace s)) <= 1 - 1)
  /\ getJob "job" s
     = Some {| info_name := "job"; info_interval := 1000; info_isRunning := false;
               info_runCount := 2; info_lastRun := Some 1900; info_nextRun := None |}.
Proof.
  cbn zeta. split; [vm_compute; reflexivity|]. split; [vm_compute; reflexivity|].
  split; [vm_compute; auto|]. split; [vm_compute; reflexivity|].
  split; [vm_compute; intros H; apply H; reflexivity|vm_compute; reflexivity].
Qed.

End MaxRuns.

(** ** Theorems: the sync tick *)

Section SyncFacts.
Import Classify Sync Examples.

(** *** The store *)

Lemma findOne_remove i j store :
  findOne i (remove j store) = if String.eqb i j then None else findOne i store.
Proof.
  unfold findOne, remove, hasId. induction store as [|log store IH]; cbn.
  - destruct (String.eqb i j); reflexivity.
  - destruct (String.eqb_spec (id log) j) as [Ej|Ej]; cbn.
    + rewrite IH. destruct (String.eqb_spec i j) as [Eij|Eij]; [reflexivity|].
      destruct (String.eqb_spec (id log) i); [congruence|reflexivity].
    + destruct (String.eqb_spec (id log) i) as [Ei|Ei]; [|exact IH].
      destruct (String.eqb_spec i j); [congruence|reflexivity].
Qed.

Lemma findOne_app i store doc :
  findOne i (store ++ [doc])
  = match findOne i store with
    | Some l => Some l
    | None => if hasId i doc then Some doc else None
    end.
Proof.
  unfold findOne. induction store as [|log store IH]; cbn; [reflexivity|].
  destruct (hasId i log); [reflexivity|exact IH].
Qed.

Lemma findOne_insert i doc store store' :
  insert doc store = Some store' -> hasId i doc = false ->
  findOne i store' = findOne i store.
Proof.
  unfold insert. destruct (findOne (id doc) store); [discriminate|].
  intros [= <-] Hne. rewrite findOne_app, Hne. destruct (findOne i store); reflexivity.
Qed.

Lemma findOne_insert_keeps i doc store store' l :
  insert doc store = Some store' -> findOne i store = Some l ->
  findOne i store' = Some l.
Proof.
  unfold insert. destruct (findOne (id doc) store); [discriminate|].
  intros [= <-] Hl. rewrite findOne_app, Hl. reflexivity.
Qed.

(** *** Generated ids *)

Lemma endsWith_refl s : endsWith s s = true.
Proof. destruct s; cbn; [reflexivity|]. rewrite Ascii.eqb_refl, String.eqb_refl. reflexivity. Qed.

Lemma endsWith_app a s suffix :
  endsWith s suffix = true -> endsWith (a ++ s) suffix = true.
Proof.
  intros H. induction a as [|c a IH]; [exact H|].
  change (String.eqb (String c (a ++ s)) suffix || endsWith (a ++ s) suffix = true).
  rewrite IH. apply orb_true_r.
Qed.

Lemma prefix_app p s : String.prefix p (p ++ s) = true.
Proof.
  induction p as [|c p IH]; [destruct s; reflexivity|].
  change (String.prefix (String c p) (String c (p ++ s)) = true).
  cbn [String.prefix]. destruct (ascii_dec c c); [exact IH|congruence].
Qed.

Lemma generatedAt_syncErrorId errorType now :
  generatedAt now (syncErrorId errorType now) = true.
Proof.
  unfold generatedAt, syncErrorId. apply andb_true_iff. split; [apply prefix_app|].
  change (endsWith ("sync-error-" ++ (toLowerCase errorType ++ ("-" ++ pretty now)))
            ("-" ++ pretty now) = true)%string.
  apply endsWith_app, endsWith_app, endsWith_refl.
Qed.

Lemma syncErrorLog_hasId i log errorType errorCode errorMessage now :
  generatedAt now i = false ->
  hasId i (syncErrorLog log errorType errorCode errorMessage now) = false.
Proof.
  intros Hg. unfold hasId. cbn. destruct (String.eqb_spec (syncErrorId errorType now) i) as [E|E];
    [|reflexivity].
  rewrite <- E, generatedAt_syncErrorId in Hg. discriminate.
Qed.

(** *** Task lists *)

Lemma forallb_insert {A} (P : A -> bool) (l : list A) (j : nat) (x : A) :
  forallb P l = true -> P x = true -> forallb P (<[j := x]> l) = true.
Proof.
  revert j. induction l as [|y l IH]; intros j Hl Hx; [exact Hl|].
  cbn in Hl. apply andb_true_iff in Hl as [Hy Hl].
  destruct j as [|j]; cbn; [rewrite Hx, Hl; reflexivity|].
  rewrite Hy, IH; auto.
Qed.

Lemma forallb_lookup {A} (P : A -> bool) (l : list A) (j : nat) (x : A) :
  forallb P l = true -> l !! j = Some x -> P x = true.
Proof.
  revert j. induction l as [|y l IH]; intros j Hl Hj; [discriminate|].
  cbn in Hl. apply andb_true_iff in Hl as [Hy Hl].
  destruct j as [|j]; cbn in Hj; [congruence|eauto].
Qed.

Lemma idle_lookup w j t : idle w = true -> tasks w !! j = Some t -> t = Finished.
Proof.
  intros Hi Hj. pose proof (forallb_lookup _ _ _ _ Hi Hj) as H. destruct t; congruence.
Qed.


Lemma run_cons e events w : run (e :: events) w = run events (step w e).
Proof. reflexivity. Qed.

Lemma run_append events events' w :
  run (events ++ events') w = run events' (run events w).
Proof. unfold run. apply fold_left_app. Qed.

(** *** A tick with nothing to sync *)

Lemma step_quiescent w e :
  quiescent w ->
  quiescent (step w e)
  /\ requests (step w e) = requests w
  /\ writes (step w e) = writes w
  /\ store (step w e) = store w.
Proof.
  intros [Hi Hu]. destruct e as [now|j r|j now|b]; cbn [step].
  - unfold checkSyncLog. rewrite Hu. repeat split; assumption.
  - unfold respond. destruct (tasks w !! j) as [t|] eqn:Hj; [|repeat split; assumption].
    rewrite (idle_lookup w j t Hi Hj). repeat split; assumption.
  - unfold resume. destruct (tasks w !! j) as [t|] eqn:Hj; [|repeat split; assumption].
    rewrite (idle_lookup w j t Hi Hj). repeat split; assumption.
  - repeat split; assumption.
Qed.

Lemma run_quiescent events w :
  quiescent w ->
  requests (run events w) = requests w
  /\ writes (run events w) = writes w
  /\ store (run events w) = store w.
Proof.
  revert w. induction events as [|e events IH]; intros w Hq; [repeat split|].
  rewrite run_cons. destruct (step_quiescent w e Hq) as (Hq' & Er & Ew & Es).
  destruct (IH _ Hq') as (Er' & Ew' & Es'). repeat split; congruence.
Qed.

(** C1 (as amended). [checkSyncLog] does not look at the connectivity
    state: online or offline, it sends one request per unsynced log it
    reads and writes nothing itself, and the job action that calls it
    always returns normally.  It is a no-op, whatever follows, when no log
    is unsynced and no earlier work is in progress.  The offline state is
    used afterwards: a request that fails while offline is classified as
    [NetworkOfflineError] with code [SYNC_NET_001]. *)
Theorem tick_is_not_gated (w : World) (now : Z) :
  requests (checkSyncLog now w)
  = (requests w ++ map (logRequest now) (findUnsynced (store w)))%list
  /\ store (checkSyncLog now w) = store w
  /\ writes (checkSyncLog now w) = writes w
  /\ fst (checkSyncLogJob now w) = Cron.Fulfilled
  /\ (quiescent w ->
      forall events,
        requests (run (Tick now :: events) w) = requests w
        /\ writes (run (Tick now :: events) w) = writes w
        /\ store (run (Tick now :: events) w) = store w)
  /\ (onLine w = false ->
      forall i log error,
        tasks w !! i = Some (Requested log) ->
        tasks (respond i (Failed error) w) !! i
        = Some (CheckingSimilar log "NetworkOfflineError" "SYNC_NET_001"
                  (getErrorMessage error "NetworkOfflineError"))).
Proof.
  split; [|split; [|split; [|split; [|split]]]].
  - unfold checkSyncLog. destruct (findUnsynced (store w)); cbn; [|reflexivity].
    rewrite app_nil_r. reflexivity.
  - unfold checkSyncLog. destruct (findUnsynced (store w)); reflexivity.
  - unfold checkSyncLog. destruct (findUnsynced (store w)); reflexivity.
  - reflexivity.
  - intros Hq events. apply run_quiescent, Hq.
  - intros Hoff i log error Hi. unfold respond. rewrite Hi, Hoff. cbn.
    apply list_lookup_insert_eq. eapply lookup_lt_Some; eauto.
Qed.

(** C1, as stated, fails: a tick that starts offline sends a request for
    the unsynced log, and when the request fails a new log is inserted. *)
Lemma offline_tick_calls_and_writes :
  let w := world [cameraLog "log-1"] false in
  let w' := run outage w in
  onLine w = false
  /\ map req_id (requests w') = ["log-1"]
  /\ map id (store w') = ["log-1"; "sync-error-networkofflineerror-1001"]
  /\ List.length (writes w') = 1%nat
  /\ idle w' = true.
Proof. cbn zeta. repeat apply conj; vm_compute; reflexivity. Qed.

(** *** Deduplication *)

(** When a log with the triple is among the unsynced logs at the moment
    the handler reads them, the handler creates nothing. *)
Lemma similar_error_is_skipped w i log errorType errorCode errorMessage now :
  tasks w !! i = Some (CheckingSimilar log errorType errorCode errorMessage) ->
  hasSimilarError (findUnsynced (store w)) errorType errorCode "AppComponent" = true ->
  store (resume i now w) = store w
  /\ writes (resume i now w) = writes w
  /\ tasks (resume i now w) !! i = Some Finished.
Proof.
  intros Hi Hs. unfold resume. rewrite Hi, Hs. cbn.
  repeat split. apply list_lookup_insert_eq. eapply lookup_lt_Some; eauto.
Qed.

(** C2: what the code does when two requests of one tick fail and both
    handlers read the unsynced logs before either inserts.  Both find no
    similar log and both insert: two unsynced logs carry the triple
    (NetworkOfflineError, SYNC_NET_001, AppComponent) once the tick is
    complete.  Handled one after the other, only one is inserted. *)
Theorem dedup_check_is_not_atomic :
  let w := world [cameraLog "log-1"; cameraLog "log-2"] true in
  countSimilar "NetworkOfflineError" "SYNC_NET_001" "AppComponent" (store w) = 0%nat
  /\ idle (run racing w) = true
  /\ map id (store (run racing w))
     = ["log-1"; "log-2"; "sync-error-networkofflineerror-1001";
        "sync-error-networkofflineerror-1002"]
  /\ countSimilar "NetworkOfflineError" "SYNC_NET_001" "AppComponent"
       (findUnsynced (store (run racing w))) = 2%nat
  /\ idle (run oneByOne w) = true
  /\ countSimilar "NetworkOfflineError" "SYNC_NET_001" "AppComponent"
       (findUnsynced (store (run oneByOne w))) = 1%nat.
Proof. cbn zeta. repeat apply conj; vm_compute; reflexivity. Qed.


(** *** Deletion after a successful sync *)

(** Replacing one task: the invariant holds again when the new task
    creates nothing with id [i], and keeps deleting [i] if the old one
    did and [i] is still stored. *)
Lemma beingDeleted_replace i w w' j told t :
  tasks w !! j = Some told ->
  tasks w' = <[j := t]> (tasks w) ->
  harmless i t = true ->
  (findOne i (store w') <> None ->
     findOne i (store w) <> None /\ (deletes i told -> deletes i t)) ->
  beingDeleted i w -> beingDeleted i w'.
Proof.
  intros Hj Et Hh Hst [Hc Hd]. split.
  - unfold notBeingCreated. rewrite Et. apply forallb_insert; assumption.
  - intros Hf. destruct (Hst Hf) as [Hf0 Hkeep].
    destruct (Hd Hf0) as (j0 & Hj0). rewrite Et.
    destruct (decide (j0 = j)) as [->|Hne].
    + exists j. rewrite list_lookup_insert_eq by (eapply lookup_lt_Some; eauto).
      rewrite Hj in Hj0.
      assert (Hdel : deletes i told) by (destruct Hj0 as [[= ->]|[= ->]]; [left|right]; reflexivity).
      destruct (Hkeep Hdel) as [->| ->]; auto.
    + exists j0. rewrite list_lookup_insert_ne by congruence. exact Hj0.
Qed.

Lemma gone_replace i w w' j t :
  tasks w' = <[j := t]> (tasks w) ->
  harmless i t = true ->
  (findOne i (store w) = None -> findOne i (store w') = None) ->
  gone i w -> gone i w'.
Proof.
  intros Et Hh Hst [Hc Hn]. split; [|auto].
  unfold notBeingCreated. rewrite Et. apply forallb_insert; assumption.
Qed.

Lemma notBeingCreated_lookup i w j doc :
  notBeingCreated i w = true -> tasks w !! j = Some (Creating doc) -> hasId i doc = false.
Proof.
  intros Hc Hj. pose proof (forallb_lookup _ _ _ _ Hc Hj) as H.
  cbn in H. apply negb_true_iff in H. exact H.
Qed.

Lemma notBeingCreated_tick i now w :
  notBeingCreated i w = true -> notBeingCreated i (checkSyncLog now w) = true.
Proof.
  intros Hc. unfold checkSyncLog. destruct (findUnsynced (store w)) as [|l ls]; [exact Hc|].
  unfold notBeingCreated in *. cbn [tasks]. rewrite forallb_app, Hc. cbn.
  induction ls as [|l' ls IH]; cbn; auto.
Qed.

Lemma step_keeps_beingDeleted i w e :
  (forall j now, e = Resumes j now -> generatedAt now i = false) ->
  beingDeleted i w -> beingDeleted i (step w e).
Proof.
  intros Hfresh Hb. destruct e as [now|j r|j now|b]; cbn [step].
  - destruct Hb as [Hc Hd]. split; [apply notBeingCreated_tick, Hc|].
    unfold checkSyncLog. destruct (findUnsynced (store w)) as [|l ls]; [exact Hd|].
    cbn [store tasks]. intros Hf. destruct (Hd Hf) as (j0 & Hj0). exists j0.
    destruct Hj0 as [Hj0|Hj0]; [left|right]; apply lookup_app_l_Some; exact Hj0.
  - unfold respond. destruct (tasks w !! j) as [[log|i'|i'|log ty c m|doc|]|] eqn:Hj; try exact Hb.
    destruct r as [|error].
    + eapply beingDeleted_replace; [exact Hj|reflexivity|reflexivity| |exact Hb].
      intros Hf. split; [exact Hf|]. intros [[=]|[=]].
    + eapply beingDeleted_replace; [exact Hj|reflexivity|reflexivity| |exact Hb].
      intros Hf. split; [exact Hf|]. intros [[=]|[=]].
  - unfold resume. destruct (tasks w !! j) as [[log|i'|i'|log ty c m|doc|]|] eqn:Hj; try exact Hb.
    + destruct (findOne i' (store w)) as [l|] eqn:Hf'.
      * eapply beingDeleted_replace; [exact Hj|reflexivity|reflexivity| |exact Hb].
        intros Hf. split; [exact Hf|]. intros [[= ->]|[=]]. right. reflexivity.
      * eapply beingDeleted_replace; [exact Hj|reflexivity|reflexivity| |exact Hb].
        intros Hf. split; [exact Hf|]. intros [[= ->]|[=]]. exfalso. apply Hf. exact Hf'.
    + eapply beingDeleted_replace; [exact Hj|reflexivity|reflexivity| |exact Hb].
      unfold with_task, with_store; cbn [store tasks writes]. rewrite findOne_remove. destruct (String.eqb_spec i i') as [->|Hne]; [congruence|].
      intros Hf. split; [exact Hf|]. intros [[=]|[= ->]]. congruence.
    + destruct (hasSimilarError _ _ _ _).
      * eapply beingDeleted_replace; [exact Hj|reflexivity|reflexivity| |exact Hb].
        intros Hf. split; [exact Hf|]. intros [[=]|[=]].
      * eapply beingDeleted_replace; [exact Hj|reflexivity| | |exact Hb].
        -- cbn [harmless]. rewrite syncErrorLog_hasId; [reflexivity|]. eapply Hfresh; reflexivity.
        -- intros Hf. split; [exact Hf|]. intros [[=]|[=]].
    + pose proof (notBeingCreated_lookup i w j doc (proj1 Hb) Hj) as Hdoc.
      destruct (insert doc (store w)) as [store'|] eqn:Hins.
      * eapply beingDeleted_replace; [exact Hj|reflexivity|reflexivity| |exact Hb].
        unfold with_task, with_store; cbn [store tasks writes]. rewrite (findOne_insert i doc _ _ Hins Hdoc).
        intros Hf. split; [exact Hf|]. intros [[=]|[=]].
      * eapply beingDeleted_replace; [exact Hj|reflexivity|reflexivity| |exact Hb].
        intros Hf. split; [exact Hf|]. intros [[=]|[=]].
  - exact Hb.
Qed.

Lemma step_keeps_gone i w e :
  (forall j now, e = Resumes j now -> generatedAt now i = false) ->
  gone i w -> gone i (step w e).
Proof.
  intros Hfresh Hg. destruct e as [now|j r|j now|b]; cbn [step].
  - destruct Hg as [Hc Hn]. split; [apply notBeingCreated_tick, Hc|].
    unfold checkSyncLog. destruct (findUnsynced (store w)); exact Hn.
  - unfold respond. destruct (tasks w !! j) as [[log|i'|i'|log ty c m|doc|]|] eqn:Hj; try exact Hg.
    destruct r as [|error]; (eapply (gone_replace i w); [reflexivity|reflexivity| |exact Hg]); auto.
  - unfold resume. destruct (tasks w !! j) as [[log|i'|i'|log ty c m|doc|]|] eqn:Hj; try exact Hg.
    + destruct (findOne i' (store w));
        (eapply (gone_replace i w); [reflexivity|reflexivity| |exact Hg]); auto.
    + eapply (gone_replace i w); [reflexivity|reflexivity| |exact Hg].
      unfold with_task, with_store; cbn [store tasks writes]. rewrite findOne_remove. intros ->. destruct (String.eqb i i'); reflexivity.
    + destruct (hasSimilarError _ _ _ _).
      * eapply (gone_replace i w); [reflexivity|reflexivity| |exact Hg]; auto.
      * eapply (gone_replace i w); [reflexivity| | |exact Hg]; auto.
        cbn [harmless]. rewrite syncErrorLog_hasId; [reflexivity|]. eapply Hfresh; reflexivity.
    + pose proof (notBeingCreated_lookup i w j doc (proj1 Hg) Hj) as Hdoc.
      destruct (insert doc (store w)) as [store'|] eqn:Hins.
      * eapply (gone_replace i w); [reflexivity|reflexivity| |exact Hg].
        unfold with_task, with_store; cbn [store tasks writes]. rewrite (findOne_insert i doc _ _ Hins Hdoc). auto.
      * eapply (gone_replace i w); [reflexivity|reflexivity| |exact Hg]; auto.
  - exact Hg.
Qed.

Lemma step_keeps_storedOrRemoved i w e :
  storedOrRemoved i w -> storedOrRemoved i (step w e).
Proof.
  intros Hs. destruct e as [now|j r|j now|b]; cbn [step].
  - unfold checkSyncLog. destruct (findUnsynced (store w)); exact Hs.
  - unfold respond. destruct (tasks w !! j) as [[log|i'|i'|log ty c m|doc|]|]; try exact Hs.
    destruct r; exact Hs.
  - unfold resume. destruct (tasks w !! j) as [[log|i'|i'|log ty c m|doc|]|]; try exact Hs.
    + destruct (findOne i' (store w)); exact Hs.
    + unfold storedOrRemoved. unfold with_task, with_store; cbn [store tasks writes]. rewrite findOne_remove.
      destruct (String.eqb_spec i i') as [->|Hne].
      * right. apply in_or_app. right. left. reflexivity.
      * destruct Hs as [Hs|Hs]; [left; exact Hs|right; apply in_or_app; left; exact Hs].
    + destruct (hasSimilarError _ _ _ _); exact Hs.
    + destruct (insert doc (store w)) as [store'|] eqn:Hins; [|exact Hs].
      unfold storedOrRemoved, with_task, with_store. cbn [store tasks writes]. destruct Hs as [Hs|Hs].
      * left. destruct (findOne i (store w)) as [l|] eqn:Hl; [|congruence].
        rewrite (findOne_insert_keeps i doc _ _ l Hins Hl). discriminate.
      * right. apply in_or_app. left. exact Hs.
  - exact Hs.
Qed.

Lemma neverGenerated_cons i e events :
  neverGenerated i (e :: events) = true ->
  (forall j now, e = Resumes j now -> generatedAt now i = false)
  /\ neverGenerated i events = true.
Proof.
  unfold neverGenerated, clockReadings. destruct e as [now|j r|j now|b]; cbn;
    try (intros H; split; [intros ? ? [=]|exact H]).
  intros H. apply andb_true_iff in H as [H1 H2]. split; [|exact H2].
  intros j' now' [= _ <-]. apply negb_true_iff, H1.
Qed.

Lemma neverGenerated_app i events events' :
  neverGenerated i (events ++ events') = true ->
  neverGenerated i events = true /\ neverGenerated i events' = true.
Proof.
  unfold neverGenerated, clockReadings. rewrite omap_app, forallb_app.
  apply andb_true_iff.
Qed.

Lemma run_keeps_beingDeleted i events w :
  neverGenerated i events = true -> beingDeleted i w -> beingDeleted i (run events w).
Proof.
  revert w. induction events as [|e events IH]; intros w Hn Hb; [exact Hb|].
  apply neverGenerated_cons in Hn as [He Hn]. rewrite run_cons.
  apply IH; [exact Hn|]. apply step_keeps_beingDeleted; assumption.
Qed.

Lemma run_keeps_gone i events w :
  neverGenerated i events = true -> gone i w -> gone i (run events w).
Proof.
  revert w. induction events as [|e events IH]; intros w Hn Hb; [exact Hb|].
  apply neverGenerated_cons in Hn as [He Hn]. rewrite run_cons.
  apply IH; [exact Hn|]. apply step_keeps_gone; assumption.
Qed.

Lemma run_keeps_storedOrRemoved i events w :
  storedOrRemoved i w -> storedOrRemoved i (run events w).
Proof.
  revert w. induction events as [|e events IH]; intros w Hs; [exact Hs|].
  rewrite run_cons. apply IH, step_keeps_storedOrRemoved, Hs.
Qed.

(** C3. When the request made for an unsynced log is accepted, the log is
    deleted: once the works in progress have run to their end the store
    holds no log with its id, and later ticks do not bring it back.  Ids
    are taken to be fresh, as the data model requires: no work in progress
    is creating a log with this id, and no later failure handler generates
    it. *)
Theorem synced_log_stays_deleted (w : World) (i : nat) (log : ExceptionLog)
    (rest later : list Event) :
  tasks w !! i = Some (Requested log) ->
  notBeingCreated (id log) w = true ->
  neverGenerated (id log) (rest ++ later) = true ->
  idle (run (Responds i Accepted :: rest) w) = true ->
  let w' := run (Responds i Accepted :: rest) w in
  findOne (id log) (store w') = None
  /\ findOne (id log) (store (run later w')) = None
  /\ (findOne (id log) (store w) <> None -> In (Removed (id log)) (writes w')).
Proof.
  intros Hi Hc Hn Hidle. cbn zeta.
  apply neverGenerated_app in Hn as [Hrest Hlater].
  rewrite run_cons in *. cbn [step] in *.
  assert (H1 : beingDeleted (id log) (respond i Accepted w)).
  { unfold respond. rewrite Hi. split.
    - unfold notBeingCreated. cbn. apply forallb_insert; [exact Hc|reflexivity].
    - intros _. exists i. left. cbn.
      apply list_lookup_insert_eq. eapply lookup_lt_Some; eauto. }
  pose proof (run_keeps_beingDeleted _ rest _ Hrest H1) as [Hc2 Hd2].
  assert (Hgone : findOne (id log) (store (run rest (respond i Accepted w))) = None).
  { destruct (findOne (id log) (store (run rest (respond i Accepted w)))) eqn:Hf;
      [|reflexivity].
    destruct Hd2 as (j & [Hj|Hj]); [congruence| |];
      apply (idle_lookup _ _ _ Hidle) in Hj; discriminate. }
  split; [exact Hgone|]. split.
  - apply (run_keeps_gone (id log) later); [exact Hlater|]. split; assumption.
  - intros Hstored.
    assert (H0 : storedOrRemoved (id log) (respond i Accepted w)).
    { left. unfold respond. rewrite Hi. exact Hstored. }
    destruct (run_keeps_storedOrRemoved _ rest _ H0) as [Hs|Hs]; [congruence|exact Hs].
Qed.

Lemma synced_log_stays_deleted_witness :
  let w := checkSyncLog 1000 (world [cameraLog "log-1"] true) in
  let w' := run (Responds 0 Accepted :: deletion) w in
  findOne "log-1" (store w') = None
  /\ findOne "log-1" (store (run laterTicks w')) = None
  /\ (findOne "log-1" (store w) <> None -> In (Removed "log-1") (writes w')).
Proof.
  apply (synced_log_stays_deleted
           (checkSyncLog 1000 (world [cameraLog "log-1"] true)) 0 (cameraLog "log-1")
           deletion laterTicks); vm_compute; reflexivity.
Defined.

End SyncFacts.

(** ** Theorems: the daily trigger, further *)

Section DailyMore.
Import Cron Examples CronMore.

Lemma dayOf_bounds (t : Z) :
  dayOf t * MS_PER_DAY <= t < (dayOf t + 1) * MS_PER_DAY.
Proof.
  unfold dayOf, MS_PER_DAY.
  pose proof (Z.mul_div_le t (24 * 60 * 60 * 1000) ltac:(lia)).
  pose proof (Z.mul_succ_div_gt t (24 * 60 * 60 * 1000) ltac:(lia)). lia.
Qed.

(** X1. For a time of day [hour:minute], [getNextRun] is the earliest
    [hour:minute:00.000] strictly after the current time: it lies in the
    future, at most 24 hours away, and no day's [hour:minute] falls
    between now and it. *)
Theorem getNextRun_is_next_occurrence (now hour minute : Z) :
  0 <= hour < 24 -> 0 <= minute < 60 ->
  now < getNextRun now hour minute <= now + MS_PER_DAY
  /\ (exists day, getNextRun now hour minute = dateAt day hour minute)
  /\ (forall day, now < dateAt day hour minute ->
        getNextRun now hour minute <= dateAt day hour minute).
Proof.
  intros Hh Hm. pose proof (dayOf_bounds now) as Hd.
  unfold getNextRun. set (today := dayOf now) in *.
  assert (Hday : forall d, dateAt (d + 1) hour minute = dateAt d hour minute + MS_PER_DAY)
    by (intros d; unfold dateAt; lia).
  assert (Hoff : 0 <= hour * MS_PER_HOUR + minute * MS_PER_MINUTE < MS_PER_DAY)
    by (unfold MS_PER_HOUR, MS_PER_MINUTE, MS_PER_DAY; lia).
  assert (Hmono : forall d d', d <= d' -> dateAt d hour minute <= dateAt d' hour minute)
    by (intros d d' Hle; unfold dateAt, MS_PER_DAY; nia).
  destruct (Z.leb_spec (dateAt today hour minute) now) as [Hpast|Hfut].
  - split; [|split].
    + unfold dateAt in *. lia.
    + exists (today + 1). symmetry. apply Hday.
    + intros day Hlt. rewrite <- Hday. apply Hmono.
      destruct (Z.le_gt_cases (today + 1) day) as [H|H]; [exact H|].
      assert (day <= today) by lia.
      pose proof (Hmono day today H0). lia.
  - split; [|split].
    + unfold dateAt in *. lia.
    + exists today. reflexivity.
    + intros day Hlt. apply Hmono.
      destruct (Z.le_gt_cases today day) as [H|H]; [exact H|].
      assert (Hle : day + 1 <= today) by lia.
      pose proof (Hmono (day + 1) today Hle) as Hm'. rewrite Hday in Hm'.
      unfold dateAt in *. lia.
Qed.

Lemma getNextRun_is_next_occurrence_witness :
  dateAt 19000 9 5 < getNextRun (dateAt 19000 9 5) 9 0 <= dateAt 19000 9 5 + MS_PER_DAY
  /\ (exists day, getNextRun (dateAt 19000 9 5) 9 0 = dateAt day 9 0)
  /\ (forall day, dateAt 19000 9 5 < dateAt day 9 0 ->
        getNextRun (dateAt 19000 9 5) 9 0 <= dateAt day 9 0).
Proof. apply (getNextRun_is_next_occurrence (dateAt 19000 9 5) 9 0); lia. Defined.

End DailyMore.

(** ** Theorems: job control *)

Section JobControl.
Import Cron Examples CronMore.

Lemma stopJob_jobs name s :
  jobs (stopJob name s)
  = match jobs s !! name with
    | Some w => if isRunning w then <[name := stopped w]> (jobs s) else jobs s
    | None => jobs s
    end.
Proof.
  unfold stopJob. destruct (jobs s !! name) as [w|]; [|reflexivity].
  destruct (isRunning w); [|reflexivity]. cbn.
  unfold stopped. destruct (intervalId w) as [[|i]|]; reflexivity.
Qed.

Lemma stopJob_timers name s :
  timers (stopJob name s)
  = match jobs s !! name with
    | Some w =>
        if isRunning w
        then match intervalId w with
             | Some (S i) => delete (S i) (timers s)
             | _ => timers s
             end
        else timers s
    | None => timers s
    end.
Proof.
  unfold stopJob. destruct (jobs s !! name) as [w|]; [|reflexivity].
  destruct (isRunning w); [|reflexivity]. cbn.
  destruct (intervalId w) as [[|i]|]; reflexivity.
Qed.

Lemma stopJob_lookup_stopped name n s w :
  jobs s !! n = Some w -> isRunning w = false -> jobs (stopJob name s) !! n = Some w.
Proof.
  intros Hn Hr. rewrite stopJob_jobs. destruct (jobs s !! name) as [w0|] eqn:Hj; [|exact Hn].
  destruct (isRunning w0) eqn:Hr0; [|exact Hn].
  rewrite lookup_insert_ne; [exact Hn|]. intros ->. congruence.
Qed.

Lemma stopJob_lookup_ne name n s :
  n <> name -> jobs (stopJob name s) !! n = jobs s !! n.
Proof.
  intros Hne. rewrite stopJob_jobs. destruct (jobs s !! name) as [w0|]; [|reflexivity].
  destruct (isRunning w0); [|reflexivity]. apply lookup_insert_ne. congruence.
Qed.

Lemma stopJob_not_running name s w :
  jobs (stopJob name s) !! name = Some w -> isRunning w = false.
Proof.
  rewrite stopJob_jobs. destruct (jobs s !! name) as [w0|] eqn:Hj; [|congruence].
  destruct (isRunning w0) eqn:Hr.
  - rewrite lookup_insert_eq. intros [= <-]. reflexivity.
  - rewrite Hj. intros [= <-]. exact Hr.
Qed.

Lemma stopJob_is_Some name n s :
  is_Some (jobs (stopJob name s) !! n) <-> is_Some (jobs s !! n).
Proof.
  rewrite stopJob_jobs. destruct (jobs s !! name) as [w0|] eqn:Hj; [|reflexivity].
  destruct (isRunning w0); [|reflexivity].
  destruct (decide (n = name)) as [->|Hne].
  - rewrite lookup_insert_eq, Hj. split; eauto.
  - rewrite lookup_insert_ne by congruence. reflexivity.
Qed.

(** X2. [startJob] and [stopJob] are idempotent, and with [removeJob]
    they leave the scheduler untouched for a name that is not registered:
    starting a running job or stopping a stopped one changes nothing. *)
Theorem start_stop_idempotent (name : string) (s : State) :
  stopJob name (stopJob name s) = stopJob name s
  /\ startJob name (startJob name s) = startJob name s
  /\ (jobs s !! name = None ->
      stopJob name s = s /\ startJob name s = s /\ removeJob name s = s).
Proof.
  split; [|split].
  - unfold stopJob at 2 3. destruct (jobs s !! name) as [w|] eqn:Hj.
    + destruct (isRunning w) eqn:Hr; cbn.
      * destruct (intervalId w) as [[|i]|]; unfold stopJob; cbn;
          rewrite lookup_insert_eq; reflexivity.
      * unfold stopJob. rewrite Hj, Hr. reflexivity.
    + unfold stopJob. rewrite Hj. reflexivity.
  - unfold startJob at 2 3. destruct (jobs s !! name) as [w|] eqn:Hj.
    + destruct (isRunning w) eqn:Hr; cbn.
      * unfold startJob. rewrite Hj, Hr. reflexivity.
      * unfold startJob. cbn. rewrite lookup_insert_eq. reflexivity.
    + unfold startJob. rewrite Hj. reflexivity.
  - intros Hj. unfold stopJob, startJob, removeJob. rewrite Hj. auto.
Qed.

(** X3. Starting a stopped job and stopping it again leaves no trace but
    a used timer id: the job table and the live timers are as before. *)
Theorem start_then_stop_restores (name : string) (s : State) (w : CronJobWrapper) :
  jobs s !! name = Some w ->
  isRunning w = false -> intervalId w = None -> nextRun w = None ->
  timers s !! nextTimer s = None -> (0 < nextTimer s)%nat ->
  jobs (stopJob name (startJob name s)) = jobs s
  /\ timers (stopJob name (startJob name s)) = timers s
  /\ nextTimer (stopJob name (startJob name s)) = S (nextTimer s).
Proof.
  intros Hj Hr Hi Hn Hfresh Hpos.
  unfold startJob. rewrite Hj, Hr. cbn.
  unfold stopJob. cbn. rewrite lookup_insert_eq. cbn.
  destruct (nextTimer s) as [|k] eqn:Hk; [lia|]. cbn.
  split; [|split; [|reflexivity]].
  - rewrite insert_insert_eq. apply insert_id. rewrite Hj. f_equal.
    destruct w; cbn in *; subst; reflexivity.
  - rewrite delete_insert_eq. apply delete_id. exact Hfresh.
Qed.

Lemma start_then_stop_restores_witness :
  let s := addIntervalJob "manual-sync" 300000 0%nat
             {| autoStart := Some false; runOnInit := None;
                maxRuns := None; onError := None |} init in
  jobs (stopJob "manual-sync" (startJob "manual-sync" s)) = jobs s
  /\ timers (stopJob "manual-sync" (startJob "manual-sync" s)) = timers s
  /\ nextTimer (stopJob "manual-sync" (startJob "manual-sync" s)) = S (nextTimer s).
Proof.
  apply (start_then_stop_restores "manual-sync"
           (addIntervalJob "manual-sync" 300000 0%nat
              {| autoStart := Some false; runOnInit := None;
                 maxRuns := None; onError := None |} init)
           {| name := "manual-sync"; intervalId := None; interval := 300000;
              runCount := 0; lastRun := None; nextRun := None; isRunning := false;
              onTick := WrappedOnTick 0;
              options := {| autoStart := Some false; runOnInit := None;
                            maxRuns := None; onError := None |} |});
    vm_compute; first [reflexivity | lia].
Defined.

Lemma removeJob_lookup_eq name s : jobs (removeJob name s) !! name = None.
Proof.
  unfold removeJob. destruct (jobs s !! name) eqn:Hj; [|exact Hj].
  cbn. apply lookup_delete_eq.
Qed.

(** X4. [removeJob(name)] leaves no job under [name], cancels the timer
    the job held if it was running, and touches no other job. *)
Theorem removeJob_removes (name : string) (s : State) :
  jobs (removeJob name s) !! name = None
  /\ getJob name (removeJob name s) = None
  /\ getNextRunTime name (removeJob name s) = None
  /\ (forall other, other <> name ->
        jobs (removeJob name s) !! other = jobs s !! other)
  /\ (forall w id, jobs s !! name = Some w -> isRunning w = true ->
        intervalId w = Some id -> (0 < id)%nat ->
        timers (removeJob name s) !! id = None).
Proof.
  pose proof (removeJob_lookup_eq name s) as Hgone.
  split; [exact Hgone|]. split; [unfold getJob; rewrite Hgone; reflexivity|].
  split; [unfold getNextRunTime; rewrite Hgone; reflexivity|]. split.
  - intros other Hne. unfold removeJob. destruct (jobs s !! name); [|reflexivity].
    cbn. rewrite lookup_delete_ne by congruence. apply stopJob_lookup_ne, Hne.
  - intros w id Hj Hr Hi Hpos. unfold removeJob. rewrite Hj.
    change (timers (with_jobs (delete name) (stopJob name s))) with (timers (stopJob name s)).
    rewrite stopJob_timers, Hj, Hr, Hi. destruct id as [|i]; [lia|]. apply lookup_delete_eq.
Qed.

Lemma foldr_stopJob_lookup (names : list string) (s : State) (n : string) (w : CronJobWrapper) :
  jobs (foldr stopJob s names) !! n = Some w ->
  is_Some (jobs s !! n) /\ (n ∈ names -> isRunning w = false).
Proof.
  revert w. induction names as [|m names IH]; intros w Hl; cbn in *.
  - split; [eauto|]. intros Hin. inversion Hin.
  - destruct (decide (n = m)) as [->|Hne].
    + split.
      * assert (Hs : is_Some (jobs (foldr stopJob s names) !! m))
          by (apply (proj1 (stopJob_is_Some m m _)); eauto).
        destruct Hs as [w' Hw']. exact (proj1 (IH _ Hw')).
      * intros _. eapply stopJob_not_running. exact Hl.
    + rewrite stopJob_lookup_ne in Hl by exact Hne. destruct (IH _ Hl) as [Hs Hr].
      split; [exact Hs|]. intros Hin. apply Hr.
      apply elem_of_cons in Hin as [?|?]; [congruence|assumption].
Qed.

Lemma foldr_stopJob_is_Some (names : list string) (s : State) (n : string) :
  is_Some (jobs (foldr stopJob s names) !! n) <-> is_Some (jobs s !! n).
Proof.
  induction names as [|m names IH]; cbn; [reflexivity|].
  rewrite stopJob_is_Some. exact IH.
Qed.

Lemma key_in_names (s : State) (n : string) (w : CronJobWrapper) :
  jobs s !! n = Some w -> n ∈ map fst (map_to_list (jobs s)).
Proof.
  intros Hl. apply list_elem_of_fmap. exists (n, w). split; [reflexivity|].
  apply elem_of_map_to_list. exact Hl.
Qed.

Lemma stopAll_not_running (s : State) name w :
  jobs (stopAll s) !! name = Some w -> isRunning w = false.
Proof.
  intros Hl. unfold stopAll in Hl.
  destruct (foldr_stopJob_lookup _ _ _ _ Hl) as [[w0 Hw0] Hr].
  apply Hr. eapply key_in_names; eauto.
Qed.

(** X5. After [stopAll()] every registered job is still registered and
    none is running: [getRunningJobsCount()] is 0.  No job is left
    running in whatever order the jobs are visited. *)
Theorem stopAll_stops_every_job (s : State) :
  (forall name, is_Some (jobs (stopAll s) !! name) <-> is_Some (jobs s !! name))
  /\ (forall name w, jobs (stopAll s) !! name = Some w -> isRunning w = false)
  /\ getRunningJobsCount (stopAll s) = 0%nat
  /\ getRunningJobsCount (ngOnDestroy s) = 0%nat
  /\ (forall names, (forall n, is_Some (jobs s !! n) -> n ∈ names) ->
      forall n w, jobs (foldr stopJob s names) !! n = Some w -> isRunning w = false).
Proof.
  pose proof (stopAll_not_running s) as Hall.
  assert (Hcount : getRunningJobsCount (stopAll s) = 0%nat).
  { unfold getRunningJobsCount.
    destruct (filter _ (map_to_list (jobs (stopAll s)))) as [|[n w] l] eqn:Hf; [reflexivity|].
    assert (Hin : (n, w) ∈ filter (fun kv => isRunning (snd kv) = true)
                                  (map_to_list (jobs (stopAll s))))
      by (rewrite Hf; left).
    apply list_elem_of_filter in Hin as [Hrun Hin]. cbn in Hrun.
    apply elem_of_map_to_list in Hin. apply Hall in Hin. congruence. }
  split; [|split; [exact Hall|split; [exact Hcount|split; [exact Hcount|]]]].
  - intros name. unfold stopAll. apply foldr_stopJob_is_Some.
  - intros names Hcover n w Hl.
    destruct (foldr_stopJob_lookup _ _ _ _ Hl) as [Hs Hr]. apply Hr, Hcover, Hs.
Qed.

Lemma removeJob_lookup_None name n s :
  jobs s !! n = None -> jobs (removeJob name s) !! n = None.
Proof.
  intros Hn. unfold removeJob. destruct (jobs s !! name) eqn:Hj; [|exact Hn].
  cbn. apply lookup_delete_None. right.
  destruct (jobs (stopJob name s) !! n) eqn:Hl; [|reflexivity].
  assert (Hs : is_Some (jobs s !! n)) by (apply (proj1 (stopJob_is_Some name n s)); eauto).
  rewrite Hn in Hs. destruct Hs as [? [=]].
Qed.

Lemma foldr_removeJob_lookup (names : list string) (s : State) (n : string) :
  n ∈ names \/ jobs s !! n = None -> jobs (foldr removeJob s names) !! n = None.
Proof.
  induction names as [|m names IH]; cbn.
  - intros [Hin|Hn]; [inversion Hin|exact Hn].
  - intros [Hin|Hn].
    + apply elem_of_cons in Hin as [->|Hin].
      * apply removeJob_lookup_eq.
      * apply removeJob_lookup_None, IH. left. exact Hin.
    + apply removeJob_lookup_None, IH. right. exact Hn.
Qed.

Lemma removeAll_jobs (s : State) : jobs (removeAll s) = ∅.
Proof.
  apply map_eq. intros n. rewrite lookup_empty. unfold removeAll.
  apply foldr_removeJob_lookup.
  destruct (jobs s !! n) as [w|] eqn:Hl; [left; eapply key_in_names; eauto|right; reflexivity].
Qed.

(** X6. After [removeAll()] the job table is empty: [getAllJobs()]
    returns no job and no name resolves.  The table is empty in
    whatever order the jobs are removed. *)
Theorem removeAll_empties (s : State) :
  jobs (removeAll s) = ∅
  /\ getAllJobs (removeAll s) = []
  /\ (forall name, getJob name (removeAll s) = None)
  /\ (forall names, (forall n, is_Some (jobs s !! n) -> n ∈ names) ->
      jobs (foldr removeJob s names) = ∅).
Proof.
  pose proof (removeAll_jobs s) as He.
  split; [exact He|]. split; [|split].
  - unfold getAllJobs. rewrite He, map_to_list_empty. reflexivity.
  - intros name. unfold getJob. rewrite He, lookup_empty. reflexivity.
  - intros names Hcover. apply map_eq. intros n. rewrite lookup_empty.
    apply foldr_removeJob_lookup.
    destruct (jobs s !! n) as [w|] eqn:Hl; [left; apply Hcover; eauto|right; reflexivity].
Qed.

End JobControl.

(** ** Theorems: timers of interval jobs *)

Section TimerFacts.
Import Cron Examples CronMore.

Lemma bookkeeping_idle held held' live next n :
  (forall m, m <> n -> held' !! m = held !! m) ->
  (held !! n = None \/ held !! n = Some (None, false)) ->
  (held' !! n = None \/ held' !! n = Some (None, false)) ->
  bookkeeping held live next -> bookkeeping held' live next.
Proof.
  intros Hoth Hold Hnew (Hpos & Hlive & Hheld & Hinj).
  split; [exact Hpos|]. split; [|split].
  - intros id t Ht. destruct (Hlive id t Ht) as (Hid & Hk & m & Hm).
    split; [exact Hid|]. split; [exact Hk|]. exists m.
    destruct (decide (m = n)) as [->|Hne]; [|rewrite Hoth by exact Hne; exact Hm].
    destruct Hold as [Ho|Ho]; rewrite Ho in Hm; discriminate.
  - intros m c Hm. destruct (decide (m = n)) as [->|Hne].
    + destruct Hnew as [Hn|Hn]; rewrite Hn in Hm; [discriminate|].
      injection Hm as <-. left. reflexivity.
    + rewrite Hoth in Hm by exact Hne. exact (Hheld m c Hm).
  - intros n1 n2 id r1 r2 H1 H2.
    assert (Hne1 : n1 <> n).
    { intros ->. destruct Hnew as [Hn|Hn]; rewrite Hn in H1; discriminate. }
    assert (Hne2 : n2 <> n).
    { intros ->. destruct Hnew as [Hn|Hn]; rewrite Hn in H2; discriminate. }
    rewrite Hoth in H1, H2 by assumption. exact (Hinj _ _ _ _ _ H1 H2).
Qed.

Lemma bookkeeping_stop held live next n id :
  held !! n = Some (Some id, true) ->
  bookkeeping held live next ->
  bookkeeping (<[n := (None, false)]> held) (delete id live) next.
Proof.
  intros Hn (Hpos & Hlive & Hheld & Hinj).
  split; [exact Hpos|]. split; [|split].
  - intros id' t Ht. apply lookup_delete_Some in Ht as [Hne Ht].
    destruct (Hlive id' t Ht) as (Hid & Hk & m & Hm).
    split; [exact Hid|]. split; [exact Hk|]. exists m.
    rewrite lookup_insert_ne; [exact Hm|]. intros <-. congruence.
  - intros m c Hm. apply lookup_insert_Some in Hm as [[_ <-]|[Hne Hm]]; [left; reflexivity|].
    destruct (Hheld m c Hm) as [Hc|(id' & -> & Hl)]; [left; exact Hc|].
    right. exists id'. split; [reflexivity|].
    rewrite lookup_delete_ne; [exact Hl|]. intros <-. apply Hne.
    exact (Hinj _ _ _ _ _ Hn Hm).
  - intros n1 n2 id' r1 r2 H1 H2.
    apply lookup_insert_Some in H1 as [[_ [=]]|[_ H1]].
    apply lookup_insert_Some in H2 as [[_ [=]]|[_ H2]].
    exact (Hinj _ _ _ _ _ H1 H2).
Qed.

Lemma bookkeeping_start held live next n t :
  held !! n = Some (None, false) -> t_kind t = Repeating ->
  bookkeeping held live next ->
  bookkeeping (<[n := (Some next, true)]> held) (<[next := t]> live) (S next).
Proof.
  intros Hn Hk (Hpos & Hlive & Hheld & Hinj).
  assert (Hfresh : forall m r, held !! m = Some (Some next, r) -> False).
  { intros m r Hm. destruct (Hheld m _ Hm) as [[=]|(id & [= <- ->] & [t' Ht'])].
    destruct (Hlive _ _ Ht') as (Hid & _). lia. }
  split; [lia|]. split; [|split].
  - intros id t' Ht. apply lookup_insert_Some in Ht as [[<- <-]|[Hne Ht]].
    + split; [lia|]. split; [exact Hk|]. exists n. apply lookup_insert_eq.
    + destruct (Hlive id t' Ht) as (Hid & Hk' & m & Hm).
      split; [lia|]. split; [exact Hk'|]. exists m.
      rewrite lookup_insert_ne; [exact Hm|]. intros <-. congruence.
  - intros m c Hm. apply lookup_insert_Some in Hm as [[_ <-]|[Hne Hm]].
    + right. exists next. split; [reflexivity|]. rewrite lookup_insert_eq. eauto.
    + destruct (Hheld m c Hm) as [Hc|(id' & -> & [t' Hl])]; [left; exact Hc|].
      right. exists id'. split; [reflexivity|].
      destruct (Hlive _ _ Hl) as (Hid & _).
      rewrite lookup_insert_ne by lia. eauto.
  - intros n1 n2 id' r1 r2 H1 H2.
    apply lookup_insert_Some in H1 as [[E1 V1]|[Hne1 H1]];
      apply lookup_insert_Some in H2 as [[E2 V2]|[Hne2 H2]].
    + congruence.
    + exfalso. injection V1 as <- _. eapply Hfresh. exact H2.
    + exfalso. injection V2 as <- _. eapply Hfresh. exact H1.
    + exact (Hinj _ _ _ _ _ H1 H2).
Qed.

Lemma hygiene_same (s s' : State) :
  jobs s' = jobs s -> timers s' = timers s -> nextTimer s' = nextTimer s ->
  dailyScopes s' = dailyScopes s ->
  timerHygiene s -> timerHygiene s'.
Proof. unfold timerHygiene. intros -> -> -> ->. auto. Qed.

Lemma hygiene_update (s : State) n w w' :
  jobs s !! n = Some w -> control w' = control w ->
  timerHygiene s -> timerHygiene (with_jobs (insert n w') s).
Proof.
  intros Hn Hc [Hb Hd]. split; [|exact Hd]. cbn.
  rewrite fmap_insert, Hc. rewrite insert_id; [exact Hb|].
  rewrite lookup_fmap, Hn. reflexivity.
Qed.

Lemma hygiene_stopJob name s : timerHygiene s -> timerHygiene (stopJob name s).
Proof.
  intros [Hb Hd]. split.
  - rewrite stopJob_jobs, stopJob_timers.
    replace (nextTimer (stopJob name s)) with (nextTimer s).
    2:{ unfold stopJob. destruct (jobs s !! name) as [w|]; [|reflexivity].
        destruct (isRunning w); [|reflexivity]. cbn.
        destruct (intervalId w) as [[|i]|]; reflexivity. }
    destruct (jobs s !! name) as [w|] eqn:Hj; [|exact Hb].
    destruct (isRunning w) eqn:Hr; [|exact Hb].
    assert (Hc : (control <$> jobs s) !! name = Some (intervalId w, true)).
    { rewrite lookup_fmap, Hj. unfold control. cbn. rewrite Hr. reflexivity. }
    pose proof Hb as (_ & Hlive & Hheld & _).
    destruct (Hheld _ _ Hc) as [[=]|(id & [= Hi] & [t Ht])].
    destruct (Hlive _ _ Ht) as (Hid & _).
    rewrite Hi in Hc |- *. destruct id as [|i]; [lia|].
    rewrite fmap_insert. unfold stopped, control at 1. cbn. rewrite Hi.
    apply bookkeeping_stop; assumption.
  - rewrite <- Hd. unfold stopJob. destruct (jobs s !! name) as [w|]; [|reflexivity].
    destruct (isRunning w); [|reflexivity]. cbn.
    destruct (intervalId w) as [[|i]|]; reflexivity.
Qed.

Lemma hygiene_startJob name s :
  timerHygiene s -> timerHygiene (startJob name s).
Proof.
  intros [Hb Hd]. unfold startJob.
  destruct (jobs s !! name) as [w|] eqn:Hj; [|split; assumption].
  destruct (isRunning w) eqn:Hr; [split; assumption|].
  split; [|exact Hd]. cbn. rewrite fmap_insert. unfold control at 1. cbn.
  apply bookkeeping_start; [|reflexivity|exact Hb].
  assert (Hc : (control <$> jobs s) !! name = Some (intervalId w, false)).
  { rewrite lookup_fmap, Hj. unfold control. cbn. rewrite Hr. reflexivity. }
  destruct Hb as (_ & _ & Hheld & _).
  destruct (Hheld _ _ Hc) as [[= Hi]|(id & [=] & _)]. rewrite Hi in Hc. exact Hc.
Qed.

Lemma hygiene_removeJob name s : timerHygiene s -> timerHygiene (removeJob name s).
Proof.
  intros Hs. unfold removeJob. destruct (jobs s !! name) as [w|] eqn:Hj; [|exact Hs].
  destruct (hygiene_stopJob name s Hs) as [Hb Hd]. split; [|exact Hd]. cbn.
  assert (His : is_Some (jobs (stopJob name s) !! name))
    by (apply stopJob_is_Some; eauto).
  destruct His as [w' Hw'].
  eapply (bookkeeping_idle _ _ _ _ name); [| | |exact Hb].
  - intros m Hne. rewrite !lookup_fmap, lookup_delete_ne by congruence. reflexivity.
  - right. rewrite lookup_fmap, Hw'. cbn. unfold control.
    rewrite (stopJob_not_running _ _ _ Hw').
    destruct Hb as (_ & _ & Hheld & _).
    assert (Hc : (control <$> jobs (stopJob name s)) !! name
                 = Some (intervalId w', false)).
    { rewrite lookup_fmap, Hw'. cbn. unfold control.
      rewrite (stopJob_not_running _ _ _ Hw'). reflexivity. }
    destruct (Hheld _ _ Hc) as [[= ->]|(id & [=] & _)]. reflexivity.
  - left. rewrite lookup_fmap, lookup_delete_eq. reflexivity.
Qed.

Lemma hygiene_foldr (f : string -> State -> State) (names : list string) (s : State) :
  (forall n s0, timerHygiene s0 -> timerHygiene (f n s0)) ->
  timerHygiene s -> timerHygiene (foldr f s names).
Proof. intros Hf Hs. induction names as [|n names IH]; cbn; auto. Qed.

Lemma hygiene_wrappedOnTick reg s : timerHygiene s -> timerHygiene (wrappedOnTick reg s).
Proof.
  intros Hs. unfold wrappedOnTick. destruct (intervalScopes s !! reg) as [scope|]; [|exact Hs].
  destruct (reachedMaxRuns _ _); [apply hygiene_stopJob; exact Hs|exact Hs].
Qed.

Lemma hygiene_addIntervalJob n i a o s :
  timerHygiene s -> timerHygiene (addIntervalJob n i a o s).
Proof.
  intros Hs. unfold addIntervalJob.
  set (s1 := match jobs s !! n with Some _ => removeJob n s | None => s end).
  assert (H1 : timerHygiene s1 /\ jobs s1 !! n = None).
  { subst s1. destruct (jobs s !! n) eqn:Hj.
    - split; [apply hygiene_removeJob; exact Hs|apply removeJob_lookup_eq].
    - split; assumption. }
  destruct H1 as [[Hb Hd] Hnone]. clearbody s1.
  unfold enterInterval.
  match goal with
  | |- timerHygiene (if _ then startJob _ ?s4 else ?s4) =>
      assert (H4 : timerHygiene s4); [|destruct (autoStarts o);
        [apply hygiene_startJob; exact H4|exact H4]]
  end.
  assert (H3 : timerHygiene
    (with_jobs (insert n
       {| name := n; intervalId := None; interval := i; runCount := 0;
          lastRun := None; nextRun := None; isRunning := false;
          onTick := WrappedOnTick (nextReg s1); options := o |})
       {| jobs := jobs s1; timers := timers s1; nextTimer := nextTimer s1;
          intervalScopes := <[nextReg s1 :=
             {| is_name := n; is_interval := i; is_onTick := a;
                is_options := o; is_runCount := 0 |}]> (intervalScopes s1);
          dailyScopes := dailyScopes s1; nextReg := S (nextReg s1);
          pending := pending s1; nextInv := nextInv s1; now := now s1;
          trace := trace s1 |})).
  { split; [|exact Hd]. cbn. eapply (bookkeeping_idle _ _ _ _ n); [| | |exact Hb].
    - intros m Hne. rewrite !lookup_fmap, lookup_insert_ne by congruence. reflexivity.
    - left. rewrite lookup_fmap, Hnone. reflexivity.
    - right. rewrite lookup_fmap, lookup_insert_eq. reflexivity. }
  destruct (runOnInit o) as [[|]|]; [apply hygiene_wrappedOnTick| |]; exact H3.
Qed.

Lemma hygiene_fire id s : timerHygiene s -> timerHygiene (fire id s).
Proof.
  intros Hs. unfold fire. destruct (timers s !! id) as [t|] eqn:Ht; [|exact Hs].
  pose proof Hs as [(_ & Hlive & _) Hd]. destruct (Hlive _ _ Ht) as (_ & -> & _).
  destruct (t_callback t) as [reg|reg|reg]; cbn.
  - apply hygiene_wrappedOnTick, Hs.
  - unfold scheduleNext. rewrite Hd, lookup_empty. exact Hs.
  - unfold dailyTimeout. rewrite Hd, lookup_empty. exact Hs.
Qed.

Lemma hygiene_settle inv out s : timerHygiene s -> timerHygiene (settle inv out s).
Proof.
  intros Hs. unfold settle. destruct (pending s !! inv) as [[reg|reg]|]; [| |exact Hs].
  - unfold wrappedOnTick_resume. cbn [intervalScopes resume].
    destruct (intervalScopes s !! reg) as [scope|]; [|exact Hs].
    destruct out as [|error]; [|exact Hs].
    cbn. destruct (jobs s !! is_name scope) as [job|] eqn:Hj; [|exact Hs].
    eapply (hygiene_same (with_jobs (insert (is_name scope) _) s)); try reflexivity.
    eapply hygiene_update; [exact Hj|reflexivity|exact Hs].
  - destruct Hs as [Hb Hd]. unfold dailyTimeout_resume. cbn [dailyScopes resume].
    rewrite Hd, lookup_empty. split; assumption.
Qed.

Lemma hygiene_step s e :
  intervalOnly e = true -> timerHygiene s -> timerHygiene (step s e).
Proof.
  intros He Hs. destruct e as [n i a o|n h m a o|n|n|n| | |id|inv out|t]; cbn in *.
  - apply hygiene_addIntervalJob, Hs.
  - discriminate.
  - apply hygiene_startJob, Hs.
  - apply hygiene_stopJob, Hs.
  - apply hygiene_removeJob, Hs.
  - apply hygiene_foldr; [apply hygiene_stopJob|exact Hs].
  - apply hygiene_foldr; [apply hygiene_removeJob|exact Hs].
  - apply hygiene_fire, Hs.
  - apply hygiene_settle, Hs.
  - exact Hs.
Qed.

Lemma hygiene_run events s :
  forallb intervalOnly events = true -> timerHygiene s -> timerHygiene (run events s).
Proof.
  revert s. induction events as [|e events IH]; intros s He Hs; [exact Hs|].
  cbn in He. apply andb_prop in He as [He Hes].
  apply (IH (step s e)); [exact Hes|]. apply hygiene_step; assumption.
Qed.

Lemma hygiene_init : timerHygiene init.
Proof.
  split; [|reflexivity]. split; [cbn; lia|]. split; [|split].
  - intros id t Ht. cbn in Ht. rewrite lookup_empty in Ht. discriminate.
  - intros n c Hc. cbn in Hc. rewrite fmap_empty, lookup_empty in Hc. discriminate.
  - intros n1 n2 id r1 r2 H1. cbn in H1. rewrite fmap_empty, lookup_empty in H1. discriminate.
Qed.

Lemma hygiene_no_running_no_timers s :
  timerHygiene s ->
  (forall n w, jobs s !! n = Some w -> isRunning w = false) ->
  timers s = ∅.
Proof.
  intros [(_ & Hlive & _) _] Hstopped. apply map_eq. intros id. rewrite lookup_empty.
  destruct (timers s !! id) as [t|] eqn:Ht; [|reflexivity].
  destruct (Hlive _ _ Ht) as (_ & _ & n & Hn).
  rewrite lookup_fmap in Hn. destruct (jobs s !! n) as [w|] eqn:Hw; [|discriminate].
  cbn in Hn. injection Hn as _ Hr. rewrite (Hstopped _ _ Hw) in Hr. discriminate.
Qed.

(** X7. In a scheduler used for interval jobs only, from its creation
    on and whatever the order of calls, timer firings and completions:
    every live timer is a repeating timer held by a running registered
    job, every running job holds a live timer, and [stopAll()],
    [ngOnDestroy()] and [removeAll()] leave no timer behind, in whatever
    order they visit the jobs. *)
Theorem interval_timers_are_owned (events : list Event) :
  forallb intervalOnly events = true ->
  let s := run events init in
  (forall id t, timers s !! id = Some t ->
     t_kind t = Repeating
     /\ exists n w, jobs s !! n = Some w /\ intervalId w = Some id /\ isRunning w = true)
  /\ (forall n w, jobs s !! n = Some w -> isRunning w = true ->
       exists id t, intervalId w = Some id /\ timers s !! id = Some t)
  /\ timers (stopAll s) = ∅
  /\ timers (ngOnDestroy s) = ∅
  /\ timers (removeAll s) = ∅
  /\ (forall names, (forall n, is_Some (jobs s !! n) -> n ∈ names) ->
      timers (foldr stopJob s names) = ∅ /\ timers (foldr removeJob s names) = ∅).
Proof.
  intros He s.
  assert (Hs : timerHygiene s) by (apply hygiene_run; [exact He|apply hygiene_init]).
  assert (Hstop : timers (stopAll s) = ∅).
  { apply hygiene_no_running_no_timers.
    - apply hygiene_foldr; [apply hygiene_stopJob|exact Hs].
    - apply stopAll_not_running. }
  split; [|split; [|split; [exact Hstop|split; [exact Hstop|split]]]].
  - intros id t Ht. destruct Hs as [(_ & Hlive & _) _].
    destruct (Hlive _ _ Ht) as (_ & Hk & n & Hn). split; [exact Hk|].
    rewrite lookup_fmap in Hn. destruct (jobs s !! n) as [w|] eqn:Hw; [|discriminate].
    cbn in Hn. injection Hn as Hi Hr. exists n, w. auto.
  - intros n w Hw Hr. destruct Hs as [(_ & _ & Hheld & _) _].
    assert (Hc : (control <$> jobs s) !! n = Some (intervalId w, true)).
    { rewrite lookup_fmap, Hw. cbn. unfold control. rewrite Hr. reflexivity. }
    destruct (Hheld _ _ Hc) as [[=]|(id & [= Hi] & [t Ht])]. exists id, t. auto.
  - apply hygiene_no_running_no_timers.
    + apply hygiene_foldr; [apply hygiene_removeJob|exact Hs].
    + intros n w Hw. rewrite removeAll_jobs, lookup_empty in Hw. discriminate.
  - intros names Hcover. split; apply hygiene_no_running_no_timers.
    + apply hygiene_foldr; [apply hygiene_stopJob|exact Hs].
    + intros n w Hl. destruct (foldr_stopJob_lookup _ _ _ _ Hl) as [Hsome Hr].
      apply Hr, Hcover, Hsome.
    + apply hygiene_foldr; [apply hygiene_removeJob|exact Hs].
    + intros n w Hl. rewrite foldr_removeJob_lookup in Hl; [discriminate|].
      destruct (jobs s !! n) as [w0|] eqn:Hn; [left; apply Hcover; eauto|right; reflexivity].
Qed.

Lemma interval_timers_are_owned_witness :
  let s := run (heartbeat ++ [Call_stopJob "heartbeat"; Call_startJob "heartbeat"]) init in
  (forall id t, timers s !! id = Some t ->
     t_kind t = Repeating
     /\ exists n w, jobs s !! n = Some w /\ intervalId w = Some id /\ isRunning w = true)
  /\ (forall n w, jobs s !! n = Some w -> isRunning w = true ->
       exists id t, intervalId w = Some id /\ timers s !! id = Some t)
  /\ timers (stopAll s) = ∅
  /\ timers (ngOnDestroy s) = ∅
  /\ timers (removeAll s) = ∅
  /\ (forall names, (forall n, is_Some (jobs s !! n) -> n ∈ names) ->
      timers (foldr stopJob s names) = ∅ /\ timers (foldr removeJob s names) = ∅).
Proof.
  apply (interval_timers_are_owned
           (heartbeat ++ [Call_stopJob "heartbeat"; Call_startJob "heartbeat"])).
  vm_compute. reflexivity.
Defined.

End TimerFacts.

(** ** Theorems: what a registration leaves *)

Section Registration.
Import Cron Examples CronMore.









End Registration.

(** ** Theorems: the daily cycle *)

Section DailyCycle.
Import Cron Examples CronMore.

Variables (s : State) (reg id : nat) (scope : DailyScope) (job : CronJobWrapper)
  (delay : Z).
Hypothesis the_scope : dailyScopes s !! reg = Some scope.
Hypothesis the_job : jobs s !! ds_name scope = Some job.
Hypothesis the_timer :
  timers s !! id
  = Some {| t_kind := OneShot; t_callback := DailyTimeout reg; t_delay := delay |}.

Lemma daily_fire :
  fire id s = await (InDailyTimeout reg) (ds_onTick scope) reg (clearTimer id s).
Proof. unfold fire. rewrite the_timer. cbn. unfold dailyTimeout. cbn. rewrite the_scope. reflexivity. Qed.

(** X9. One day of a daily job.  When its timeout fires the action is
    called once and the timer is spent; when the action succeeds at time
    [t], the job's run count goes up by one, its last run is [t], its
    next run is the next occurrence of the time of day after [t], and a
    new one-shot timer is armed for exactly the time remaining. *)
Theorem daily_run_rearms (t : Z) :
  let s1 := fire id s in
  let s2 := run [ClockShows t; Settles (nextInv s) Fulfilled] s1 in
  let next := getNextRun t (ds_hour scope) (ds_minute scope) in
  trace s1 = (trace s ++ [Invoked (ds_onTick scope) reg (nextInv s)])%list
  /\ timers s1 = delete id (timers s)
  /\ jobs s2 !! ds_name scope
     = Some {| name := name job; intervalId := Some (nextTimer s);
               interval := interval job; runCount := runCount job + 1;
               lastRun := Some t; nextRun := Some next; isRunning := true;
               onTick := onTick job; options := options job |}
  /\ timers s2
     = <[nextTimer s := {| t_kind := OneShot; t_callback := DailyTimeout reg;
                           t_delay := next - t |}]> (delete id (timers s)).
Proof.
  cbn zeta. rewrite daily_fire. split; [reflexivity|]. split; [reflexivity|].
  cbn. unfold settle. cbn. rewrite lookup_insert_eq.
  unfold dailyTimeout_resume. cbn. rewrite the_scope, the_job.
  unfold scheduleNext. cbn. rewrite the_scope, lookup_insert_eq. cbn.
  rewrite lookup_insert_eq. split; reflexivity.
Qed.

(** X10. A daily job does not survive a failing action: when the action
    called by the timeout rejects, nothing is re-armed, no [onError]
    handler is called and nothing is recorded, so the job keeps
    reporting that it is running, with the next run it had, while the
    timer it holds is gone. *)
Theorem daily_failure_ends_schedule (t : Z) (error : Classify.JsError) :
  intervalId job = Some id ->
  let s2 := run [TimerFires id; ClockShows t; Settles (nextInv s) (Rejected error)] s in
  jobs s2 = jobs s
  /\ timers s2 = delete id (timers s)
  /\ getJob (ds_name scope) s2 = getJob (ds_name scope) s
  /\ (forall w, jobs s2 !! ds_name scope = Some w ->
        forall i, intervalId w = Some i -> timers s2 !! i = None)
  /\ trace s2 = (trace s ++ [Invoked (ds_onTick scope) reg (nextInv s)])%list
  /\ nextTimer s2 = nextTimer s.
Proof.
  intros Hid. cbn zeta. unfold run. cbn [fold_left step]. rewrite daily_fire.
  unfold settle. cbn. rewrite lookup_insert_eq.
  unfold dailyTimeout_resume. cbn. rewrite the_scope. cbn.
  repeat apply conj; try reflexivity.
  intros w Hw i Hi. rewrite the_job in Hw. injection Hw as <-.
  rewrite Hid in Hi. injection Hi as <-. apply lookup_delete_eq.
Qed.

End DailyCycle.

Section DailyWitnesses.
Import Cron Examples CronMore.

Lemma daily_run_rearms_witness :
  let s1 := fire 1 reportAt9 in
  let s2 := run [ClockShows (dateAt 19000 9 0); Settles (nextInv reportAt9) Fulfilled] s1 in
  let next := getNextRun (dateAt 19000 9 0) 9 0 in
  trace s1 = (trace reportAt9 ++ [Invoked 7 0 (nextInv reportAt9)])%list
  /\ timers s1 = delete 1%nat (timers reportAt9)
  /\ jobs s2 !! "report"
     = Some {| name := "report"; intervalId := Some (nextTimer reportAt9);
               interval := 24 * 60 * 60 * 1000; runCount := 0 + 1;
               lastRun := Some (dateAt 19000 9 0); nextRun := Some next;
               isRunning := true;
               onTick := ScheduleNext 0; options := reportingErrors |}
  /\ timers s2
     = <[nextTimer reportAt9 :=
           {| t_kind := OneShot; t_callback := DailyTimeout 0;
              t_delay := next - dateAt 19000 9 0 |}]> (delete 1%nat (timers reportAt9)).
Proof.
  apply (daily_run_rearms reportAt9 0 1 reportScope reportJob (60 * 60 * 1000));
    vm_compute; reflexivity.
Defined.

Lemma daily_failure_ends_schedule_witness :
  let s2 := run [TimerFires 1; ClockShows (dateAt 19000 9 0);
                 Settles (nextInv reportAt9) (Rejected timedOut)] reportAt9 in
  jobs s2 = jobs reportAt9
  /\ timers s2 = delete 1%nat (timers reportAt9)
  /\ getJob "report" s2 = getJob "report" reportAt9
  /\ (forall w, jobs s2 !! "report" = Some w ->
        forall i, intervalId w = Some i -> timers s2 !! i = None)
  /\ trace s2 = (trace reportAt9 ++ [Invoked 7 0 (nextInv reportAt9)])%list
  /\ nextTimer s2 = nextTimer reportAt9.
Proof.
  apply (daily_failure_ends_schedule reportAt9 0 1 reportScope reportJob
           (60 * 60 * 1000)); vm_compute; reflexivity.
Defined.

End DailyWitnesses.

(** ** Theorems: restarting a daily job *)

Section DailyRestart.
Import Cron Examples CronMore.

(** X11. [startJob] does not restore a daily schedule.  For a stopped
    daily job it arms a repeating 24-hour timer that runs [scheduleNext],
    and reports the next run 24 hours ahead instead of at the time of
    day.  When that timer fires, [scheduleNext] arms a timeout and the
    job's timer id becomes the timeout's, so a later [stopJob] cancels
    the timeout only: the job reports it is stopped while its repeating
    timer stays live. *)
Theorem restarted_daily_job_keeps_its_timer (s : State) (reg : nat)
    (scope : DailyScope) (job : CronJobWrapper) :
  dailyScopes s !! reg = Some scope ->
  jobs s !! ds_name scope = Some job ->
  onTick job = ScheduleNext reg -> isRunning job = false ->
  let repeating := {| t_kind := Repeating; t_callback := ScheduleNext reg;
                      t_delay := interval job |} in
  let s1 := startJob (ds_name scope) s in
  let s3 := stopJob (ds_name scope) (fire (nextTimer s) s1) in
  timers s1 = <[nextTimer s := repeating]> (timers s)
  /\ getNextRunTime (ds_name scope) s1 = Some (now s + interval job)
  /\ info_isRunning <$> getJob (ds_name scope) s3 = Some false
  /\ timers s3 !! nextTimer s = Some repeating.
Proof.
  intros Hscope Hjob Htick Hstopped. cbn zeta.
  unfold startJob. rewrite Hjob, Hstopped, Htick. cbn.
  split; [reflexivity|].
  split; [unfold getNextRunTime; cbn; rewrite lookup_insert_eq; reflexivity|].
  unfold fire. cbn. rewrite lookup_insert_eq. cbn.
  unfold scheduleNext. cbn. rewrite Hscope, lookup_insert_eq. cbn.
  unfold stopJob. cbn. rewrite lookup_insert_eq. cbn.
  split; [unfold getJob; cbn; rewrite lookup_insert_eq; reflexivity|].
  rewrite lookup_delete_ne by lia. rewrite lookup_insert_ne by lia.
  apply lookup_insert_eq.
Qed.

Lemma restarted_daily_job_keeps_its_timer_witness :
  let s := stopJob "report" reportAt9 in
  let repeating := {| t_kind := Repeating; t_callback := ScheduleNext 0;
                      t_delay := 24 * 60 * 60 * 1000 |} in
  let s1 := startJob "report" s in
  let s3 := stopJob "report" (fire (nextTimer s) s1) in
  timers s1 = <[nextTimer s := repeating]> (timers s)
  /\ getNextRunTime "report" s1 = Some (now s + 24 * 60 * 60 * 1000)
  /\ info_isRunning <$> getJob "report" s3 = Some false
  /\ timers s3 !! nextTimer s = Some repeating.
Proof.
  apply (restarted_daily_job_keeps_its_timer (stopJob "report" reportAt9) 0
           reportScope (stopped reportJob)); vm_compute; reflexivity.
Defined.

End DailyRestart.

(** ** Theorems: a job without a ceiling *)

Section Unlimited.
Import Cron Examples CronMore.

Variables (name : string) (interval : Z) (onTick : nat) (options : CronJobOptions).
Hypothesis no_ceiling : unlimited options = true.

Lemma unlimited_never_reached c : reachedMaxRuns (maxRuns options) c = false.
Proof.
  unfold unlimited in no_ceiling. unfold reachedMaxRuns.
  destruct (maxRuns options) as [k|]; [|reflexivity]. rewrite no_ceiling. reflexivity.
Qed.

Lemma invocations_snoc reg tr o :
  invocations reg (tr ++ [o]) = (invocations reg tr + (if isInvocationOf reg o then 1 else 0))%nat.
Proof.
  unfold invocations. rewrite List.filter_app, List.length_app. cbn.
  destruct (isInvocationOf reg o); reflexivity.
Qed.

Lemma invocations_app_none reg tr tr' :
  forallb (fun o => negb (isInvocationOf reg o)) tr' = true ->
  invocations reg (tr ++ tr') = invocations reg tr.
Proof.
  intros H. unfold invocations. rewrite List.filter_app, List.length_app.
  replace (List.filter (isInvocationOf reg) tr') with (@nil Obs); [cbn; lia|].
  induction tr' as [|o tr' IH]; [reflexivity|]. cbn in *.
  apply andb_prop in H as [Ho H]. apply negb_true_iff in Ho. rewrite Ho. auto.
Qed.

Lemma soleUnlimited_step s e :
  passive e = true -> soleUnlimited name interval options s ->
  soleUnlimited name interval options (step s e)
  /\ invocations 0 (trace (step s e))
     = (invocations 0 (trace s) + firesOf 1 [e])%nat.
Proof.
  intros Hp Hs. pose proof Hs as ((w & Hw & Hr) & Ht & (scope & Hsc & Hn & Ho) & Hd).
  destruct e as [n i a o|n h m a o|n|n|n| | |id|inv out|t]; try discriminate; cbn [step].
  - (* a timer fires *)
    unfold fire. rewrite Ht. unfold firesOf. cbn [List.filter List.length].
    destruct (decide (id = 1%nat)) as [->|Hne].
    + rewrite lookup_singleton_eq. cbn.
      rewrite (wrappedOnTick_invokes s 0 scope);
        [|rewrite Hsc; apply lookup_singleton_eq|rewrite Ho; apply unlimited_never_reached].
      split; [exact Hs|]. cbn [trace await]. rewrite invocations_snoc. reflexivity.
    + rewrite lookup_singleton_ne by congruence.
      destruct (Nat.eqb_spec id 1); [congruence|]. cbn. split; [exact Hs|lia].
  - (* an action settles *)
    unfold firesOf. cbn [List.filter List.length]. rewrite Nat.add_0_r.
    unfold settle. destruct (pending s !! inv) as [[reg|reg]|]; [| |split; [exact Hs|reflexivity]].
    + unfold wrappedOnTick_resume. cbn [intervalScopes resume]. rewrite Hsc.
      destruct (decide (reg = 0%nat)) as [->|Hne];
        [rewrite lookup_singleton_eq|rewrite lookup_singleton_ne by congruence;
                                     split; [exact Hs|reflexivity]].
      destruct out as [|error].
      * cbn. rewrite Hn, Hw. cbn. split.
        -- unfold soleUnlimited. cbn.
           split; [eexists; rewrite lookup_insert_eq; split; [reflexivity|exact Hr]|].
           split; [exact Ht|]. split; [|exact Hd].
           eexists. rewrite Hsc, insert_singleton_eq. split; [reflexivity|]. cbn. auto.
        -- rewrite <- (invocations_app_none 0 (trace s) [Completed 0 inv]) by reflexivity.
           reflexivity.
      * split; [exact Hs|]. cbn [trace observe].
        apply invocations_app_none. cbn. destruct (onError (is_options scope)); reflexivity.
    + unfold dailyTimeout_resume. cbn [dailyScopes resume]. rewrite Hd, lookup_empty.
      split; [exact Hs|reflexivity].
  - (* the clock *)
    split; [exact Hs|]. unfold firesOf. cbn [List.filter List.length].
    rewrite Nat.add_0_r. reflexivity.
Qed.

Lemma firesOf_cons id e events :
  firesOf id (e :: events) = (firesOf id [e] + firesOf id events)%nat.
Proof. unfold firesOf. cbn. destruct e; cbn; try reflexivity. destruct (Nat.eqb _ _); reflexivity. Qed.

Lemma soleUnlimited_run events s :
  forallb passive events = true -> soleUnlimited name interval options s ->
  soleUnlimited name interval options (run events s)
  /\ invocations 0 (trace (run events s))
     = (invocations 0 (trace s) + firesOf 1 events)%nat.
Proof.
  revert s. induction events as [|e events IH]; intros s Hp Hs.
  - split; [exact Hs|]. unfold firesOf. cbn. lia.
  - cbn in Hp. apply andb_prop in Hp as [He Hp].
    destruct (soleUnlimited_step s e He Hs) as [Hs1 Hi1].
    destruct (IH (step s e) Hp Hs1) as [Hs2 Hi2].
    split; [exact Hs2|]. change (run (e :: events) s) with (run events (step s e)).
    rewrite Hi2, Hi1, (firesOf_cons 1 e events). lia.
Qed.

(** X19. A job without a ceiling never stops by itself.  For an interval
    job registered on a fresh scheduler with [maxRuns] absent or zero and
    auto-started, over every schedule of timer firings, completions and
    failures of its action, and clock changes: the job stays running, its
    repeating timer stays live, and its action is called at every firing
    of that timer (and once at registration with [runOnInit]), whether or
    not earlier calls failed or are still under way. *)
Theorem unlimited_job_runs_at_every_tick (events : list Event) :
  autoStarts options = true ->
  forallb passive events = true ->
  let s := run events (addIntervalJob name interval onTick options init) in
  info_isRunning <$> getJob name s = Some true
  /\ timers s !! 1%nat
     = Some {| t_kind := Repeating; t_callback := WrappedOnTick 0; t_delay := interval |}
  /\ invocations 0 (trace s)
     = (firesOf 1 events + (if runsOnInit options then 1 else 0))%nat.
Proof.
  intros Hauto Hp. cbn zeta.
  set (s0 := addIntervalJob name interval onTick options init).
  assert (H0 : soleUnlimited name interval options s0
               /\ invocations 0 (trace s0) = if runsOnInit options then 1%nat else 0%nat).
  { subst s0.
    assert (Hinit : jobs init = ∅ /\ timers init = ∅ /\ nextTimer init = 1%nat
                    /\ intervalScopes init = ∅ /\ dailyScopes init = ∅
                    /\ nextReg init = 0%nat /\ trace init = [])
      by (repeat apply conj; reflexivity).
    revert Hinit. generalize init. intros s (Hj & Ht & Hnt & Hi & Hd & Hnr & Htr).
    unfold addIntervalJob. rewrite Hj, lookup_empty. unfold enterInterval.
    set (scope := {| is_name := name; is_interval := interval; is_onTick := onTick;
                     is_options := options; is_runCount := 0 |}).
    set (w0 := {| Cron.name := name; intervalId := None; Cron.interval := interval;
                  runCount := 0; lastRun := None; nextRun := None; isRunning := false;
                  Cron.onTick := WrappedOnTick (nextReg s);
                  Cron.options := options |}).
    set (s3 := with_jobs (insert name w0) _).
    assert (H3 : jobs s3 !! name = Some w0) by (subst s3; cbn; apply lookup_insert_eq).
    assert (Hsc3 : intervalScopes s3 !! 0%nat = Some scope)
      by (subst s3; cbn; rewrite Hnr; apply lookup_insert_eq).
    set (s4 := match runOnInit options with
               | Some true => wrappedOnTick (nextReg s) s3
               | _ => s3
               end).
    assert (H4 : jobs s4 = jobs s3 /\ timers s4 = timers s3 /\ now s4 = now s3
                 /\ nextTimer s4 = nextTimer s3 /\ intervalScopes s4 = intervalScopes s3
                 /\ dailyScopes s4 = dailyScopes s3
                 /\ invocations 0 (trace s4) = if runsOnInit options then 1%nat else 0%nat).
    { subst s4. unfold runsOnInit.
      assert (Hnone : invocations 0 (trace s3) = 0%nat) by (subst s3; cbn; rewrite Htr; reflexivity).
      destruct (runOnInit options) as [[|]|]; try (repeat apply conj; auto; fail).
      rewrite Hnr, (wrappedOnTick_invokes s3 0 scope Hsc3 (unlimited_never_reached _)).
      repeat apply conj; try reflexivity.
      cbn [trace await]. rewrite invocations_snoc, Hnone. reflexivity. }
    destruct H4 as (J4 & T4 & N4 & NT4 & I4 & D4 & Tr4). clearbody s4.
    rewrite Hauto. unfold startJob. rewrite J4, H3. cbn [isRunning w0].
    unfold setTimer, with_jobs, soleUnlimited.
    cbn [jobs timers intervalScopes dailyScopes trace].
    split; [|exact Tr4].
    split; [eexists; rewrite lookup_insert_eq; split; reflexivity|].
    split; [rewrite NT4, T4; subst s3; cbn; rewrite Hnt, Ht, Hnr; apply insert_empty|].
    split; [|rewrite D4; subst s3; exact Hd].
    exists scope. rewrite I4. subst s3. cbn. rewrite Hnr, Hi.
    split; [apply insert_empty|split; reflexivity]. }
  destruct H0 as [Hs0 Hi0].
  destruct (soleUnlimited_run events s0 Hp Hs0) as [((w & Hw & Hr) & Ht & _) Hi].
  split; [unfold getJob; rewrite Hw; cbn; rewrite Hr; reflexivity|].
  split; [rewrite Ht; apply lookup_singleton_eq|].
  rewrite Hi, Hi0. lia.
Qed.

End Unlimited.

Section UnlimitedWitness.
Import Cron Examples CronMore.

Lemma unlimited_job_runs_at_every_tick_witness :
  let s := run [ClockShows 30000; TimerFires 1; Settles 0 Fulfilled;
                ClockShows 60000; TimerFires 1; Settles 1 (Rejected timedOut);
                ClockShows 90000; TimerFires 1]
               (Sync.ngOnInit 7 init) in
  info_isRunning <$> getJob "checkSyncLog" s = Some true
  /\ timers s !! 1%nat
     = Some {| t_kind := Repeating; t_callback := WrappedOnTick 0;
               t_delay := 30 * 1000 |}
  /\ invocations 0 (trace s) = (3 + 0)%nat.
Proof.
  apply (unlimited_job_runs_at_every_tick "checkSyncLog" (30 * 1000) 7 noOptions
           eq_refl
           [ClockShows 30000; TimerFires 1; Settles 0 Fulfilled;
            ClockShows 60000; TimerFires 1; Settles 1 (Rejected timedOut);
            ClockShows 90000; TimerFires 1]); reflexivity.
Defined.

End UnlimitedWitness.

(** ** Theorems: where the effects of the sync come from *)

Section Provenance.
Import Classify Sync Examples SyncMore.

Lemma acceptedBefore_snoc i events w e :
  acceptedBefore i events w -> acceptedBefore i (events ++ [e])%list w.
Proof.
  intros (pre & j & log & post & -> & Hj & Hi).
  exists pre, j, log, (post ++ [e])%list. rewrite <- app_assoc. auto.
Qed.

Lemma failedBefore_snoc events w e (P Q : ExceptionLog -> bool -> JsError -> list Event -> Prop) :
  (forall log b error post, P log b error post -> Q log b error (post ++ [e])%list) ->
  failedBefore events w P -> failedBefore (events ++ [e])%list w Q.
Proof.
  intros HPQ (pre & j & error & log & post & -> & Hj & HP).
  exists pre, j, error, log, (post ++ [e])%list. rewrite <- app_assoc. auto.
Qed.

Lemma clockReadings_snoc post e now :
  In now (clockReadings post) -> In now (clockReadings (post ++ [e])%list).
Proof.
  unfold clockReadings. rewrite omap_app. intros H. apply in_or_app. left. exact H.
Qed.

Lemma diagnosed_snoc doc events w e :
  diagnosed doc events w -> diagnosed doc (events ++ [e])%list w.
Proof.
  apply failedBefore_snoc. intros log b error post (now & Hin & ->).
  exists now. split; [apply clockReadings_snoc, Hin|reflexivity].
Qed.

Lemma causedTask_snoc events w e t :
  causedTask events w t -> causedTask (events ++ [e])%list w t.
Proof.
  destruct t as [log|i|i|log ty c m|doc|]; cbn; auto.
  - apply acceptedBefore_snoc.
  - apply acceptedBefore_snoc.
  - apply failedBefore_snoc. auto.
  - apply diagnosed_snoc.
Qed.

Lemma causedWrite_snoc events w e wr :
  causedWrite events w wr -> causedWrite (events ++ [e])%list w wr.
Proof.
  intros [Hin|H]; [left; exact Hin|right]. destruct wr as [doc|i].
  - apply diagnosed_snoc, H.
  - apply acceptedBefore_snoc, H.
Qed.

Lemma caused_start w : noHandlers w = true -> caused [] w w.
Proof.
  intros Hn. split; [|split; [|split]].
  - apply Forall_forall. intros t Ht. apply list_elem_of_In in Ht.
    unfold noHandlers in Hn. rewrite forallb_forall in Hn. specialize (Hn t Ht).
    destruct t; try discriminate; exact I.
  - apply Forall_forall. intros doc Hd. left. apply list_elem_of_In, Hd.
  - intros i Hi. left. exact Hi.
  - apply Forall_forall. intros wr Hw. left. apply list_elem_of_In, Hw.
Qed.

Lemma caused_weaken events w w' e :
  caused events w w' ->
  Forall (causedTask (events ++ [e])%list w) (tasks w')
  /\ Forall (fun doc => In doc (store w) \/ diagnosed doc (events ++ [e])%list w) (store w')
  /\ (forall i, findOne i (store w) <> None ->
        findOne i (store w') <> None \/ acceptedBefore i (events ++ [e])%list w)
  /\ Forall (causedWrite (events ++ [e])%list w) (writes w').
Proof.
  intros (Ht & Hs & Hf & Hw). split; [|split; [|split]].
  - eapply Forall_impl; [exact Ht|]. intros t. apply causedTask_snoc.
  - eapply Forall_impl; [exact Hs|]. intros doc [H|H]; [left; exact H|right].
    apply diagnosed_snoc, H.
  - intros i Hi. destruct (Hf i Hi) as [H|H]; [left; exact H|right].
    apply acceptedBefore_snoc, H.
  - eapply Forall_impl; [exact Hw|]. intros wr. apply causedWrite_snoc.
Qed.

Lemma caused_step events w e :
  caused events w (run events w) ->
  caused (events ++ [e])%list w (run (events ++ [e])%list w).
Proof.
  intros Hc. pose proof (caused_weaken _ _ _ e Hc) as (Ht & Hs & Hf & Hw).
  rewrite run_append. cbn [run fold_left].
  set (w' := run events w) in *. unfold caused.
  destruct e as [now|j r|j now|b]; cbn [step].
  - (* Tick *)
    unfold checkSyncLog. destruct (findUnsynced (store w')) as [|l ls] eqn:Hu.
    + repeat split; assumption.
    + split; [|repeat split; assumption]. cbn [tasks].
      apply Forall_app. split; [exact Ht|].
      apply Forall_forall. intros t Hin.
      apply list_elem_of_In, in_map_iff in Hin as (l' & <- & _). exact I.
  - (* Responds *)
    unfold respond. destruct (tasks w' !! j) as [[log| | | | |]|] eqn:Hj;
      try (repeat split; assumption).
    destruct r as [|error].
    + split; [|repeat split; assumption]. cbn [tasks with_task].
      apply Forall_insert; [exact Ht|]. cbn.
      exists events, j, log, []. auto.
    + split; [|repeat split; assumption]. cbn [tasks with_task].
      apply Forall_insert; [exact Ht|]. cbn.
      exists events, j, error, log, []. repeat apply conj; auto.
  - (* Resumes *)
    unfold resume. destruct (tasks w' !! j) as [[log|i|i|log ty c m|doc|]|] eqn:Hj;
      try (repeat split; assumption).
    + (* Deleting *)
      pose proof (Forall_lookup_1 _ _ _ _ Ht Hj) as Hcause. cbn in Hcause.
      destruct (findOne i (store w')).
      * split; [|repeat split; assumption]. cbn [tasks with_task].
        apply Forall_insert; [exact Ht|exact Hcause].
      * split; [|repeat split; assumption]. cbn [tasks with_task].
        apply Forall_insert; [exact Ht|exact I].
    + (* Removing *)
      pose proof (Forall_lookup_1 _ _ _ _ Ht Hj) as Hcause. cbn in Hcause.
      unfold with_task, with_store. cbn [tasks store writes].
      split; [apply Forall_insert; [exact Ht|exact I]|]. split; [|split].
      * unfold remove. apply Forall_forall. intros doc Hd.
        apply list_elem_of_In, filter_In in Hd as [Hd _].
        rewrite Forall_forall in Hs. apply Hs, list_elem_of_In, Hd.
      * intros i' Hi'. rewrite findOne_remove.
        destruct (String.eqb_spec i' i) as [->|Hne]; [right; exact Hcause|].
        apply Hf, Hi'.
      * apply Forall_app. split; [exact Hw|]. apply Forall_cons. split; [|apply Forall_nil_2].
        right. exact Hcause.
    + (* CheckingSimilar *)
      destruct Hc as (Ht0 & _).
      pose proof (Forall_lookup_1 _ _ _ _ Ht0 Hj) as Hcause. cbn in Hcause.
      destruct (hasSimilarError _ _ _ _).
      * split; [|repeat split; assumption]. cbn [tasks with_task].
        apply Forall_insert; [exact Ht|exact I].
      * split; [|repeat split; assumption]. cbn [tasks with_task].
        apply Forall_insert; [exact Ht|]. cbn.
        destruct Hcause as (pre & k & error & log' & post & E & Hk & -> & -> & -> & ->).
        exists pre, k, error, log, (post ++ [Resumes j now])%list.
        split; [rewrite E, <- app_assoc; reflexivity|]. split; [exact Hk|].
        exists now. split; [|reflexivity].
        unfold clockReadings. rewrite omap_app. apply in_or_app. right.
        left. reflexivity.
    + (* Creating *)
      pose proof (Forall_lookup_1 _ _ _ _ Ht Hj) as Hcause. cbn in Hcause.
      unfold insert. destruct (findOne (id doc) (store w')) eqn:Hfind.
      * split; [|repeat split; assumption]. cbn [tasks with_task].
        apply Forall_insert; [exact Ht|exact I].
      * unfold with_task, with_store. cbn [tasks store writes].
        split; [apply Forall_insert; [exact Ht|exact I]|]. split; [|split].
        -- apply Forall_app. split; [exact Hs|].
           apply Forall_cons. split; [right; exact Hcause|apply Forall_nil_2].
        -- intros i Hi. destruct (Hf i Hi) as [H|H]; [left|right; exact H].
           rewrite findOne_app. destruct (findOne i (store w')); [discriminate|contradiction].
        -- apply Forall_app. split; [exact Hw|].
           apply Forall_cons. split; [right; exact Hcause|apply Forall_nil_2].
  - (* Connectivity *)
    repeat split; assumption.
Qed.

Lemma caused_run events w : noHandlers w = true -> caused events w (run events w).
Proof.
  intros Hn. induction events as [|e events IH] using rev_ind.
  - apply caused_start, Hn.
  - apply caused_step, IH.
Qed.

Lemma getErrorType_kind onLine error : exists k, getErrorType onLine error = kindName k.
Proof.
  unfold getErrorType.
  repeat match goal with
         | |- context [if ?b then _ else _] => destruct b
         end;
    [exists NetworkOfflineError|exists TimeoutError|exists BadRequestError
    |exists UnauthorizedError|exists ForbiddenError|exists NotFoundError
    |exists ServerError|exists SyncError]; reflexivity.
Qed.

Lemma diagnosticOf_taxonomyRow log onLine error now :
  taxonomyRow (diagnosticOf log onLine error now).
Proof.
  unfold taxonomyRow, diagnosticOf. cbn. split; [reflexivity|]. split; [reflexivity|].
  split; [|split; [discriminate|exists now; reflexivity]].
  destruct (getErrorType_kind onLine error) as [k ->]. exists k.
  split; [reflexivity|apply getErrorCode_kindName].
Qed.

(** X12. The sync deletes a stored log only after the remote API has
    accepted the request sent for that very log: over any schedule, a log
    that was stored and is missing, and every removal written, goes back
    to an accepted response. *)
Theorem removed_only_when_accepted (events : list Event) (w : World) :
  noHandlers w = true ->
  (forall i, findOne i (store w) <> None ->
     findOne i (store (run events w)) <> None \/ acceptedBefore i events w)
  /\ Forall (fun wr => match wr with
                       | Removed i => In wr (writes w) \/ acceptedBefore i events w
                       | Inserted _ => True
                       end) (writes (run events w)).
Proof.
  intros Hn. destruct (caused_run events w Hn) as (_ & _ & Hf & Hw).
  split; [exact Hf|]. eapply Forall_impl; [exact Hw|].
  intros [doc|i] H; [exact I|exact H].
Qed.

Lemma removed_only_when_accepted_witness :
  (forall i, findOne i (store (world [cameraLog "log-1"] true)) <> None ->
     findOne i (store (run accepted (world [cameraLog "log-1"] true))) <> None
     \/ acceptedBefore i accepted (world [cameraLog "log-1"] true))
  /\ Forall (fun wr => match wr with
                       | Removed i => In wr (writes (world [cameraLog "log-1"] true))
                                      \/ acceptedBefore i accepted
                                           (world [cameraLog "log-1"] true)
                       | Inserted _ => True
                       end)
            (writes (run accepted (world [cameraLog "log-1"] true))).
Proof.
  apply (removed_only_when_accepted accepted (world [cameraLog "log-1"] true)).
  reflexivity.
Defined.

(** X13. Every log the sync adds to the store is the diagnostic of a
    request that failed: it is built from the failed log, the error and
    the connectivity at the failure and a clock reading of its handler,
    and it is an unsynced row of the taxonomy under the service name
    [AppComponent], with the code of its type, a timestamp and an id
    made of the type and a time. *)
Theorem created_logs_are_diagnostics (events : list Event) (w : World) :
  noHandlers w = true ->
  Forall (fun doc => In doc (store w)
                     \/ (diagnosed doc events w /\ taxonomyRow doc))
         (store (run events w)).
Proof.
  intros Hn. destruct (caused_run events w Hn) as (_ & Hs & _ & _).
  eapply Forall_impl; [exact Hs|]. intros doc [H|H]; [left; exact H|right].
  split; [exact H|]. destruct H as (pre & j & error & log & post & _ & _ & now & _ & ->).
  apply diagnosticOf_taxonomyRow.
Qed.

Lemma created_logs_are_diagnostics_witness :
  Forall (fun doc => In doc (store (world [cameraLog "log-1"] false))
                     \/ (diagnosed doc outage (world [cameraLog "log-1"] false)
                         /\ taxonomyRow doc))
         (store (run outage (world [cameraLog "log-1"] false))).
Proof.
  apply (created_logs_are_diagnostics outage (world [cameraLog "log-1"] false)).
  reflexivity.
Defined.

End Provenance.

(** ** Theorems: requests and the dedup of diagnostics *)

Section Requests.
Import Classify Sync Examples SyncMore.

Lemma orElse_nonempty s fallback : fallback <> "" -> orElse s fallback <> "".
Proof.
  intros Hf. unfold orElse. destruct (String.eqb_spec s ""); [exact Hf|assumption].
Qed.

Lemma logRequest_complete now log : complete (logRequest now log).
Proof.
  unfold complete, logRequest. cbn.
  repeat apply conj; try reflexivity; apply orElse_nonempty; discriminate.
Qed.

Lemma sentAtTick_snoc r events w e :
  sentAtTick r events w -> sentAtTick r (events ++ [e])%list w.
Proof.
  intros (pre & now & post & log & -> & Hin & Hr).
  exists pre, now, (post ++ [e])%list, log. rewrite <- app_assoc. auto.
Qed.

(** X14. Every request the sync sends comes from a tick and is built
    from a log that was unsynced in the store when that tick read it: it
    carries the log's id, is flagged as not synced and has no empty text
    field (missing texts are replaced by their placeholders). *)
Theorem requests_come_from_unsynced_logs (events : list Event) (w : World) :
  Forall (fun r => In r (requests w)
                   \/ (sentAtTick r events w /\ complete r
                       /\ exists log, req_id r = id log))
         (requests (run events w)).
Proof.
  induction events as [|e events IH] using rev_ind.
  - apply Forall_forall. intros r Hr. left. apply list_elem_of_In, Hr.
  - assert (IH' : Forall (fun r => In r (requests w)
                     \/ (sentAtTick r (events ++ [e])%list w /\ complete r
                         /\ exists log, req_id r = id log))
                    (requests (run events w))).
    { eapply Forall_impl; [exact IH|]. intros r [H|(H & Hc & Hl)]; [left; exact H|right].
      split; [apply sentAtTick_snoc, H|auto]. }
    rewrite run_append. cbn [run fold_left]. set (w' := run events w) in *.
    destruct e as [now|j r|j now|b]; cbn [step].
    + unfold checkSyncLog. destruct (findUnsynced (store w')) as [|l ls] eqn:Hu; [exact IH'|].
      cbn [requests]. apply Forall_app. split; [exact IH'|].
      apply Forall_forall. intros r Hr.
      apply list_elem_of_In, in_map_iff in Hr as (log & <- & Hlog). right.
      split; [|split; [apply logRequest_complete|exists log; reflexivity]].
      exists events, now, [], log. split; [reflexivity|]. split; [|reflexivity].
      fold w'. rewrite Hu. exact Hlog.
    + unfold respond. destruct (tasks w' !! j) as [[log| | | | |]|]; try exact IH'.
      destruct r; exact IH'.
    + unfold resume. destruct (tasks w' !! j) as [[log|i|i|log ty c m|doc|]|]; try exact IH'.
      * destruct (findOne i (store w')); exact IH'.
      * destruct (hasSimilarError _ _ _ _); exact IH'.
      * destruct (insert doc (store w')); exact IH'.
    + exact IH'.
Qed.

End Requests.

Section Dedup.
Import Classify Sync Examples SyncMore.

Lemma count_insert {A} (p : A -> bool) (l : list A) (j : nat) (x x0 : A) :
  l !! j = Some x0 ->
  (List.length (List.filter p (<[j := x]> l)) + (if p x0 then 1 else 0)
   = List.length (List.filter p l) + (if p x then 1 else 0))%nat.
Proof.
  revert j. induction l as [|y l IH]; intros j Hj; [discriminate|].
  destruct j as [|j].
  - injection Hj as ->. simpl. destruct (p x), (p x0); simpl; lia.
  - specialize (IH j Hj). simpl. destruct (p y); simpl; lia.
Qed.

Lemma count_none {A} (p : A -> bool) (l : list A) :
  existsb p l = false -> List.length (List.filter p l) = 0%nat.
Proof.
  induction l as [|y l IH]; cbn; [reflexivity|].
  destruct (p y); cbn; [discriminate|exact IH].
Qed.

Lemma countSimilar_remove ty code sv i st :
  (countSimilar ty code sv (findUnsynced (remove i st))
   <= countSimilar ty code sv (findUnsynced st))%nat.
Proof.
  unfold countSimilar, findUnsynced, remove.
  induction st as [|doc st IH]; cbn; [lia|].
  destruct (negb (hasId i doc)); cbn; destruct (negb (isSynced doc)); cbn; try lia;
    destruct (similar ty code sv doc); cbn; lia.
Qed.

Lemma countSimilar_app ty code sv st doc :
  countSimilar ty code sv (findUnsynced (st ++ [doc]))
  = (countSimilar ty code sv (findUnsynced st)
     + (if similar ty code sv doc && negb (isSynced doc) then 1 else 0))%nat.
Proof.
  unfold countSimilar, findUnsynced. rewrite List.filter_app, List.filter_app, List.length_app.
  cbn. destruct (negb (isSynced doc)); cbn; [|rewrite andb_false_r; reflexivity].
  rewrite andb_true_r. destruct (similar ty code sv doc); reflexivity.
Qed.

Lemma similar_syncErrorLog ty code ty' code' log msg now :
  similar ty' code' "AppComponent" (syncErrorLog log ty code msg now)
  = String.eqb ty ty' && String.eqb code code'.
Proof. unfold similar. cbn. rewrite andb_true_r. reflexivity. Qed.

Lemma similarCount_step w e :
  checksDuringCreation e w = false ->
  (forall ty code, similarCount ty code w <= 1)%nat ->
  (forall ty code, similarCount ty code (step w e) <= 1)%nat.
Proof.
  intros Hrace Hw ty code. specialize (Hw ty code) as Hb. unfold similarCount in *.
  destruct e as [now|j r|j now|b]; cbn [step].
  - unfold checkSyncLog. destruct (findUnsynced (store w)) as [|l ls] eqn:Hu;
      [rewrite Hu; exact Hb|].
    cbn [store tasks]. rewrite Hu, List.filter_app, List.length_app.
    replace (List.filter (pendingSimilar ty code) (map Requested (l :: ls))) with (@nil Task).
    + cbn [List.length]. lia.
    + generalize (l :: ls). intros logs. induction logs; cbn; auto.
  - unfold respond. destruct (tasks w !! j) as [[log| | | | |]|] eqn:Hj; try exact Hb.
    destruct r as [|error]; cbn [store tasks with_task];
      match goal with
      | |- context [<[j := ?t]> (tasks w)] =>
          pose proof (count_insert (pendingSimilar ty code) (tasks w) j t _ Hj) as Hc
      end; cbn in Hc; lia.
  - unfold resume. destruct (tasks w !! j) as [[log|i|i|log ty0 c0 m|doc|]|] eqn:Hj;
      try exact Hb.
    + destruct (findOne i (store w)); cbn [store tasks with_task];
        match goal with
        | |- context [<[j := ?t]> (tasks w)] =>
            pose proof (count_insert (pendingSimilar ty code) (tasks w) j t _ Hj) as Hc
        end; cbn in Hc; lia.
    + unfold with_task, with_store. cbn [store tasks].
      pose proof (count_insert (pendingSimilar ty code) (tasks w) j Finished _ Hj) as Hc.
      pose proof (countSimilar_remove ty code "AppComponent" i (store w)).
      cbn in Hc. lia.
    + cbn in Hrace. rewrite Hj in Hrace.
      destruct (hasSimilarError _ _ _ _) eqn:Hsim; cbn [store tasks with_task].
      * pose proof (count_insert (pendingSimilar ty code) (tasks w) j Finished _ Hj) as Hc.
        cbn in Hc. lia.
      * match goal with
        | |- context [<[j := ?t]> (tasks w)] =>
            pose proof (count_insert (pendingSimilar ty code) (tasks w) j t _ Hj) as Hc
        end.
        cbn [pendingSimilar] in Hc. rewrite similar_syncErrorLog in Hc. cbn in Hc.
        rewrite andb_true_r in Hc.
        destruct (String.eqb_spec ty0 ty) as [->|Hty]; cbn in Hc; [|lia].
        destruct (String.eqb_spec c0 code) as [->|Hcode]; cbn in Hc; [|lia].
        pose proof (count_none _ _ Hrace) as Hz.
        unfold hasSimilarError in Hsim. pose proof (count_none _ _ Hsim) as Hz'.
        unfold countSimilar. lia.
    + unfold insert. destruct (findOne (id doc) (store w));
        unfold with_task, with_store; cbn [store tasks];
        pose proof (count_insert (pendingSimilar ty code) (tasks w) j Finished _ Hj) as Hc;
        cbn [pendingSimilar] in Hc.
      * destruct (similar ty code "AppComponent" doc && negb (isSynced doc)); lia.
      * rewrite countSimilar_app.
        destruct (similar ty code "AppComponent" doc && negb (isSynced doc)); lia.
  - exact Hb.
Qed.

(** X15. The dedup of diagnostics holds on every schedule in which no
    failure handler reads the unsynced logs while another work is about
    to insert a log with the triple it looks for: if at most one unsynced
    log per (type, code) is stored or about to be inserted under
    [AppComponent] at the start, at most one is stored at the end. *)
Theorem dedup_holds_without_races (events : list Event) (w : World) :
  raceFree events w = true ->
  (forall ty code, similarCount ty code w <= 1)%nat ->
  forall ty code,
    (countSimilar ty code "AppComponent" (findUnsynced (store (run events w))) <= 1)%nat.
Proof.
  intros Hfree Hw.
  assert (H : (forall ty code, similarCount ty code (run events w) <= 1)%nat).
  { revert w Hfree Hw. induction events as [|e events IH]; intros w Hfree Hw; [exact Hw|].
    cbn in Hfree. apply andb_prop in Hfree as [He Hfree].
    apply negb_true_iff in He. rewrite run_cons.
    apply IH; [exact Hfree|]. apply similarCount_step; assumption. }
  intros ty code. specialize (H ty code). unfold similarCount in H. lia.
Qed.

Lemma dedup_holds_without_races_witness :
  (countSimilar "NetworkOfflineError" "SYNC_NET_001" "AppComponent"
     (findUnsynced (store (run oneByOne
        (world [cameraLog "log-1"; cameraLog "log-2"] true)))) <= 1)%nat.
Proof.
  apply (dedup_holds_without_races oneByOne
           (world [cameraLog "log-1"; cameraLog "log-2"] true)).
  - vm_compute. reflexivity.
  - intros ty code. unfold similarCount, countSimilar, similar. cbn.
    rewrite !andb_false_r. cbn. lia.
Defined.

End Dedup.

(** ** Theorems: HTTP failures and their classification *)

Section HttpFacts.
Import Classify Http.

Lemma app_String c a b : (String c a ++ b)%string = String c (a ++ b).
Proof. reflexivity. Qed.

Lemma app_assoc_string a b c : ((a ++ b) ++ c)%string = (a ++ (b ++ c))%string.
Proof.
  induction a as [|x a IH]; [reflexivity|].
  rewrite !app_String, IH. reflexivity.
Qed.

Lemma toLowerCase_app a b : toLowerCase (a ++ b) = (toLowerCase a ++ toLowerCase b)%string.
Proof.
  induction a as [|c a IH]; [reflexivity|].
  rewrite app_String. cbn [toLowerCase]. rewrite IH, app_String. reflexivity.
Qed.

Lemma prefix_String a s1 b s2 :
  String.prefix (String a s1) (String b s2) = Ascii.eqb a b && String.prefix s1 s2.
Proof.
  cbn. destruct (ascii_dec a b) as [->|Hne].
  - rewrite Ascii.eqb_refl. reflexivity.
  - apply Ascii.eqb_neq in Hne. rewrite Hne. reflexivity.
Qed.

Lemma prefix_empty_r sub : String.prefix sub "" = true -> sub = "".
Proof. destruct sub; [reflexivity|discriminate]. Qed.

Lemma prefix_over t b sub :
  String.prefix sub (t ++ b)
  = String.prefix sub t
    || match strip t sub with
       | Some r => String.prefix r b
       | None => false
       end.
Proof.
  revert sub. induction t as [|a t IH]; intros sub.
  - change ("" ++ b)%string with b. cbn [strip].
    destruct sub as [|c sub]; [destruct b; reflexivity|reflexivity].
  - rewrite app_String. destruct sub as [|c sub]; [reflexivity|].
    rewrite !prefix_String. cbn [strip]. rewrite IH.
    rewrite (Ascii.eqb_sym a c).
    destruct (Ascii.eqb c a); reflexivity.
Qed.

Lemma includes_over t b sub :
  includes (t ++ b) sub
  = occursIn t sub || existsb (fun r => String.prefix r b) (straddles t sub)
    || includes b sub.
Proof.
  induction t as [|a t IH]; [reflexivity|].
  rewrite app_String. cbn [includes occursIn straddles].
  rewrite <- app_String, prefix_over, IH.
  destruct (String.prefix sub (String a t)); [reflexivity|].
  destruct (strip (String a t) sub) as [r|]; cbn [existsb orb];
    [|reflexivity].
  destruct (String.prefix r b); cbn [orb];
    [rewrite !orb_true_r; reflexivity|reflexivity].
Qed.

Lemma includes_over_eval t b sub o :
  occursIn t sub = o -> straddles t sub = [] ->
  includes (t ++ b) sub = o || includes b sub.
Proof. intros Ho Hs. rewrite includes_over, Ho, Hs. cbn. rewrite orb_false_r. reflexivity. Qed.

Lemma lowerMessage_httpError status statusText :
  lowerMessage (httpError status statusText)
  = (toLowerCase ("HTTP " ++ pretty status ++ ": ") ++ toLowerCase statusText)%string.
Proof.
  unfold lowerMessage, httpError. cbn [err_message].
  rewrite <- toLowerCase_app. f_equal.
  rewrite !app_assoc_string. reflexivity.
Qed.

Ltac http_signature status sig o :=
  rewrite (includes_over_eval (toLowerCase ("HTTP " ++ pretty status ++ ": ")) _ sig o)
    by (vm_compute; reflexivity).

Ltac http_signatures status o400 o401 o403 o404 o500 :=
  unfold getErrorType; rewrite !lowerMessage_httpError;
  http_signature status "network" false;
  http_signature status "failed to fetch" false;
  http_signature status "timeout" false;
  http_signature status "400" o400;
  http_signature status "bad request" false;
  http_signature status "401" o401;
  http_signature status "unauthorized" false;
  http_signature status "403" o403;
  http_signature status "forbidden" false;
  http_signature status "404" o404;
  http_signature status "not found" false;
  http_signature status "500" o500;
  http_signature status "internal server" false;
  cbn [orb negb].

Ltac every_branch :=
  repeat match goal with
         | |- context [if ?b then _ else _] => destruct b
         end.

Ltac no_earlier H k :=
  let E := fresh "E" in
  assert (E := H k);
  cbn [earlier In triggered signatures existsb negb orb] in E;
  specialize (E ltac:(auto 10));
  repeat (apply orb_false_elim in E as [? E]);
  clear E.

(** X16. A response that is not [ok] reaches [getErrorType] as the
    error [HTTP <status>: <statusText>].  While online, a status 400,
    401, 403, 404 or 500 is never left unclassified ([SyncError]); and
    when the status text alone triggers none of the kinds tried earlier,
    the error gets the kind and the code of its status. *)
Theorem http_status_is_classified (k : ErrorKind) (status : Z) (statusText : string) :
  statusOf k = Some status ->
  getErrorType true (httpError status statusText) <> "SyncError"
  /\ ((forall k', In k' (earlier k) ->
         triggered true {| err_message := Some statusText |} k' = false) ->
      getErrorType true (httpError status statusText) = kindName k
      /\ getErrorCode (getErrorType true (httpError status statusText)) = kindCode k).
Proof.
  intros Hk.
  assert (Hcode : getErrorType true (httpError status statusText) = kindName k ->
                  getErrorType true (httpError status statusText) = kindName k
                  /\ getErrorCode (getErrorType true (httpError status statusText))
                     = kindCode k).
  { intros E. split; [exact E|]. rewrite E. apply getErrorCode_kindName. }
  destruct k; try discriminate; injection Hk as <-.
  - split; [http_signatures 400 true false false false false; every_branch; discriminate|].
    intros H. apply Hcode.
    no_earlier H NetworkOfflineError. no_earlier H TimeoutError.
    unfold lowerMessage in *. cbn [err_message] in *.
    http_signatures 400 true false false false false.
    repeat match goal with E : _ = false |- _ => rewrite E; clear E end. reflexivity.
  - split; [http_signatures 401 false true false false false; every_branch; discriminate|].
    intros H. apply Hcode.
    no_earlier H NetworkOfflineError. no_earlier H TimeoutError.
    no_earlier H BadRequestError.
    unfold lowerMessage in *. cbn [err_message] in *.
    http_signatures 401 false true false false false.
    repeat match goal with E : _ = false |- _ => rewrite E; clear E end. reflexivity.
  - split; [http_signatures 403 false false true false false; every_branch; discriminate|].
    intros H. apply Hcode.
    no_earlier H NetworkOfflineError. no_earlier H TimeoutError.
    no_earlier H BadRequestError. no_earlier H UnauthorizedError.
    unfold lowerMessage in *. cbn [err_message] in *.
    http_signatures 403 false false true false false.
    repeat match goal with E : _ = false |- _ => rewrite E; clear E end. reflexivity.
  - split; [http_signatures 404 false false false true false; every_branch; discriminate|].
    intros H. apply Hcode.
    no_earlier H NetworkOfflineError. no_earlier H TimeoutError.
    no_earlier H BadRequestError. no_earlier H UnauthorizedError.
    no_earlier H ForbiddenError.
    unfold lowerMessage in *. cbn [err_message] in *.
    http_signatures 404 false false false true false.
    repeat match goal with E : _ = false |- _ => rewrite E; clear E end. reflexivity.
  - split; [http_signatures 500 false false false false true; every_branch; discriminate|].
    intros H. apply Hcode.
    no_earlier H NetworkOfflineError. no_earlier H TimeoutError.
    no_earlier H BadRequestError. no_earlier H UnauthorizedError.
    no_earlier H ForbiddenError. no_earlier H NotFoundError.
    unfold lowerMessage in *. cbn [err_message] in *.
    http_signatures 500 false false false false true.
    repeat match goal with E : _ = false |- _ => rewrite E; clear E end. reflexivity.
Qed.

Lemma http_status_is_classified_witness :
  getErrorType true (httpError 404 "Not Found") = "NotFoundError"
  /\ getErrorCode (getErrorType true (httpError 404 "Not Found")) = "SYNC_NTF_404".
Proof.
  apply (http_status_is_classified NotFoundError 404 "Not Found"); [reflexivity|].
  intros k' Hin. cbn in Hin.
  repeat destruct Hin as [<-|Hin]; [vm_compute; reflexivity ..|contradiction].
Defined.

End HttpFacts.

(** ** Theorems: the database life cycle *)

Section DatabaseFacts.
Import Database.

Lemma count_app {A} (p : A -> bool) (l : list A) (x : A) :
  List.length (List.filter p (l ++ [x]))
  = (List.length (List.filter p l) + (if p x then 1 else 0))%nat.
Proof.
  rewrite List.filter_app, List.length_app. cbn. destruct (p x); reflexivity.
Qed.

Lemma count_zero {A} (p : A -> bool) (l : list A) :
  List.length (List.filter p l) = 0%nat -> existsb p l = false.
Proof.
  induction l as [|y l IH]; cbn; [reflexivity|].
  destruct (p y); cbn; [discriminate|exact IH].
Qed.

Ltac lifecycle_goal Hc Hd :=
  repeat apply conj;
  [ lia
  | intros ?; first [exfalso; lia | apply Hc; lia | split; [reflexivity|discriminate]]
  | intros ?; first [exfalso; lia | apply Hd; lia | discriminate] ].

Lemma lifecycle_step s e :
  overlaps e s = false -> lifecycle s -> lifecycle (step s e).
Proof.
  intros Ho Hs. pose proof Hs as (Hone & Hc & Hd).
  unfold creating, destroying in Hone, Hc, Hd.
  assert (Hcz : initPromise (service s) = None \/ rxdb (service s) <> None ->
                List.length (List.filter isCreating (works s)) = 0%nat).
  { intros Hor.
    destruct (List.length (List.filter isCreating (works s))) as [|[|n]]; [reflexivity| |lia].
    destruct (Hc eq_refl) as [Hn Hp]. destruct Hor; congruence. }
  assert (Hdz : rxdb (service s) = None ->
                List.length (List.filter isDestroying (works s)) = 0%nat).
  { intros Hn.
    destruct (List.length (List.filter isDestroying (works s))) as [|[|n]]; [reflexivity| |lia].
    exfalso. apply Hd; auto. }
  destruct e as [|names|i ok]; cbn [step].
  - unfold init. destruct (initPromise (service s)) eqn:Hp; [exact Hs|].
    destruct (rxdb (service s)) eqn:Hr; [exact Hs|].
    unfold lifecycle, creating, destroying.
    cbn [works service rxdb initPromise]. rewrite !count_app. cbn.
    rewrite (Hcz (or_introl eq_refl)), (Hdz eq_refl).
    lifecycle_goal Hc Hd.
  - cbn in Ho. unfold destroy. destruct (rxdb (service s)) eqn:Hr; [|exact Hs].
    unfold lifecycle, creating, destroying.
    cbn [works service]. rewrite !count_app, Hr.
    pose proof (count_none _ _ Ho) as Hz. rewrite Hz, Hcz by (right; discriminate).
    destruct names; cbn; lifecycle_goal Hc Hd.
  - unfold settle.
    destruct (works s !! i) as [[c|c|rest| | |]|] eqn:Hi; try exact Hs.
    + pose proof (count_insert isCreating (works s) i (AddingCollections c) _ Hi) as K1.
      pose proof (count_insert isDestroying (works s) i (AddingCollections c) _ Hi) as K2.
      pose proof (count_insert isCreating (works s) i Threw _ Hi) as K3.
      pose proof (count_insert isDestroying (works s) i Threw _ Hi) as K4.
      cbn in K1, K2, K3, K4.
      destruct ok; unfold lifecycle, creating, destroying, with_work, creationFailed;
        cbn [works service rxdb initPromise]; lifecycle_goal Hc Hd.
    + pose proof (count_insert isCreating (works s) i Returned _ Hi) as K1.
      pose proof (count_insert isDestroying (works s) i Returned _ Hi) as K2.
      pose proof (count_insert isCreating (works s) i Threw _ Hi) as K3.
      pose proof (count_insert isDestroying (works s) i Threw _ Hi) as K4.
      cbn in K1, K2, K3, K4.
      destruct ok; unfold lifecycle, creating, destroying, creationFailed;
        cbn [works service rxdb initPromise]; lifecycle_goal Hc Hd.
    + pose proof (count_insert isCreating (works s) i Threw _ Hi) as K3.
      pose proof (count_insert isDestroying (works s) i Threw _ Hi) as K4.
      pose proof (count_insert isCreating (works s) i RemovingDatabase _ Hi) as K5.
      pose proof (count_insert isDestroying (works s) i RemovingDatabase _ Hi) as K6.
      cbn in K3, K4, K5, K6.
      assert (Hother : forall k, isCreating k = false ->
                lifecycle (with_work i k s)).
      { intros k Hk.
        pose proof (count_insert isCreating (works s) i k _ Hi) as K7.
        pose proof (count_insert isDestroying (works s) i k _ Hi) as K8.
        rewrite Hk in K7. cbn in K7, K8.
        unfold lifecycle, creating, destroying, with_work. cbn [works service].
        destruct (isDestroying k); lifecycle_goal Hc Hd. }
      destruct ok; [|apply Hother; reflexivity].
      destruct (rxdb (service s)); [|apply Hother; reflexivity].
      destruct rest; apply Hother; reflexivity.
    + pose proof (count_insert isCreating (works s) i Returned _ Hi) as K1.
      pose proof (count_insert isDestroying (works s) i Returned _ Hi) as K2.
      pose proof (count_insert isCreating (works s) i Threw _ Hi) as K3.
      pose proof (count_insert isDestroying (works s) i Threw _ Hi) as K4.
      cbn in K1, K2, K3, K4.
      destruct ok; unfold lifecycle, creating, destroying, with_work;
        cbn [works service rxdb initPromise]; lifecycle_goal Hc Hd.
Qed.

Lemma lifecycle_run events s :
  orderly events s = true -> lifecycle s -> lifecycle (run events s).
Proof.
  revert s. induction events as [|e events IH]; intros s Ho Hs; [exact Hs|].
  cbn in Ho. apply andb_prop in Ho as [He Ho]. apply negb_true_iff in He.
  apply (IH (step s e)); [exact Ho|]. apply lifecycle_step; assumption.
Qed.

Lemma lifecycle_start : lifecycle start.
Proof. repeat apply conj; cbn; try lia; discriminate. Qed.

(** X17. The database is created once.  As long as no [destroy()] is
    called while another is under way, and whatever the order of the
    calls and of their completions: at most one [createDatabase] is
    under way, none while a database is live, and [init()] starts
    nothing while a creation is under way or a database is live. *)
Theorem database_is_created_once (events : list Event) :
  orderly events start = true ->
  let s := run events start in
  (creating s <= 1)%nat
  /\ (isInitialized s = true -> creating s = 0%nat /\ init s = s)
  /\ (creating s = 1%nat -> database s = None /\ init s = s).
Proof.
  intros Ho s. destruct (lifecycle_run events start Ho lifecycle_start) as (Hone & Hc & Hd).
  fold s in Hone, Hc, Hd. split; [lia|]. split.
  - unfold isInitialized, init. destruct (rxdb (service s)) eqn:Hr; [|discriminate].
    intros _. split.
    + destruct (creating s) as [|[|m]]; [reflexivity| |lia].
      destruct (Hc eq_refl) as [Hn _]. discriminate.
    + destruct (initPromise (service s)); reflexivity.
  - intros H1. destruct (Hc H1) as [Hr Hp]. split; [exact Hr|].
    unfold init. destruct (initPromise (service s)); [reflexivity|congruence].
Qed.

Lemma database_is_created_once_witness :
  let s := run retried start in
  (creating s <= 1)%nat
  /\ (isInitialized s = true -> creating s = 0%nat /\ init s = s)
  /\ (creating s = 1%nat -> database s = None /\ init s = s).
Proof. apply (database_is_created_once retried). reflexivity. Defined.

(** X18. A failed creation does not block the service: under the same
    condition, when a [createDatabase] under way fails at either of its
    steps, no database is set and the next [init()] calls
    [createDatabase] again. *)
Theorem failed_creation_is_retried (events : list Event) (i : nat) :
  orderly events start = true ->
  let s := run events start in
  (exists k, works s !! i = Some k /\ isCreating k = true) ->
  let s' := settle i false s in
  database s' = None
  /\ creating s' = 0%nat
  /\ works (init s') = (works s' ++ [CreatingDatabase (List.length (works s'))])%list.
Proof.
  intros Ho s (k & Hi & Hk) s'.
  destruct (lifecycle_run events start Ho lifecycle_start) as (Hone & Hc & Hd).
  fold s in Hone, Hc, Hd. unfold creating, destroying in *.
  pose proof (count_insert isCreating (works s) i Threw _ Hi) as K.
  rewrite Hk in K. cbn in K.
  assert (H1 : List.length (List.filter isCreating (works s)) = 1%nat) by lia.
  destruct (Hc H1) as [Hr Hp].
  assert (E : s' = creationFailed i s).
  { subst s'. unfold settle. rewrite Hi. destruct k; try discriminate; reflexivity. }
  rewrite E. unfold database, init, creationFailed. cbn [service works rxdb initPromise].
  rewrite Hr. repeat apply conj; [reflexivity|lia|reflexivity].
Qed.

Lemma failed_creation_is_retried_witness :
  let s := run [Call_init; Settles 0 true] start in
  let s' := settle 0 false s in
  database s' = None
  /\ creating s' = 0%nat
  /\ works (init s') = (works s' ++ [CreatingDatabase (List.length (works s'))])%list.
Proof.
  apply (failed_creation_is_retried [Call_init; Settles 0 true] 0).
  - reflexivity.
  - exists (AddingCollections 0). split; reflexivity.
Defined.

End DatabaseFacts.
